(** * Lesson pages of the Streamlit hands-on course: a shallow embedding

    The pages under [pages/] are scripts the framework reruns top to bottom
    on every interaction.  Each handler below is the body of one
    [if st.button(...)] / [if st.form_submit_button(...)] block, written as a
    function from the session state before the click (and the widget values)
    to the session state after it together with the calls made on the UI. *)

From stdpp Require Import base decidable numbers option list strings pretty gmap.
From Stdlib Require Import NArith ZArith Lia.

#[local] Set Warnings "-register-all".
#[local] Open Scope N_scope.

(** ** Python text *)

Module Text.

(** A Python [str] is a sequence of code points.  Widget values reach the
    script through the framework's protobuf messages, whose string fields are
    valid UTF-8, so every code point of an input is a Unicode scalar value:
    [len] counts these, and [str.encode()] never raises on them. *)
Definition is_scalar (n : N) : bool :=
  let hi := N.shiftr n 11 in
  (hi <? 27) || ((27 <? hi) && (N.shiftr n 16 <? 17)).

(** The surrogates U+D800..U+DFFF are the code points whose bits above the
    low eleven are 27, and U+10FFFF is the last one below 17 * 2^16. *)
Lemma is_scalar_spec n :
  is_scalar n = true ↔ n < 0xD800 ∨ (0xDFFF < n ∧ n < 0x110000).
Proof.
  unfold is_scalar. cbv zeta.
  rewrite orb_true_iff, andb_true_iff, !N.ltb_lt, !N.shiftr_div_pow2.
  change (2 ^ 11) with 2048. change (2 ^ 16) with 65536.
  assert (H1 : n = 2048 * (n / 2048) + n mod 2048) by (apply N.div_mod; lia).
  assert (H2 : n = 65536 * (n / 65536) + n mod 65536) by (apply N.div_mod; lia).
  assert (H3 : n mod 2048 < 2048) by (apply N.mod_upper_bound; lia).
  assert (H4 : n mod 65536 < 65536) by (apply N.mod_upper_bound; lia).
  revert H1 H2 H3 H4.
  generalize (n / 2048) (n mod 2048) (n / 65536) (n mod 65536).
  intros; lia.
Qed.

Definition char : Type := { n : N | is_scalar n }.
Definition str : Type := list char.

Definition ord (c : char) : N := proj1_sig c.

Definition replacement_char : char := 0xFFFD ↾ I.

Definition chr (n : N) : char :=
  match decide (Is_true (is_scalar n)) with
  | left H => n ↾ H
  | right _ => replacement_char
  end.

Lemma ord_chr n : is_scalar n = true → ord (chr n) = n.
Proof.
  intros H. unfold chr. destruct (decide _) as [|Hn]; [done|].
  destruct Hn. by rewrite H.
Qed.

Lemma ord_inj c1 c2 : ord c1 = ord c2 → c1 = c2.
Proof. destruct c1, c2; simpl; intros ->. f_equal. apply proof_irrel. Qed.

(** [bytes.decode('utf-8')] on the bytes of a source literal; only used to
    write the literals of the scripts. *)
Definition cont (b : N) : N := N.land b 0x3F.

Fixpoint utf8_decode (bs : list N) : list N :=
  match bs with
  | [] => []
  | b0 :: r0 =>
    if b0 <? 0x80 then b0 :: utf8_decode r0
    else match r0 with
    | [] => [0xFFFD]
    | b1 :: r1 =>
      if b0 <? 0xE0 then
        (N.shiftl (N.land b0 0x1F) 6 + cont b1) :: utf8_decode r1
      else match r1 with
      | [] => [0xFFFD]
      | b2 :: r2 =>
        if b0 <? 0xF0 then
          (N.shiftl (N.land b0 0x0F) 12 + N.shiftl (cont b1) 6 + cont b2)
            :: utf8_decode r2
        else match r2 with
        | [] => [0xFFFD]
        | b3 :: r3 =>
          (N.shiftl (N.land b0 0x07) 18 + N.shiftl (cont b1) 12
             + N.shiftl (cont b2) 6 + cont b3) :: utf8_decode r3
        end
      end
    end
  end.

Definition bytes_of_string (s : string) : list N :=
  (λ a, Ascii.N_of_ascii a) <$> String.list_ascii_of_string s.

(** A literal of the source, as the [str] it denotes. *)
Definition lit (s : string) : str := chr <$> utf8_decode (bytes_of_string s).

(** [str.encode()]: UTF-8. *)
Definition encode_char (c : char) : list N :=
  let n := ord c in
  if n <? 0x80 then [n]
  else if n <? 0x800 then
    [0xC0 + N.shiftr n 6; 0x80 + N.land n 0x3F]
  else if n <? 0x10000 then
    [0xE0 + N.shiftr n 12; 0x80 + N.land (N.shiftr n 6) 0x3F;
     0x80 + N.land n 0x3F]
  else
    [0xF0 + N.shiftr n 18; 0x80 + N.land (N.shiftr n 12) 0x3F;
     0x80 + N.land (N.shiftr n 6) 0x3F; 0x80 + N.land n 0x3F].

Definition encode (s : str) : list N := s ≫= encode_char.

(** [not s] for a string, and [len(s)]. *)
Definition is_empty (s : str) : bool := bool_decide (s = []).
Definition len (s : str) : Z := Z.of_nat (length s).

(** [c in s] for a one-character literal [c]. *)
Definition contains_char (c : char) (s : str) : bool := bool_decide (c ∈ s).

(** [sep.join(l)] *)
Fixpoint join (sep : str) (l : list str) : str :=
  match l with
  | [] => []
  | [x] => x
  | x :: r => x ++ sep ++ join sep r
  end.

(** [str(n)] and [f"{n}"] for an integer. *)
Definition str_of_Z (n : Z) : str :=
  (λ a, chr (Ascii.N_of_ascii a)) <$> String.list_ascii_of_string (pretty n).

(** [s.title()], on the ASCII letters: the first letter of every run of
    letters in upper case, the others in lower case.  The scripts call it on
    their own lower-case ASCII literals only. *)
Definition is_ascii_upper (c : char) : bool := (65 <=? ord c)%N && (ord c <=? 90)%N.
Definition is_ascii_lower (c : char) : bool := (97 <=? ord c)%N && (ord c <=? 122)%N.

Fixpoint title_from (previous_is_cased : bool) (s : str) : str :=
  match s with
  | [] => []
  | c :: r =>
      if is_ascii_upper c then
        (if previous_is_cased then chr (ord c + 32) else c) :: title_from true r
      else if is_ascii_lower c then
        (if previous_is_cased then c else chr (ord c - 32)) :: title_from true r
      else c :: title_from false r
  end.

Definition title (s : str) : str := title_from false s.

(** How many of a list of tests hold. *)
Definition count_true (l : list bool) : Z :=
  Z.of_nat (length (filter (λ b, b = true) l)).

Lemma is_empty_true s : is_empty s = true ↔ s = [].
Proof. unfold is_empty. by rewrite bool_decide_eq_true. Qed.

Lemma is_empty_false s : is_empty s = false ↔ s ≠ [].
Proof. unfold is_empty. by rewrite bool_decide_eq_false. Qed.

End Text.
Export Text.

#[global] Arguments lit : simpl never.
#[global] Arguments chr : simpl never.
#[global] Arguments str_of_Z : simpl never.

(** ** hashlib.sha256(...).hexdigest() *)

Module Sha256.

Definition mask32 (x : N) : N := N.land x 0xFFFFFFFF.
Definition add32 (x y : N) : N := mask32 (x + y).
Definition rotr (n x : N) : N :=
  mask32 (N.lor (N.shiftr x n) (N.shiftl x (32 - n))).
Definition not32 (x : N) : N := N.lxor x 0xFFFFFFFF.

Definition Ch (x y z : N) : N := N.lxor (N.land x y) (N.land (not32 x) z).
Definition Maj (x y z : N) : N :=
  N.lxor (N.lxor (N.land x y) (N.land x z)) (N.land y z).
Definition bsig0 (x : N) : N := N.lxor (N.lxor (rotr 2 x) (rotr 13 x)) (rotr 22 x).
Definition bsig1 (x : N) : N := N.lxor (N.lxor (rotr 6 x) (rotr 11 x)) (rotr 25 x).
Definition ssig0 (x : N) : N := N.lxor (N.lxor (rotr 7 x) (rotr 18 x)) (N.shiftr x 3).
Definition ssig1 (x : N) : N := N.lxor (N.lxor (rotr 17 x) (rotr 19 x)) (N.shiftr x 10).

(** The round constants are the first 32 bits of the fractional parts of
    the cube roots of the first 64 primes, and the initial hash value those
    of the square roots of the first 8. *)
Definition primes : list N :=
  [2; 3; 5; 7; 11; 13; 17; 19; 23; 29; 31; 37; 41; 43; 47; 53; 59; 61; 67;
   71; 73; 79; 83; 89; 97; 101; 103; 107; 109; 113; 127; 131; 137; 139; 149;
   151; 157; 163; 167; 173; 179; 181; 191; 193; 197; 199; 211; 223; 227;
   229; 233; 239; 241; 251; 257; 263; 269; 271; 277; 281; 283; 293; 307;
   311].

(** The largest [r + d] with [d < 2^bits] whose cube is at most [n]. *)
Fixpoint cube_root_from (bits : nat) (n r : N) : N :=
  match bits with
  | O => r
  | S b =>
      let c := r + N.shiftl 1 (N.of_nat b) in
      if c * c * c <=? n then cube_root_from b n c else cube_root_from b n r
  end.

Definition K : list N :=
  (λ p, mask32 (cube_root_from 40 (N.shiftl p 96) 0)) <$> primes.

Definition H0 : list N :=
  (λ p, mask32 (N.sqrt (N.shiftl p 64))) <$> take 8 primes.

(** Big-endian bytes of [x], [n] of them. *)
Fixpoint be_bytes (n : nat) (x : N) : list N :=
  match n with
  | O => []
  | S k => N.land (N.shiftr x (8 * N.of_nat k)) 0xFF :: be_bytes k x
  end.

Definition pad (msg : list N) : list N :=
  let l := N.of_nat (length msg) in
  let zeros := N.to_nat ((119 - l mod 64) mod 64) in
  msg ++ [0x80] ++ replicate zeros 0 ++ be_bytes 8 (8 * l).

Fixpoint be_words (fuel : nat) (bs : list N) : list N :=
  match fuel, bs with
  | S f, b0 :: b1 :: b2 :: b3 :: r =>
      (N.shiftl b0 24 + N.shiftl b1 16 + N.shiftl b2 8 + b3) :: be_words f r
  | _, _ => []
  end.

(** The message schedule, most recent word first. *)
Fixpoint schedule (n : nat) (w : list N) : list N :=
  match n with
  | O => w
  | S k =>
      let wt := add32 (add32 (ssig1 (w !!! 1%nat)) (w !!! 6%nat))
                      (add32 (ssig0 (w !!! 14%nat)) (w !!! 15%nat)) in
      schedule k (wt :: w)
  end.

Definition round (st : list N) (kw : N * N) : list N :=
  match st with
  | [a; b; c; d; e; f; g; h] =>
      let t1 := add32 (add32 (add32 h (bsig1 e)) (add32 (Ch e f g) kw.1)) kw.2 in
      let t2 := add32 (bsig0 a) (Maj a b c) in
      [add32 t1 t2; a; b; c; add32 d t1; e; f; g]
  | _ => st
  end.

Definition compress (h : list N) (block : list N) : list N :=
  let w := reverse (schedule 48 (reverse (be_words 16 block))) in
  let st := foldl round h (zip K w) in
  zip_with add32 h st.

Fixpoint blocks (fuel : nat) (bs : list N) : list (list N) :=
  match fuel, bs with
  | S f, _ :: _ => take 64 bs :: blocks f (drop 64 bs)
  | _, _ => []
  end.

Definition digest (msg : list N) : list N :=
  let p := pad msg in
  foldl compress H0 (blocks (length p) p) ≫= be_bytes 4.

Definition hex_digit (n : N) : char :=
  chr (if n <? 10 then 48 + n else 87 + n).

Definition hex (bs : list N) : str :=
  bs ≫= (λ b, [hex_digit (N.shiftr b 4); hex_digit (N.land b 0xF)]).

(** [hashlib.sha256(b).hexdigest()] *)
Definition sha256_hexdigest (b : list N) : str := hex (digest b).

End Sha256.

(** [hashlib.sha256(s.encode()).hexdigest()], as every page writes it. *)
Definition hash_password (s : str) : str := Sha256.sha256_hexdigest (encode s).

#[global] Arguments hash_password : simpl never.

#[local] Close Scope N_scope.
#[local] Open Scope Z_scope.

(** ** What a handler does to the page *)

(** The calls a handler makes on the framework, in order.  [st_rerun] and
    [st_stop] end the run of the script; a handler below that makes one of
    them makes it last. *)
Inductive ui : Type :=
  | st_error (body : str)
  | st_success (body : str)
  | st_info (body : str)
  | st_warning (body : str)
  | st_write (body : str)
  | st_markdown (body : str)
  | st_header (body : str)
  | st_subheader (body : str)
  | st_caption (body : str)
  | st_metric (label : str) (value : Z)
  | st_balloons
  | st_rerun
  | st_stop.

#[global] Instance ui_eq_dec : EqDecision ui.
Proof. solve_decision. Defined.

(** ** Chapters 8 and 9: the users dictionary and the login state *)

(** One value of [st.session_state.users_db].  Chapter 8 writes the key
    ['created'] and no ['permissions']; chapter 9 the other way round. *)
Record user_record : Type := {
  password : str;
  role : str;
  email : str;
  created : option str;
  permissions : option (list str);
}.

(** The keys of [st.session_state] that chapters 8 and 9 share.  [None] is
    Python's [None]. *)
Record session : Type := {
  authenticated : bool;
  current_user : option str;
  user_role : option str;
  users_db : gmap str user_record;
}.

Definition set_users_db (db : gmap str user_record) (s : session) : session :=
  {| authenticated := authenticated s; current_user := current_user s;
     user_role := user_role s; users_db := db |}.

Module Chapter8.

(** [pages/08_authentication.py], the dictionary installed when
    ['users_db'] is not yet in the session. *)
Definition initial_users_db : gmap str user_record :=
  <[lit "admin" := {| password := hash_password (lit "admin123");
                      role := lit "admin";
                      email := lit "admin@example.com";
                      created := Some (lit "2024-01-01");
                      permissions := None |}]>
  (<[lit "user1" := {| password := hash_password (lit "user123");
                       role := lit "user";
                       email := lit "user1@example.com";
                       created := Some (lit "2024-01-15");
                       permissions := None |}]> ∅).

(** The body of [if submit:] in the form ["login_form"]. *)
Definition login_form (s : session) (username password_in : str)
  : session * list ui :=
  if is_empty username || is_empty password_in then
    (s, [st_error (lit "❌ Please fill in all fields")])
  else
    let hashed_input := hash_password password_in in
    match users_db s !! username with
    | Some u =>
        let stored_hash := password u in
        if bool_decide (hashed_input = stored_hash) then
          ({| authenticated := true; current_user := Some username;
              user_role := user_role s; users_db := users_db s |},
           [st_success (lit "✅ Login successful!"); st_balloons; st_rerun])
        else (s, [st_error (lit "❌ Invalid password")])
    | None => (s, [st_error (lit "❌ User not found")])
    end.

(** The error list the registration handler builds, one [if] after the
    other. *)
Definition register_errors (db : gmap str user_record)
    (new_username new_email new_password confirm_password : str) : list str :=
  let errors := [] in
  let errors :=
    if is_empty new_username || is_empty new_password || is_empty new_email
    then errors ++ [lit "All fields are required"] else errors in
  let errors :=
    if bool_decide (is_Some (db !! new_username))
    then errors ++ [lit "Username already exists"] else errors in
  let errors :=
    if len new_password <? 6
    then errors ++ [lit "Password must be at least 6 characters"] else errors in
  let errors :=
    if bool_decide (new_password ≠ confirm_password)
    then errors ++ [lit "Passwords don't match"] else errors in
  let errors :=
    if negb (contains_char (chr 64) new_email)
    then errors ++ [lit "Invalid email format"] else errors in
  errors.

(** The body of [if register_submit:] in the form ["register_form"]; [now] is
    [datetime.now().strftime('%Y-%m-%d %H:%M:%S')]. *)
Definition register_form (s : session)
    (new_username new_email new_password confirm_password role_in now : str)
  : session * list ui :=
  let errors :=
    register_errors (users_db s) new_username new_email new_password
      confirm_password in
  match errors with
  | _ :: _ => (s, (λ error, st_error (lit "❌ " ++ error)) <$> errors)
  | [] =>
      let hashed_password := hash_password new_password in
      (set_users_db
         (<[new_username := {| password := hashed_password;
                               email := new_email;
                               role := role_in;
                               created := Some now;
                               permissions := None |}]> (users_db s)) s,
       [st_success
          (lit "✅ Account created successfully! You can now login with username: "
             ++ new_username);
        st_balloons])
  end.

(** The logout button of the dashboard. *)
Definition logout (s : session) : session * list ui :=
  ({| authenticated := false; current_user := None;
      user_role := user_role s; users_db := users_db s |},
   [st_success (lit "✅ Logged out successfully!"); st_rerun]).

End Chapter8.

Module Chapter9.

(** [pages/09_access_control.py], the dictionary installed when
    ['users_db'] is not yet in the session. *)
Definition initial_users_db : gmap str user_record :=
  <[lit "admin" := {| password := hash_password (lit "admin123");
                      role := lit "admin";
                      email := lit "admin@company.com";
                      created := None;
                      permissions := Some (lit <$> ["read"; "write"; "delete";
                                                    "manage_users";
                                                    "view_analytics"]%string) |}]>
  (<[lit "manager" := {| password := hash_password (lit "manager123");
                         role := lit "manager";
                         email := lit "manager@company.com";
                         created := None;
                         permissions := Some (lit <$> ["read"; "write";
                                                       "view_analytics"]%string) |}]>
  (<[lit "user" := {| password := hash_password (lit "user123");
                      role := lit "user";
                      email := lit "user@company.com";
                      created := None;
                      permissions := Some (lit <$> ["read"; "write"]%string) |}]>
  (<[lit "viewer" := {| password := hash_password (lit "viewer123");
                        role := lit "viewer";
                        email := lit "viewer@company.com";
                        created := None;
                        permissions := Some (lit <$> ["read"]%string) |}]> ∅))).

(** The body of [if submit:] in the form ["rbac_login"]. *)
Definition rbac_login (s : session) (username password_in : str)
  : session * list ui :=
  match users_db s !! username with
  | Some u =>
      let hashed_input := hash_password password_in in
      let stored_hash := password u in
      if bool_decide (hashed_input = stored_hash) then
        ({| authenticated := true; current_user := Some username;
            user_role := Some (role u); users_db := users_db s |},
         [st_success (lit "✅ Login successful!"); st_rerun])
      else (s, [st_error (lit "❌ Invalid password")])
  | None => (s, [st_error (lit "❌ User not found")])
  end.

(** The logout button of the role dashboard. *)
Definition logout (s : session) : session * list ui :=
  ({| authenticated := false; current_user := None;
      user_role := None; users_db := users_db s |},
   [st_success (lit "✅ Logged out"); st_rerun]).

End Chapter9.

(** The session after the initialisation block at the top of the first of the
    two pages the user opens. *)
Definition initial_session8 : session :=
  {| authenticated := false; current_user := None; user_role := None;
     users_db := Chapter8.initial_users_db |}.

Definition initial_session9 : session :=
  {| authenticated := false; current_user := None; user_role := None;
     users_db := Chapter9.initial_users_db |}.

(** ** Chapter 9, tab 3: the permission testing ground *)

Module Rbac.

(** A dictionary literal, in the order it is written. *)
Definition ROLE_PERMISSIONS : list (str * list str) :=
  [(lit "admin", lit <$> ["read"; "write"; "delete"; "manage_users";
                          "view_analytics"; "system_settings"]%string);
   (lit "manager", lit <$> ["read"; "write"; "view_analytics";
                            "manage_team"]%string);
   (lit "user", lit <$> ["read"; "write"; "edit_profile"]%string);
   (lit "viewer", lit <$> ["read"]%string)].

Definition PAGE_ACCESS : list (str * list str) :=
  [(lit "home", lit <$> ["admin"; "manager"; "user"; "viewer"]%string);
   (lit "dashboard", lit <$> ["admin"; "manager"; "user"]%string);
   (lit "analytics", lit <$> ["admin"; "manager"]%string);
   (lit "users", lit <$> ["admin"]%string);
   (lit "settings", lit <$> ["admin"]%string)].

(** [d.get(k, default)] where [k] may be [None], which is no key of a
    dictionary of strings. *)
Fixpoint assoc {V} (d : list (str * V)) (k : str) : option V :=
  match d with
  | [] => None
  | (k', v) :: r => if bool_decide (k' = k) then Some v else assoc r k
  end.

Definition dict_get {V} (d : list (str * V)) (k : option str) (dflt : V) : V :=
  match k with
  | Some k => default dflt (assoc d k)
  | None => dflt
  end.

(** [x in l] where [x] may be [None]. *)
Definition py_in (x : option str) (l : list str) : bool :=
  match x with
  | Some x => bool_decide (x ∈ l)
  | None => false
  end.

Definition all_permissions : list str :=
  lit <$> ["read"; "write"; "delete"; "manage_users"; "view_analytics";
           "system_settings"]%string.

Definition user_permissions (s : session) : list str :=
  dict_get ROLE_PERMISSIONS (user_role s) [].

(** [repr] of a list of strings that hold no quote and no escape. *)
Definition repr_list (l : list str) : str :=
  lit "[" ++ join (lit ", ") ((λ x, lit "'" ++ x ++ lit "'") <$> l) ++ lit "]".

(** The three columns under "Test Your Permissions". *)
Definition permission_overview (s : session) : list ui :=
  let denied :=
    filter (λ p, p ∉ user_permissions s) all_permissions in
  [st_markdown (lit "### ✅ Granted")]
  ++ ((λ perm, st_success (lit "✓ " ++ perm)) <$> user_permissions s)
  ++ [st_markdown (lit "### ❌ Denied")]
  ++ ((λ perm, st_error (lit "✗ " ++ perm)) <$> denied)
  ++ [st_markdown (lit "### 📊 Summary");
      st_metric (lit "Granted") (Z.of_nat (length (user_permissions s)));
      st_metric (lit "Denied") (Z.of_nat (length denied));
      st_metric (lit "Total") (Z.of_nat (length all_permissions))].

Definition granted_message (test_perm : str) : ui :=
  st_success (lit "✅ You have '" ++ test_perm ++ lit "' permission!").

Definition denied_message (test_perm : str) : ui :=
  st_error (lit "❌ You don't have '" ++ test_perm ++ lit "' permission").

(** The body of [if st.button("🧪 Test Permission", ...)]. *)
Definition test_permission (s : session) (test_perm : str) : list ui :=
  if bool_decide (test_perm ∈ user_permissions s) then
    [granted_message test_perm; st_balloons]
  else
    [denied_message test_perm;
     st_write (lit "Required roles: "
       ++ repr_list (fst <$> filter (λ rp, test_perm ∈ rp.2) ROLE_PERMISSIONS))].

(** One turn of the loop [for page, allowed_roles in PAGE_ACCESS.items()]. *)
Definition page_access_row (s : session) (row : str * list str) : list ui :=
  let '(page, allowed_roles) := row in
  [st_write (lit "**" ++ title page ++ lit " Page**");
   st_caption (lit "Allowed: " ++ join (lit ", ") allowed_roles);
   if py_in (user_role s) allowed_roles
   then st_success (lit "✓ Access") else st_error (lit "✗ Denied")].

Definition page_access_test (s : session) : list ui :=
  PAGE_ACCESS ≫= page_access_row s.

(** [f"{x}"] for a session field that may be [None]. *)
Definition fmt (x : option str) : str :=
  match x with Some x => x | None => lit "None" end.

(** The whole of [with tab3:]; [clicked] is the value of the test button and
    [test_perm] that of the select box. *)
Definition tab3 (s : session) (test_perm : str) (clicked : bool) : list ui :=
  st_header (lit "🎯 Permission Testing Ground") ::
  if negb (authenticated s) then
    [st_warning (lit "🔒 Please login in the RBAC Demo tab first"); st_stop]
  else
    [st_success (lit "Testing as: **" ++ fmt (current_user s) ++ lit "** ("
                   ++ fmt (user_role s) ++ lit ")");
     st_markdown (lit "---");
     st_subheader (lit "🧪 Test Your Permissions")]
    ++ permission_overview s
    ++ [st_markdown (lit "---");
        st_subheader (lit "🔍 Test Specific Permission")]
    ++ (if clicked then test_permission s test_perm else [])
    ++ [st_markdown (lit "---");
        st_subheader (lit "🚪 Page Access Test")]
    ++ page_access_test s.

End Rbac.

(** ** Chapter 8, tab 4: the quiz *)

Module Quiz8.

(** The five [if]/[else] blocks of the handler: the running [score] and the
    [feedback] list after all of them. *)
Definition grade (q1 q2 q3 : str) (q4 : bool) (q5 : str) : Z * list str :=
  let score := 0 in
  let feedback := [] in
  let '(score, feedback) :=
    if bool_decide (q1 = lit "To prevent storing plain text passwords")
    then (score + 1, feedback ++ [lit "✅ Q1: Correct! Never store plain text passwords"])
    else (score, feedback ++ [lit "❌ Q1: Hashing prevents storing plain text"]) in
  let '(score, feedback) :=
    if bool_decide (q2 = lit "st.session_state")
    then (score + 1, feedback ++ [lit "✅ Q2: Correct!"])
    else (score, feedback ++ [lit "❌ Q2: Use st.session_state"]) in
  let '(score, feedback) :=
    if bool_decide (q3 = lit "st.stop()")
    then (score + 1, feedback ++ [lit "✅ Q3: Correct!"])
    else (score, feedback ++ [lit "❌ Q3: Use st.stop() to halt execution"]) in
  let '(score, feedback) :=
    if q4
    then (score + 1, feedback ++ [lit "✅ Q4: Correct! Session state is shared"])
    else (score, feedback ++ [lit "❌ Q4: Session state persists across pages"]) in
  let '(score, feedback) :=
    if bool_decide (q5 = lit "bcrypt")
    then (score + 1, feedback ++ [lit "✅ Q5: Correct! bcrypt is production-ready"])
    else (score, feedback ++ [lit "❌ Q5: bcrypt is recommended for production"]) in
  (score, feedback).

Definition score_line (score : Z) : ui :=
  st_write (lit "### 🎯 Score: " ++ str_of_Z score ++ lit "/5").

Definition perfect_message : ui :=
  st_success (lit "🎉 Excellent! You understand authentication!").

(** The body of [if st.button("✅ Check Answers", ...)]. *)
Definition check_answers (q1 q2 q3 : str) (q4 : bool) (q5 : str) : list ui :=
  let '(score, feedback) := grade q1 q2 q3 q4 q5 in
  [st_markdown (lit "---"); score_line score]
  ++ (st_write <$> feedback)
  ++ (if score =? 5 then [perfect_message; st_balloons]
      else if 3 <=? score then [st_info (lit "👍 Good! Review security concepts.")]
      else [st_warning (lit "📖 Please review authentication concepts.")]).


End Quiz8.

(** ** Chapter 10: validation patterns and the form wizard *)

Module Chapter10.

Section PasswordStrength.

(** The class [\d] of Python's [re] on a [str]: the decimal digits of the
    interpreter's Unicode database, which the repository does not hold. *)
Variable unicode_decimal : char → bool.

(** [re.search] of a pattern that is one character class. *)
Definition re_search_class (class : char → bool) (s : str) : bool :=
  existsb class s.

(** The class of the last pattern: ! @ # $ % ^ & * ( ) , . ? the double
    quote (34) : { } | < > *)
Definition special_characters : list char :=
  lit "!@#$%^&*(),.?" ++ [chr 34] ++ lit ":{}|<>".

Definition is_special (c : char) : bool := bool_decide (c ∈ special_characters).

(** The five [if]/[else] blocks of the handler. *)
Definition strength_of (password_input : str) : Z * list str :=
  let strength := 0 in
  let feedback := [] in
  let '(strength, feedback) :=
    if 8 <=? len password_input
    then (strength + 1, feedback ++ [lit "✅ Length OK (8+ characters)"])
    else (strength, feedback ++ [lit "❌ Too short (need 8+ characters)"]) in
  let '(strength, feedback) :=
    if re_search_class is_ascii_upper password_input
    then (strength + 1, feedback ++ [lit "✅ Has uppercase letter"])
    else (strength, feedback ++ [lit "❌ Needs uppercase letter"]) in
  let '(strength, feedback) :=
    if re_search_class is_ascii_lower password_input
    then (strength + 1, feedback ++ [lit "✅ Has lowercase letter"])
    else (strength, feedback ++ [lit "❌ Needs lowercase letter"]) in
  let '(strength, feedback) :=
    if re_search_class unicode_decimal password_input
    then (strength + 1, feedback ++ [lit "✅ Has number"])
    else (strength, feedback ++ [lit "❌ Needs number"]) in
  let '(strength, feedback) :=
    if re_search_class is_special password_input
    then (strength + 1, feedback ++ [lit "✅ Has special character"])
    else (strength, feedback ++ [lit "⚠️ Consider adding special character"]) in
  (strength, feedback).

Definition score_suffix (strength : Z) : str :=
  lit " Password (Score: " ++ str_of_Z strength ++ lit "/5)".

Definition weak (strength : Z) : ui := st_error (lit "🔴 Weak" ++ score_suffix strength).
Definition medium (strength : Z) : ui := st_warning (lit "🟡 Medium" ++ score_suffix strength).
Definition strong (strength : Z) : ui := st_success (lit "🟢 Strong" ++ score_suffix strength).

(** The body of [if st.form_submit_button("Check Strength")]. *)
Definition password_validation (password_input : str) : list ui :=
  if is_empty password_input then [st_error (lit "❌ Password is required")]
  else
    let '(strength, feedback) := strength_of password_input in
    (if strength <=? 2 then weak strength
     else if strength <=? 3 then medium strength
     else strong strength)
    :: (st_write <$> feedback).

(** The five criteria, as the specification lists them. *)
Definition criteria (password_input : str) : list bool :=
  [bool_decide (8 ≤ len password_input);
   bool_decide (Exists (λ c, is_ascii_upper c = true) password_input);
   bool_decide (Exists (λ c, is_ascii_lower c = true) password_input);
   bool_decide (Exists (λ c, unicode_decimal c = true) password_input);
   bool_decide (Exists (λ c, c ∈ special_characters) password_input)].

End PasswordStrength.

End Chapter10.

(** ** Chapter 10, tab 4: the multi-step form wizard *)

Module Wizard.

(** [datetime.date] *)
Record date : Type := { year : Z; month : Z; day : Z }.

#[global] Instance date_eq_dec : EqDecision date.
Proof. solve_decision. Defined.

(** A value of the dictionary [form_data]: a text field or the birth date
    of the wizard, or the age of the form of chapter 4. *)
Inductive fval : Type :=
  | FStr (s : str)
  | FDate (d : date)
  | FInt (n : Z).

#[global] Instance fval_eq_dec : EqDecision fval.
Proof. solve_decision. Defined.

(** One element of [submitted_forms].  The wizard appends
    [{'type': ..., 'data': ..., 'timestamp': ...}]; the contact and the
    registration form of the other tabs append flat records, which have
    [fields] and no ['data']. *)
Record submission : Type := {
  sub_type : str;
  sub_fields : gmap string fval;
  sub_data : option (gmap string fval);
  sub_timestamp : str;
}.

(** The three session keys of [pages/10_forms_validation.py].  The key
    ['form_data'] is shared: the form "user_form" of
    [pages/04_session_state.py] assigns it too, and the initialisation of
    chapter 10 keeps a dictionary it finds. *)
Record state : Type := {
  form_step : Z;
  form_data : gmap string fval;
  submitted_forms : list submission;
}.

(** The state after the initialisation block of the page, in a fresh
    session. *)
Definition initial : state :=
  {| form_step := 1; form_data := ∅; submitted_forms := [] |}.

(** [d.update(e)]: the keys of [e] win. *)
Definition update (d e : gmap string fval) : gmap string fval := e ∪ d.

(** The buttons of the tab, with the widget values of their form. *)
Inductive event : Type :=
  | Step1Next (first_name email_in last_name phone : str) (birthdate : date)
  | Step2Back
  | Step2Next (street city state_in zipcode country : str)
  | Step3Back
  | Step3Next (username password_in confirm_password security_question
                 security_answer : str)
  | Step4Back
  | Step4Submit (now : str)
  (** the contact or registration form of tab 2 or 3 storing its record *)
  | OtherTabSubmission (record : submission)
  (** the form "user_form" of chapter 4, with its name, e-mail address and
      age *)
  | UserForm (name email_in : str) (age : Z).

Definition add_error (cond : bool) (message : string) (errors : list str)
  : list str :=
  if cond then errors ++ [lit message] else errors.

Definition step1_errors (first_name email_in last_name phone : str) : list str :=
  let errors := [] in
  let errors := add_error (is_empty first_name) "First name is required" errors in
  let errors := add_error (is_empty last_name) "Last name is required" errors in
  let errors :=
    add_error (is_empty email_in || negb (contains_char (chr 64) email_in))
      "Valid email is required" errors in
  let errors := add_error (is_empty phone) "Phone is required" errors in
  errors.

Definition step1_fields (first_name email_in last_name phone : str)
    (birthdate : date) : gmap string fval :=
  list_to_map
    [("first_name", FStr first_name); ("last_name", FStr last_name);
     ("email", FStr email_in); ("phone", FStr phone);
     ("birthdate", FDate birthdate)]%string.

Definition step2_errors (street city state_in zipcode : str) : list str :=
  let errors := [] in
  let errors := add_error (is_empty street) "Street address is required" errors in
  let errors := add_error (is_empty city) "City is required" errors in
  let errors := add_error (is_empty state_in) "State is required" errors in
  let errors := add_error (is_empty zipcode) "ZIP code is required" errors in
  errors.

Definition step2_fields (street city state_in zipcode country : str)
  : gmap string fval :=
  list_to_map
    [("street", FStr street); ("city", FStr city); ("state", FStr state_in);
     ("zipcode", FStr zipcode); ("country", FStr country)]%string.

Definition step3_errors (username password_in confirm_password
    security_answer : str) : list str :=
  let errors := [] in
  let errors :=
    if is_empty username then errors ++ [lit "Username is required"]
    else if len username <? 3
    then errors ++ [lit "Username must be at least 3 characters"]
    else errors in
  let errors :=
    if is_empty password_in then errors ++ [lit "Password is required"]
    else if len password_in <? 8
    then errors ++ [lit "Password must be at least 8 characters"]
    else errors in
  let errors :=
    add_error (bool_decide (password_in ≠ confirm_password))
      "Passwords don't match" errors in
  let errors :=
    add_error (is_empty security_answer) "Security answer is required" errors in
  errors.

(** The password itself is not kept: the key holds a fixed mask. *)
Definition step3_fields (username security_question security_answer : str)
  : gmap string fval :=
  list_to_map
    [("username", FStr username); ("password", FStr (lit "***hidden***"));
     ("security_question", FStr security_question);
     ("security_answer", FStr security_answer)]%string.

Definition show_errors (errors : list str) : list ui :=
  (λ error, st_error (lit "❌ " ++ error)) <$> errors.

(** The end of every [Next] handler: report the errors, or merge the fields
    of the step and move to step [next]. *)
Definition next_step (w : state) (errors : list str)
    (fields : gmap string fval) (next : Z) : state * list ui :=
  match errors with
  | _ :: _ => (w, show_errors errors)
  | [] =>
      ({| form_step := next; form_data := update (form_data w) fields;
          submitted_forms := submitted_forms w |}, [st_rerun])
  end.

(** The form "user_form" of [pages/04_session_state.py]: it replaces
    [form_data] by a dictionary of its own three fields (and sets
    ['form_submitted'], which chapter 10 does not read). *)
Definition user_form_errors (name email_in : str) : list str :=
  let errors := [] in
  let errors := add_error (is_empty name) "Name is required" errors in
  let errors :=
    add_error (is_empty email_in || negb (contains_char (chr 64) email_in))
      "Valid email is required" errors in
  errors.

Definition user_form_fields (name email_in : str) (age : Z)
  : gmap string fval :=
  list_to_map
    [("name", FStr name); ("email", FStr email_in); ("age", FInt age)]%string.

Definition user_form (w : state) (name email_in : str) (age : Z)
  : state * list ui :=
  let errors := user_form_errors name email_in in
  match errors with
  | _ :: _ => (w, st_error <$> errors)
  | [] =>
      ({| form_step := form_step w;
          form_data := user_form_fields name email_in age;
          submitted_forms := submitted_forms w |},
       [st_success (lit "Form submitted!")])
  end.

Definition go_to (w : state) (step : Z) : state * list ui :=
  ({| form_step := step; form_data := form_data w;
      submitted_forms := submitted_forms w |}, [st_rerun]).

(** One interaction with the session.  A button of the wizard exists only
    in the branch of [if st.session_state.form_step == ...] that draws it:
    [None] when the page in state [w] does not show the button.  The number
    input of chapter 4 gives an age from 18 to 100. *)
Definition tab4 (w : state) (e : event) : option (state * list ui) :=
  match e with
  | OtherTabSubmission record =>
      Some ({| form_step := form_step w; form_data := form_data w;
               submitted_forms := submitted_forms w ++ [record] |}, [])
  | UserForm name email_in age =>
      if (18 <=? age) && (age <=? 100)
      then Some (user_form w name email_in age) else None
  | _ =>
    if form_step w =? 1 then
      match e with
      | Step1Next first_name email_in last_name phone birthdate =>
          Some (next_step w (step1_errors first_name email_in last_name phone)
                  (step1_fields first_name email_in last_name phone birthdate) 2)
      | _ => None
      end
    else if form_step w =? 2 then
      match e with
      | Step2Back => Some (go_to w 1)
      | Step2Next street city state_in zipcode country =>
          Some (next_step w (step2_errors street city state_in zipcode)
                  (step2_fields street city state_in zipcode country) 3)
      | _ => None
      end
    else if form_step w =? 3 then
      match e with
      | Step3Back => Some (go_to w 2)
      | Step3Next username password_in confirm_password security_question
          security_answer =>
          Some (next_step w
                  (step3_errors username password_in confirm_password
                     security_answer)
                  (step3_fields username security_question security_answer) 4)
      | _ => None
      end
    else if form_step w =? 4 then
      match e with
      | Step4Back => Some (go_to w 3)
      | Step4Submit now =>
          Some ({| form_step := 1; form_data := ∅;
                   submitted_forms :=
                     submitted_forms w
                     ++ [{| sub_type := lit "multi-step-application";
                            sub_fields := ∅;
                            sub_data := Some (form_data w);
                            sub_timestamp := now |}] |},
                [st_success (lit "🎉 Application submitted successfully!");
                 st_balloons;
                 st_write (lit "**Your application has been submitted!**")])
      | _ => None
      end
    else None
  end.

(** The states a session can be in: the initial one, and then one
    interaction after the other, with the wizard, with the other forms of
    chapter 10, or with the form of chapter 4. *)
Inductive reachable : state → Prop :=
  | reachable_initial : reachable initial
  | reachable_step w e w' out :
      reachable w → tab4 w e = Some (w', out) → reachable w'.

(** What kind of button an event is. *)
Definition is_next (e : event) : bool :=
  match e with Step1Next _ _ _ _ _ | Step2Next _ _ _ _ _ | Step3Next _ _ _ _ _ => true
  | _ => false end.

Definition is_back (e : event) : bool :=
  match e with Step2Back | Step3Back | Step4Back => true | _ => false end.

(** The step whose branch draws the button; [None] for the events that are
    not buttons of the wizard. *)
Definition button_step (e : event) : option Z :=
  match e with
  | Step1Next _ _ _ _ _ => Some 1
  | Step2Back | Step2Next _ _ _ _ _ => Some 2
  | Step3Back | Step3Next _ _ _ _ _ => Some 3
  | Step4Back | Step4Submit _ => Some 4
  | OtherTabSubmission _ | UserForm _ _ _ => None
  end.

(** The validation errors and the fields of a [Next] event. *)
Definition errors_of (e : event) : list str :=
  match e with
  | Step1Next f em l p _ => step1_errors f em l p
  | Step2Next s c st z _ => step2_errors s c st z
  | Step3Next u p c _ a => step3_errors u p c a
  | _ => []
  end.

Definition fields_of (e : event) : gmap string fval :=
  match e with
  | Step1Next f em l p b => step1_fields f em l p b
  | Step2Next s c st z co => step2_fields s c st z co
  | Step3Next u _ _ q a => step3_fields u q a
  | _ => ∅
  end.

End Wizard.

(** ** The shared session store *)

Module Store.

(** The values the pages keep in [st.session_state]. *)
Inductive pyval : Type :=
  | PNone
  | PBool (b : bool)
  | PInt (z : Z)
  | PStr (s : str)
  | PList (l : list pyval)
  | PDict (d : list (string * pyval)).

(** [st.session_state]: attribute names to values. *)
Abbreviation session_state := (gmap string pyval).

(** [st.session_state.k = v] and [st.session_state.k]. *)
Definition write (k : string) (v : pyval) (st : session_state) : session_state :=
  <[k := v]> st.

Definition read (k : string) (st : session_state) : option pyval := st !! k.

(** [if 'k' not in st.session_state: st.session_state.k = v] *)
Definition init_key (k : string) (v : pyval) (st : session_state) : session_state :=
  match read k st with
  | Some _ => st
  | None => write k v st
  end.

(** The integer an arithmetic operator sees in a value; [None] where
    Python raises. *)
Definition as_int (v : option pyval) : option Z :=
  match v with
  | Some (PInt z) => Some z
  | Some (PBool b) => Some (if b then 1 else 0)
  | _ => None
  end.

End Store.
Export Store.

(** ** Chapter 4, tab 2: the shopping cart *)

Module Chapter4.

Definition cart_init (st : session_state) : session_state :=
  init_key "cart" (PList []) st.

(** The callback [add_to_cart(prod, price)]:
    [st.session_state.cart.append({'product': prod, 'price': price})].
    [None] where Python raises (no cart, or a cart that is no list). *)
Definition add_to_cart (prod : str) (price : Z) (st : session_state)
  : option session_state :=
  match read "cart" st with
  | Some (PList cart) =>
      Some (write "cart"
              (PList (cart ++ [PDict [("product", PStr prod);
                                      ("price", PInt price)]%string])) st)
  | _ => None
  end.

End Chapter4.

(** ** Chapter 13, tab 4: manual refresh and progress tracking *)

Module Chapter13.


(** The body of [if st.button("🔄 Refresh Data", ...)]. *)
Definition refresh_data (st : session_state) : option (session_state * list ui) :=
  n ← as_int (read "refresh_count" st);
  Some (write "refresh_count" (PInt (n + 1)) st, [st_rerun]).

Definition progress_init (st : session_state) : session_state :=
  init_key "progress" (PInt 0) st.

Inductive progress_button : Type := Add10 | Subtract10 | Reset.

(** The bodies of the three [if st.button(...)] under "Progress Tracking". *)
Definition progress_click (b : progress_button) (st : session_state)
  : option (session_state * list ui) :=
  match b with
  | Add10 =>
      p ← as_int (read "progress" st);
      Some (write "progress" (PInt (Z.min 100 (p + 10))) st, [st_rerun])
  | Subtract10 =>
      p ← as_int (read "progress" st);
      Some (write "progress" (PInt (Z.max 0 (p - 10))) st, [st_rerun])
  | Reset => Some (write "progress" (PInt 0) st, [st_rerun])
  end.

(** What happens in a session, as far as the key ['progress'] goes: a click
    on one of the three buttons, or a write of any page to another key. *)
Inductive interaction : Type :=
  | Click (b : progress_button)
  | OtherWrite (k : string) (v : pyval).

(** One rerun of the page: the initialisation block, then the handler. *)
Definition interact (i : interaction) (st : session_state) : option session_state :=
  match i with
  | Click b => fst <$> progress_click b (progress_init st)
  | OtherWrite k v =>
      if bool_decide (k = "progress") then None else Some (write k v st)
  end.

Fixpoint run (trace : list interaction) (st : session_state) : option session_state :=
  match trace with
  | [] => Some st
  | i :: r => st' ← interact i st; run r st'
  end.

End Chapter13.

(** ** Chapter 13, tab 2: the SQLite demo table *)

Module Sqlite.

Inductive value : Type :=
  | NULL
  | INTEGER (z : Z)
  | TEXT (s : str).

#[global] Instance value_eq_dec : EqDecision value.
Proof. solve_decision. Defined.

Inductive default_expr : Type :=
  | Literal (v : value)
  | CURRENT_TIMESTAMP.

Inductive column_constraint : Type :=
  | PRIMARY_KEY_AUTOINCREMENT
  | NOT_NULL
  | UNIQUE
  | DEFAULT (e : default_expr).

#[global] Instance default_expr_eq_dec : EqDecision default_expr.
Proof. solve_decision. Defined.

#[global] Instance column_constraint_eq_dec : EqDecision column_constraint.
Proof. solve_decision. Defined.

Record column : Type := {
  col_name : string;
  col_type : string;
  col_constraints : list column_constraint;
}.

(** The [CREATE TABLE IF NOT EXISTS users (...)] of [init_database]. *)
Definition users : list column :=
  [{| col_name := "id"; col_type := "INTEGER";
      col_constraints := [PRIMARY_KEY_AUTOINCREMENT] |};
   {| col_name := "name"; col_type := "TEXT";
      col_constraints := [NOT_NULL] |};
   {| col_name := "email"; col_type := "TEXT";
      col_constraints := [UNIQUE; NOT_NULL] |};
   {| col_name := "role"; col_type := "TEXT";
      col_constraints := [DEFAULT (Literal (TEXT (lit "user")))] |};
   {| col_name := "created_at"; col_type := "TIMESTAMP";
      col_constraints := [DEFAULT CURRENT_TIMESTAMP] |}]%string.

(** The type affinity of a column, by the engine's rules on the declared
    type, which the schema writes in upper case. *)
Inductive affinity : Type :=
  | INTEGER_AFFINITY
  | TEXT_AFFINITY
  | BLOB_AFFINITY
  | REAL_AFFINITY
  | NUMERIC_AFFINITY.

Definition mentions (part declared : string) : bool :=
  bool_decide (is_Some (String.index 0 part declared)).

Definition affinity_of (declared : string) : affinity :=
  if mentions "INT" declared then INTEGER_AFFINITY
  else if mentions "CHAR" declared || mentions "CLOB" declared
          || mentions "TEXT" declared
  then TEXT_AFFINITY
  else if mentions "BLOB" declared || bool_decide (declared = ""%string)
  then BLOB_AFFINITY
  else if mentions "REAL" declared || mentions "FLOA" declared
          || mentions "DOUB" declared
  then REAL_AFFINITY
  else NUMERIC_AFFINITY.

(** What the engine stores for a value, by the affinity of the column: a
    column of TEXT affinity holds an integer as its decimal text.  (A text
    that reads as a number is converted in a column of numeric affinity; the
    statements of the page bind the three TEXT columns only, and that
    conversion is left out.) *)
Definition coerce (a : affinity) (v : value) : value :=
  match a, v with
  | TEXT_AFFINITY, INTEGER z => TEXT (str_of_Z z)
  | _, _ => v
  end.

(** The parameters the driver can bind among these values: [None], a [str],
    and an [int] of 64 bits (a larger one raises [OverflowError]). *)
Definition bindable (v : value) : Prop :=
  match v with
  | INTEGER z => - 2 ^ 63 ≤ z < 2 ^ 63
  | _ => True
  end.

(** The rows of a table, each with one value per column, and the largest
    row id the table ever held ([sqlite_sequence]).  Row ids are unbounded
    here; the engine's are 64-bit, see [has_room]. *)
Record table : Type := {
  rows : list (list value);
  sequence : Z;
}.

Definition empty : table := {| rows := []; sequence := 0 |}.

Inductive outcome : Type :=
  | Done (t : table)
  | IntegrityError.

Definition is_key (c : column) : bool :=
  bool_decide (PRIMARY_KEY_AUTOINCREMENT ∈ col_constraints c).

Fixpoint default_of (now : str) (cs : list column_constraint) : value :=
  match cs with
  | [] => NULL
  | DEFAULT (Literal v) :: _ => v
  | DEFAULT CURRENT_TIMESTAMP :: _ => TEXT now
  | _ :: r => default_of now r
  end.

Fixpoint assigned (assignments : list (string * value)) (name : string)
  : option value :=
  match assignments with
  | [] => None
  | (n, v) :: r => if bool_decide (n = name) then Some v else assigned r name
  end.

(** The value an INSERT stores in column [c]: the one it names, or the next
    row id for the key, or the default of the column. *)
Definition stored (assignments : list (string * value)) (now : str)
    (next_id : Z) (c : column) : value :=
  coerce (affinity_of (col_type c))
    match assigned assignments (col_name c) with
    | Some NULL => if is_key c then INTEGER next_id else NULL
    | Some v => v
    | None =>
        if is_key c then INTEGER next_id
        else default_of now (col_constraints c)
    end.

(** The row ids of a table: the integers in its key columns. *)
Definition row_ids (cols : list column) (row : list value) : list Z :=
  omap (λ cv, match cv with
              | (c, INTEGER z) => if is_key c then Some z else None
              | _ => None
              end) (zip cols row).

Definition max_list (l : list Z) : Z := foldr Z.max 0 l.

Definition next_row_id (cols : list column) (t : table) : Z :=
  Z.max (sequence t) (max_list (rows t ≫= row_ids cols)) + 1.

(** The largest row id of the engine.  Once it has been used, an INSERT into
    a table with AUTOINCREMENT fails with SQLITE_FULL, which is not an
    [IntegrityError]; [insert] below is the engine on tables that have room. *)
Definition max_rowid : Z := 2 ^ 63 - 1.

Definition has_room (cols : list column) (t : table) : Prop :=
  next_row_id cols t ≤ max_rowid.

(** Some row holds [v] in column [i]. *)
Definition taken (rs : list (list value)) (i : nat) (v : value) : bool :=
  bool_decide (Exists (λ r, r !! i = Some v) rs).

(** Column [i] of the new row breaks a constraint of its column. *)
Definition breaks (rs : list (list value)) (i : nat) (c : column) (v : value)
  : bool :=
  (bool_decide (NOT_NULL ∈ col_constraints c) && bool_decide (v = NULL))
  || (bool_decide (UNIQUE ∈ col_constraints c) && negb (bool_decide (v = NULL))
      && taken rs i v)
  || (is_key c && taken rs i v).

Definition violates (cols : list column) (rs : list (list value))
    (new : list value) : bool :=
  existsb (λ icv, breaks rs icv.1 icv.2.1 icv.2.2)
    (zip (seq 0 (length cols)) (zip cols new)).

(** [INSERT INTO t (names...) VALUES (values...)] followed by [commit]. *)
Definition insert (cols : list column) (t : table)
    (assignments : list (string * value)) (now : str) : outcome :=
  let id := next_row_id cols t in
  let new := stored assignments now id <$> cols in
  if violates cols (rows t) new then IntegrityError
  else Done {| rows := rows t ++ [new];
               sequence := Z.max (sequence t) (max_list (row_ids cols new)) |}.

(** The body of [if st.form_submit_button("➕ Create User", ...)]; [now] is
    the engine's CURRENT_TIMESTAMP. *)
Definition create_user (t : table) (name email_in role_in now : str)
  : table * list ui :=
  if is_empty name || is_empty email_in then
    (t, [st_error (lit "Name and email are required")])
  else
    match insert users t
            [("name", TEXT name); ("email", TEXT email_in);
             ("role", TEXT role_in)]%string now with
    | Done t' =>
        (t', [st_success (lit "✅ User '" ++ name ++ lit "' created successfully!");
              st_balloons])
    | IntegrityError => (t, [st_error (lit "❌ Email already exists!")])
    end.

(** A row of the table holds this e-mail address. *)
Definition email_exists (t : table) (email_in : str) : Prop :=
  Exists (λ r, r !! 2%nat = Some (TEXT email_in)) (rows t).

End Sqlite.

(** ** The dictionaries [users_db] a session can hold *)

(** Three places write [st.session_state.users_db]: the initialisation
    blocks of chapters 8 and 9 (whichever page is opened first) and the
    registration handler of chapter 8. *)
Inductive reachable_db : gmap str user_record → Prop :=
  | reachable_db8 : reachable_db Chapter8.initial_users_db
  | reachable_db9 : reachable_db Chapter9.initial_users_db
  | reachable_db_register s new_username new_email new_password
      confirm_password role_in now :
      reachable_db (users_db s) →
      reachable_db
        (users_db (Chapter8.register_form s new_username new_email
                     new_password confirm_password role_in now).1).

(** The credentials match an entry of the dictionary. *)
Definition credentials_match (db : gmap str user_record)
    (username password_in : str) : Prop :=
  ∃ u, db !! username = Some u ∧ hash_password password_in = password u.

Definition login_successful : ui := st_success (lit "✅ Login successful!").
Definition user_not_found : ui := st_error (lit "❌ User not found").
Definition invalid_password : ui := st_error (lit "❌ Invalid password").
Definition fill_in_all_fields : ui := st_error (lit "❌ Please fill in all fields").

(** * Properties *)

(** The literals and the hash are computed by [vm_compute] only; no proof
    below looks inside them. *)
#[global] Opaque lit chr hash_password str_of_Z.

(** ** The hash and the text functions on known values *)

Example sha256_constants :
  Sha256.K !! 0%nat = Some 0x428a2f98%N
  ∧ Sha256.K !! 63%nat = Some 0xc67178f2%N
  ∧ Sha256.H0 !! 0%nat = Some 0x6a09e667%N
  ∧ Sha256.H0 !! 7%nat = Some 0x5be0cd19%N.
Proof. vm_compute. repeat split; reflexivity. Qed.

Example sha256_admin123 :
  hash_password (lit "admin123")
  = lit "240be518fabd2724ddb6f04eeb1da5967448d7e831c08c8fa822809f74c720a9".
Proof. vm_compute. reflexivity. Qed.

Example sha256_empty :
  hash_password []
  = lit "e3b0c44298fc1c149afbf4c8996fb92427ae41e4649b934ca495991b7852b855".
Proof. vm_compute. reflexivity. Qed.

Example sha256_non_ascii :
  hash_password (lit "é€😀")
  = lit "df9226927fd572c1ee66eec85de1bb139497614899f36e4e90474cb71f6ef9d0".
Proof. vm_compute. reflexivity. Qed.

Example sha256_two_blocks :
  hash_password (replicate 56 (chr 97))
  = lit "b35439a4ac6f0948b6d6f9e3c6af0f5f590ce20f1bde7090ef7970686ec6738a".
Proof. vm_compute. reflexivity. Qed.

Example len_counts_code_points : len (lit "é€😀") = 3%Z.
Proof. vm_compute. reflexivity. Qed.

Example login8_admin :
  Chapter8.login_form initial_session8 (lit "admin") (lit "admin123")
  = ({| authenticated := true; current_user := Some (lit "admin");
        user_role := None; users_db := Chapter8.initial_users_db |},
     [st_success (lit "✅ Login successful!"); st_balloons; st_rerun]).
Proof. vm_compute. reflexivity. Qed.


(** ** Chapter 8: what the registration handler checks *)

(** The five checks of the handler, each with the message of its failure, as
    the specification lists them. *)
Definition registration_checks (db : gmap str user_record)
    (new_username new_email new_password confirm_password : str)
  : list (bool * str) :=
  [(is_empty new_username || is_empty new_password || is_empty new_email,
    lit "All fields are required");
   (bool_decide (is_Some (db !! new_username)), lit "Username already exists");
   (len new_password <? 6, lit "Password must be at least 6 characters");
   (bool_decide (new_password ≠ confirm_password), lit "Passwords don't match");
   (negb (contains_char (chr 64) new_email), lit "Invalid email format")].

Definition failed (checks : list (bool * str)) : list str :=
  (filter (λ x, x.1 = true) checks).*2.

(** All the conditions of a registration that goes through. *)
Definition registration_valid (db : gmap str user_record)
    (new_username new_email new_password confirm_password : str) : Prop :=
  new_username ≠ [] ∧ new_email ≠ [] ∧ new_password ≠ []
  ∧ db !! new_username = None
  ∧ 6 ≤ len new_password
  ∧ new_password = confirm_password
  ∧ chr 64 ∈ new_email.

Lemma register_errors_failed db u e p c :
  Chapter8.register_errors db u e p c = failed (registration_checks db u e p c).
Proof.
  unfold Chapter8.register_errors, failed, registration_checks.
  destruct (is_empty u || is_empty p || is_empty e),
    (bool_decide (is_Some (db !! u))), (len p <? 6),
    (bool_decide (p ≠ c)), (negb (contains_char (chr 64) e)); reflexivity.
Qed.

Lemma failed_nil checks : failed checks = [] ↔ Forall (λ x, x.1 = false) checks.
Proof.
  unfold failed. induction checks as [|[[] m] r IH].
  - split; [constructor | done].
  - rewrite filter_cons_True by done. split; [done | by inversion 1].
  - rewrite filter_cons_False by done. rewrite IH. split.
    + by constructor.
    + by inversion 1.
Qed.

Lemma length_failed checks :
  Z.of_nat (length (failed checks)) = count_true checks.*1.
Proof.
  unfold failed, count_true. f_equal. rewrite length_fmap.
  induction checks as [|[[] m] r IH]; [done| |].
  - rewrite fmap_cons, !filter_cons_True by done. simpl. by rewrite IH.
  - rewrite fmap_cons, !filter_cons_False by done. done.
Qed.

Lemma register_errors_nil db u e p c :
  Chapter8.register_errors db u e p c = [] ↔ registration_valid db u e p c.
Proof.
  rewrite register_errors_failed, failed_nil.
  unfold registration_checks, registration_valid.
  rewrite !Forall_cons, Forall_nil. cbn [fst].
  rewrite !orb_false_iff, !is_empty_false, bool_decide_eq_false,
    <-eq_None_not_Some, Z.ltb_ge, bool_decide_eq_false, negb_false_iff.
  unfold contains_char. rewrite bool_decide_eq_true.
  split.
  - intros (((? & ?) & ?) & ? & ? & Hpc & ? & _). split_and!; try done.
    by destruct (decide (p = c)).
  - intros (? & ? & ? & ? & ? & -> & ?). split_and!; try done. by intros [].
Qed.

Lemma reachable_db_no_empty_key db :
  reachable_db db → db !! ([] : str) = None.
Proof.
  induction 1 as [| |s u e p c r now _ IH].
  - vm_compute. reflexivity.
  - vm_compute. reflexivity.
  - unfold Chapter8.register_form.
    destruct (Chapter8.register_errors _ _ _ _ _) eqn:E; [|done].
    apply register_errors_nil in E as (Hu & _). cbn [fst users_db set_users_db].
    by rewrite lookup_insert_ne.
Qed.

(** ** Chapters 8 and 9: the login handlers *)

Ltac not_in_list :=
  let H := fresh in
  intros H;
  repeat (apply elem_of_cons in H as [H|H]; [discriminate H|]);
  by apply elem_of_nil in H.

(** The four ways the login form of chapter 8 ends. *)
Lemma login_form_cases (s : session) (u p : str) :
  ((u = [] ∨ p = []) ∧ Chapter8.login_form s u p = (s, [fill_in_all_fields]))
  ∨ (u ≠ [] ∧ p ≠ [] ∧ users_db s !! u = None
     ∧ Chapter8.login_form s u p = (s, [user_not_found]))
  ∨ (u ≠ [] ∧ p ≠ []
     ∧ (∃ r, users_db s !! u = Some r ∧ hash_password p ≠ password r)
     ∧ Chapter8.login_form s u p = (s, [invalid_password]))
  ∨ (u ≠ [] ∧ p ≠ []
     ∧ ∃ r, users_db s !! u = Some r ∧ hash_password p = password r
       ∧ Chapter8.login_form s u p
         = ({| authenticated := true; current_user := Some u;
               user_role := user_role s; users_db := users_db s |},
            [login_successful; st_balloons; st_rerun])).
Proof.
  unfold Chapter8.login_form.
  destruct (is_empty u) eqn:Eu; cbn [orb].
  { left. apply is_empty_true in Eu. auto. }
  destruct (is_empty p) eqn:Ep; cbn [orb].
  { left. apply is_empty_true in Ep. auto. }
  apply is_empty_false in Eu, Ep. right. cbv zeta.
  destruct (_ !! _) as [r|] eqn:Er.
  2: { left. split_and!; done. }
  right. case_bool_decide as Hh.
  - right. split_and!; [done..|]. by exists r.
  - left. split_and!; [done..| |done]. by exists r.
Qed.

(** The three ways the login form of chapter 9 ends. *)
Lemma rbac_login_cases (s : session) (u p : str) :
  (users_db s !! u = None ∧ Chapter9.rbac_login s u p = (s, [user_not_found]))
  ∨ ((∃ r, users_db s !! u = Some r ∧ hash_password p ≠ password r)
     ∧ Chapter9.rbac_login s u p = (s, [invalid_password]))
  ∨ (∃ r, users_db s !! u = Some r ∧ hash_password p = password r
       ∧ Chapter9.rbac_login s u p
         = ({| authenticated := true; current_user := Some u;
               user_role := Some (role r); users_db := users_db s |},
            [login_successful; st_rerun])).
Proof.
  unfold Chapter9.rbac_login.
  destruct (_ !! _) as [r|] eqn:Er; [|by left].
  right. cbv zeta. case_bool_decide as Hh.
  - right. by exists r.
  - left. split; [|done]. by exists r.
Qed.

(** C1. Login check of chapters 8 and 9: for every submitted username and
    every non-empty password, in a session whose users dictionary is one the
    pages can have built, the login succeeds exactly when the username is a
    key of [users_db] and the SHA-256 hex digest of the password (no salt,
    no nonce, no stretching: [hash_password]) equals the stored hash; a
    successful login sets [authenticated] to [True] and [current_user] to
    the username, and chapter 9 also sets [user_role] to the stored role. *)
Theorem login_succeeds_iff_credentials_match
    (s : session) (username password_in : str) :
  reachable_db (users_db s) →
  password_in ≠ [] →
  let r8 := Chapter8.login_form s username password_in in
  let r9 := Chapter9.rbac_login s username password_in in
  (login_successful ∈ r8.2
     ↔ credentials_match (users_db s) username password_in)
  ∧ (login_successful ∈ r9.2
     ↔ credentials_match (users_db s) username password_in)
  ∧ (∀ u, users_db s !! username = Some u →
          hash_password password_in = password u →
          r8.1 = {| authenticated := true; current_user := Some username;
                    user_role := user_role s; users_db := users_db s |}
          ∧ r9.1 = {| authenticated := true; current_user := Some username;
                      user_role := Some (role u); users_db := users_db s |}).
Proof.
  intros Hdb Hp r8 r9. subst r8 r9. unfold credentials_match.
  pose proof (reachable_db_no_empty_key _ Hdb) as Hempty.
  destruct (rbac_login_cases s username password_in)
    as [[Hn' E9]|[[(r'&Hr'&Hh') E9]|(r'&Hr'&Hh'&E9)]];
  (destruct (login_form_cases s username password_in)
    as [[[Hu|Hu] E8]|[(Hu&_&Hn&E8)|[(Hu&_&(r&Hr&Hh)&E8)|(Hu&_&r&Hr&Hh&E8)]]]);
  rewrite E8, E9; cbn [fst snd]; simplify_eq;
  unfold login_successful, fill_in_all_fields, user_not_found, invalid_password.
  all: try congruence.
  all: split_and!.
  all: try (split; [not_in_list|]); try (intros (?&?&?); by simplify_eq).
  all: try (intros ? ? ?; by simplify_eq).
  all: split; [intros _; by eexists | intros _; apply list_elem_of_here].
Qed.

(** The administrator of the initial dictionary of chapter 8 logging in. *)
Lemma login_succeeds_iff_credentials_match_witness :
  reachable_db (users_db initial_session8)
  ∧ lit "admin123" ≠ []
  ∧ (login_successful
       ∈ (Chapter8.login_form initial_session8 (lit "admin") (lit "admin123")).2
     ↔ credentials_match (users_db initial_session8) (lit "admin")
         (lit "admin123")).
Proof.
  assert (H1 : reachable_db (users_db initial_session8)) by constructor.
  assert (H2 : lit "admin123" ≠ []) by (vm_compute; discriminate).
  split_and!; [done..|].
  exact (proj1 (login_succeeds_iff_credentials_match initial_session8
                  (lit "admin") (lit "admin123") H1 H2)).
Defined.

(** C3, as stated, fails in chapter 8: a login attempt with an empty
    password does not authenticate and shows neither "User not found" nor
    "Invalid password", but "Please fill in all fields". *)
Lemma failed_login_with_empty_password :
  let r := Chapter8.login_form initial_session8 (lit "admin") [] in
  (login_successful ∉ r.2)
  ∧ r.2 ≠ [user_not_found]
  ∧ r.2 ≠ [invalid_password]
  ∧ r.2 = [fill_in_all_fields].
Proof.
  assert (E : Chapter8.login_form initial_session8 (lit "admin") []
              = (initial_session8, [fill_in_all_fields])).
  { destruct (login_form_cases initial_session8 (lit "admin") [])
      as [[_ E]|[(_&H&_)|[(_&H&_)|(_&H&_)]]]; done. }
  cbv zeta. rewrite E. cbn [snd].
  split_and!; [| | |done].
  - unfold login_successful, fill_in_all_fields. not_in_list.
  - intros H. vm_compute in H. discriminate H.
  - intros H. vm_compute in H. discriminate H.
Qed.

(** C3, amended. A login attempt that does not authenticate leaves the
    session as it was ([authenticated], [current_user], [user_role] and
    [users_db] alike) and shows exactly one message: "User not found" when
    the username is no key of [users_db], "Invalid password" when it is one
    and the hashes differ, and, in chapter 8 only, "Please fill in all
    fields" when the username or the password is empty, which is checked
    before the dictionary is looked at. *)
Theorem failed_login_leaves_session_unchanged
    (s : session) (username password_in : str) :
  let r8 := Chapter8.login_form s username password_in in
  let r9 := Chapter9.rbac_login s username password_in in
  (login_successful ∉ r8.2 →
     r8.1 = s
     ∧ (((username = [] ∨ password_in = []) ∧ r8.2 = [fill_in_all_fields])
        ∨ (username ≠ [] ∧ password_in ≠ []
           ∧ users_db s !! username = None ∧ r8.2 = [user_not_found])
        ∨ (username ≠ [] ∧ password_in ≠ []
           ∧ (∃ u, users_db s !! username = Some u
                   ∧ hash_password password_in ≠ password u)
           ∧ r8.2 = [invalid_password])))
  ∧ (login_successful ∉ r9.2 →
     r9.1 = s
     ∧ ((users_db s !! username = None ∧ r9.2 = [user_not_found])
        ∨ ((∃ u, users_db s !! username = Some u
                 ∧ hash_password password_in ≠ password u)
           ∧ r9.2 = [invalid_password]))).
Proof.
  cbv zeta. split.
  - destruct (login_form_cases s username password_in)
      as [[H E]|[(Hu&Hp&Hn&E)|[(Hu&Hp&H&E)|(Hu&Hp&r&Hr&Hh&E)]]];
      rewrite E; cbn [fst snd]; intros Hfail.
    + split; [done|]. by left.
    + split; [done|]. right; left. done.
    + split; [done|]. right; right. done.
    + destruct Hfail. apply list_elem_of_here.
  - destruct (rbac_login_cases s username password_in)
      as [[Hn E]|[[H E]|(r&Hr&Hh&E)]];
      rewrite E; cbn [fst snd]; intros Hfail.
    + split; [done|]. by left.
    + split; [done|]. by right.
    + destruct Hfail. apply list_elem_of_here.
Qed.
(** ** Chapter 8: registration *)

(** The entry the registration handler stores. *)
Definition new_account (new_email new_password role_in now : str) : user_record :=
  {| password := hash_password new_password; role := role_in;
     email := new_email; created := Some now; permissions := None |}.

Definition account_created (new_username : str) : ui :=
  st_success
    (lit "✅ Account created successfully! You can now login with username: "
       ++ new_username).

(** C6. Registration validation of chapter 8: for every submission, a new
    account is created exactly when the username, the e-mail address and the
    password are non-empty, the username is no key of [users_db], the
    password has at least 6 characters and equals its confirmation, and the
    e-mail address contains '@'.  Then exactly one entry is added, under the
    username, whose stored password is the SHA-256 hex digest of the
    submitted one, and every other entry is as it was.  Otherwise the
    session is unchanged and one error message is shown per failed check. *)
Theorem registration_creates_account_iff_valid
    (s : session)
    (new_username new_email new_password confirm_password role_in now : str) :
  let res := Chapter8.register_form s new_username new_email new_password
               confirm_password role_in now in
  let db := users_db s in
  let db' := users_db res.1 in
  let valid := registration_valid db new_username new_email new_password
                 confirm_password in
  let checks := registration_checks db new_username new_email new_password
                  confirm_password in
  (db' ≠ db ↔ valid)
  ∧ (account_created new_username ∈ res.2 ↔ valid)
  ∧ (valid →
       db !! new_username = None
       ∧ db' !! new_username
         = Some (new_account new_email new_password role_in now)
       ∧ password (new_account new_email new_password role_in now)
         = hash_password new_password
       ∧ (∀ k, k ≠ new_username → db' !! k = db !! k)
       ∧ size db' = S (size db)
       ∧ authenticated res.1 = authenticated s
       ∧ current_user res.1 = current_user s
       ∧ user_role res.1 = user_role s
       ∧ res.2 = [account_created new_username; st_balloons])
  ∧ (¬ valid →
       res.1 = s
       ∧ res.2 = (λ error, st_error (lit "❌ " ++ error)) <$> failed checks
       ∧ Z.of_nat (length res.2) = count_true checks.*1
       ∧ (0 < length res.2)%nat).
Proof.
  cbv zeta. unfold Chapter8.register_form.
  pose proof (register_errors_nil (users_db s) new_username new_email
                new_password confirm_password) as Hnil.
  pose proof (register_errors_failed (users_db s) new_username new_email
                new_password confirm_password) as Hfailed.
  destruct (Chapter8.register_errors _ _ _ _ _) as [|m ms] eqn:E;
    cbn [fst snd users_db set_users_db authenticated current_user user_role].
  - assert (Hv := proj1 Hnil eq_refl).
    pose proof Hv as (_ & _ & _ & Hfresh & _).
    split_and!.
    + split; [done|]. intros _ Heq.
      apply (f_equal (λ m, m !! new_username)) in Heq.
      by rewrite lookup_insert_eq, Hfresh in Heq.
    + split; [done|]. intros _. apply list_elem_of_here.
    + intros _. split_and!; try done.
      * by rewrite lookup_insert_eq.
      * intros k Hk. by rewrite lookup_insert_ne.
      * by rewrite map_size_insert_None.
    + intros Hn. by destruct Hn.
  - assert (Hv : ¬ registration_valid (users_db s) new_username new_email
                   new_password confirm_password).
    { intros Hv. by apply Hnil in Hv. }
    split_and!.
    + split; [done|]. intros Hv'. by destruct Hv.
    + split; [|intros Hv'; by destruct Hv].
      intros Hin. apply list_elem_of_fmap in Hin as (x & Hx & _).
      discriminate Hx.
    + intros Hv'. by destruct Hv.
    + intros _. split_and!; [done|by rewrite <-Hfailed| |].
      * rewrite <-length_failed, <-Hfailed, length_fmap. done.
      * rewrite length_fmap. simpl. lia.
Qed.
(** ** Chapter 9: permission and page-access tests *)

Lemma py_in_spec (x : option str) (l : list str) :
  Rbac.py_in x l = true ↔ ∃ r, x = Some r ∧ r ∈ l.
Proof.
  destruct x as [r|]; simpl.
  - rewrite bool_decide_eq_true. split; [by exists r | by intros (? & [= ->] & ?)].
  - split; [done | by intros (? & ? & ?)].
Qed.

Lemma overview_never_stops (s : session) : st_stop ∉ Rbac.permission_overview s.
Proof.
  unfold Rbac.permission_overview. cbv zeta.
  rewrite !elem_of_app, !list_elem_of_fmap.
  intros [H|[(x & H & _)|[H|[(x & H & _)|H]]]];
    try discriminate H; revert H; not_in_list.
Qed.

(** C2. Access checks of chapter 9 are pure membership tests.  For a logged-in
    session the tab draws both tests; the permission test grants exactly
    when the tested permission is in the list [ROLE_PERMISSIONS] holds for
    the role (the empty list for a role it does not hold, or for no role);
    the page test grants a page exactly when the role is in the list
    [PAGE_ACCESS] holds for the page; and two sessions with the same role
    get the same answers, whatever else they hold. *)
Theorem access_checks_are_membership_tests
    (s : session) (test_perm : str) :
  authenticated s = true →
  (∃ before between,
     Rbac.tab3 s test_perm true
     = before ++ Rbac.test_permission s test_perm ++ between
         ++ Rbac.page_access_test s
     ∧ (st_stop ∉ before) ∧ (st_stop ∉ between))
  ∧ Rbac.user_permissions s
    = match user_role s with
      | Some r => default [] (Rbac.assoc Rbac.ROLE_PERMISSIONS r)
      | None => []
      end
  ∧ (Rbac.test_permission s test_perm
       = [Rbac.granted_message test_perm; st_balloons]
     ↔ test_perm ∈ Rbac.user_permissions s)
  ∧ (Rbac.denied_message test_perm ∈ Rbac.test_permission s test_perm
     ↔ test_perm ∉ Rbac.user_permissions s)
  ∧ (∀ page allowed_roles,
       (page, allowed_roles) ∈ Rbac.PAGE_ACCESS →
       (st_success (lit "✓ Access") ∈ Rbac.page_access_row s (page, allowed_roles)
          ↔ ∃ r, user_role s = Some r ∧ r ∈ allowed_roles)
       ∧ (st_error (lit "✗ Denied") ∈ Rbac.page_access_row s (page, allowed_roles)
          ↔ ¬ ∃ r, user_role s = Some r ∧ r ∈ allowed_roles)
       ∧ ∀ row, row ∈ Rbac.page_access_row s (page, allowed_roles) →
                row ∈ Rbac.page_access_test s)
  ∧ (∀ s', user_role s' = user_role s →
           Rbac.test_permission s' test_perm = Rbac.test_permission s test_perm
           ∧ Rbac.page_access_test s' = Rbac.page_access_test s).
Proof.
  intros Hauth. split_and!.
  - unfold Rbac.tab3. rewrite Hauth. cbn [negb].
    exists (st_header (lit "🎯 Permission Testing Ground")
            :: [st_success (lit "Testing as: **" ++ Rbac.fmt (current_user s)
                              ++ lit "** (" ++ Rbac.fmt (user_role s) ++ lit ")");
                st_markdown (lit "---");
                st_subheader (lit "🧪 Test Your Permissions")]
            ++ Rbac.permission_overview s
            ++ [st_markdown (lit "---");
                st_subheader (lit "🔍 Test Specific Permission")]),
      [st_markdown (lit "---"); st_subheader (lit "🚪 Page Access Test")].
    split_and!.
    + cbn [app]. rewrite <-!app_assoc. reflexivity.
    + intros H. apply elem_of_cons in H as [H|H]; [discriminate H|].
      rewrite !elem_of_app in H. destruct H as [H|[H|H]].
      * revert H. not_in_list.
      * by apply overview_never_stops in H.
      * revert H. not_in_list.
    + not_in_list.
  - reflexivity.
  - unfold Rbac.test_permission. case_bool_decide; [done|].
    split; [discriminate | done].
  - unfold Rbac.test_permission. case_bool_decide as Hin.
    + split; [|done]. unfold Rbac.denied_message, Rbac.granted_message.
      not_in_list.
    + split; [done|]. intros _. apply list_elem_of_here.
  - intros page allowed_roles Hin. split_and!.
    + unfold Rbac.page_access_row. rewrite <-py_in_spec.
      destruct (Rbac.py_in _ _); split.
      * done.
      * intros _. do 2 apply list_elem_of_further. apply list_elem_of_here.
      * intros H. exfalso. revert H. not_in_list.
      * discriminate.
    + unfold Rbac.page_access_row. rewrite <-py_in_spec.
      destruct (Rbac.py_in _ _); split.
      * intros H. exfalso. revert H. not_in_list.
      * intros H. by destruct H.
      * discriminate.
      * intros _. do 2 apply list_elem_of_further. apply list_elem_of_here.
    + intros row Hrow. unfold Rbac.page_access_test.
      apply list_elem_of_bind. by exists (page, allowed_roles).
  - intros s' Hrole.
    unfold Rbac.test_permission, Rbac.page_access_test, Rbac.user_permissions,
      Rbac.page_access_row.
    by rewrite Hrole.
Qed.

(** An administrator of chapter 9, logged in, testing the permission
    "delete". *)
Lemma access_checks_are_membership_tests_witness :
  let s := (Chapter9.rbac_login initial_session9 (lit "admin") (lit "admin123")).1 in
  authenticated s = true
  ∧ (Rbac.test_permission s (lit "delete")
       = [Rbac.granted_message (lit "delete"); st_balloons]
     ↔ lit "delete" ∈ Rbac.user_permissions s).
Proof.
  cbv zeta.
  assert (H : authenticated
                (Chapter9.rbac_login initial_session9 (lit "admin")
                   (lit "admin123")).1 = true)
    by (vm_compute; reflexivity).
  split; [exact H|].
  exact (proj1 (proj2 (proj2
    (access_checks_are_membership_tests _ (lit "delete") H)))).
Defined.
(** ** Chapter 8: the quiz *)

Lemma count_true_bounds (l : list bool) : 0 ≤ count_true l ≤ Z.of_nat (length l).
Proof.
  unfold count_true. split; [lia|].
  apply inj_le, length_filter.
Qed.


Example quiz_all_correct :
  Quiz8.check_answers (lit "To prevent storing plain text passwords")
    (lit "st.session_state") (lit "st.stop()") true (lit "bcrypt")
  = [st_markdown (lit "---"); st_write (lit "### 🎯 Score: 5/5");
     st_write (lit "✅ Q1: Correct! Never store plain text passwords");
     st_write (lit "✅ Q2: Correct!"); st_write (lit "✅ Q3: Correct!");
     st_write (lit "✅ Q4: Correct! Session state is shared");
     st_write (lit "✅ Q5: Correct! bcrypt is production-ready");
     st_success (lit "🎉 Excellent! You understand authentication!");
     st_balloons].
Proof. vm_compute. reflexivity. Qed.
(** ** Chapter 10: password strength *)

Lemma re_search_class_Exists (class : char → bool) (s : str) :
  Chapter10.re_search_class class s
  = bool_decide (Exists (λ c, class c = true) s).
Proof.
  unfold Chapter10.re_search_class. induction s as [|c s IH]; cbn [existsb].
  - symmetry. apply bool_decide_eq_false_2. by inversion 1.
  - rewrite IH. destruct (class c) eqn:Ec; cbn [orb].
    + symmetry. apply bool_decide_eq_true_2. by left.
    + apply bool_decide_ext. split; [by right|].
      inversion 1; subst; [congruence|done].
Qed.

Lemma re_search_special (s : str) :
  Chapter10.re_search_class Chapter10.is_special s
  = bool_decide (Exists (λ c, c ∈ Chapter10.special_characters) s).
Proof.
  rewrite re_search_class_Exists. apply bool_decide_ext.
  unfold Chapter10.is_special.
  rewrite !Exists_exists.
  split; intros (c & Hc & H); exists c; split; try done;
    by apply bool_decide_eq_true in H || apply bool_decide_eq_true.
Qed.

Lemma leb_bool_decide (a b : Z) : (a <=? b) = bool_decide (a ≤ b).
Proof.
  destruct (Z.leb_spec a b); symmetry;
    [apply bool_decide_eq_true_2 | apply bool_decide_eq_false_2]; lia.
Qed.

(** C10. Password strength of chapter 10: for every non-empty password the
    score is the number of the five criteria it meets (at least 8
    characters, a letter A-Z, a letter a-z, a decimal digit, one of the
    listed special characters), so it lies between 0 and 5, and the verdict
    shown is "Weak" exactly for a score of at most 2, "Medium" exactly for
    3 and "Strong" exactly for at least 4. *)
Theorem password_strength_counts_criteria
    (unicode_decimal : char → bool) (password_input : str) :
  password_input ≠ [] →
  let strength := (Chapter10.strength_of unicode_decimal password_input).1 in
  let shown := Chapter10.password_validation unicode_decimal password_input in
  strength = count_true (Chapter10.criteria unicode_decimal password_input)
  ∧ 0 ≤ strength ≤ 5
  ∧ (head shown = Some (Chapter10.weak strength) ↔ strength ≤ 2)
  ∧ (head shown = Some (Chapter10.medium strength) ↔ strength = 3)
  ∧ (head shown = Some (Chapter10.strong strength) ↔ 4 ≤ strength).
Proof.
  intros Hne. cbv zeta.
  assert (Hscore : (Chapter10.strength_of unicode_decimal password_input).1
            = count_true (Chapter10.criteria unicode_decimal password_input)).
  { unfold Chapter10.strength_of, Chapter10.criteria.
    rewrite re_search_special, !re_search_class_Exists, leb_bool_decide.
    destruct (bool_decide (8 ≤ _)), (bool_decide (Exists _ _)),
      (bool_decide (Exists _ _)), (bool_decide (Exists _ _)),
      (bool_decide (Exists _ _)); reflexivity. }
  pose proof (count_true_bounds
                (Chapter10.criteria unicode_decimal password_input)) as Hb.
  change (Z.of_nat (length (Chapter10.criteria unicode_decimal password_input)))
    with 5 in Hb.
  unfold Chapter10.password_validation.
  apply is_empty_false in Hne. rewrite Hne.
  destruct (Chapter10.strength_of unicode_decimal password_input)
    as [strength feedback].
  cbn [fst] in *. subst strength. cbn [head].
  split_and!; [done|lia|lia|..].
  - destruct (Z.leb_spec (count_true (Chapter10.criteria unicode_decimal
                                        password_input)) 2);
      [done|]. split; [|lia].
    destruct (_ <=? 3); discriminate.
  - destruct (Z.leb_spec (count_true (Chapter10.criteria unicode_decimal
                                        password_input)) 2).
    { split; [discriminate|lia]. }
    destruct (Z.leb_spec (count_true (Chapter10.criteria unicode_decimal
                                        password_input)) 3).
    { split; [lia|done]. }
    split; [discriminate|lia].
  - destruct (Z.leb_spec (count_true (Chapter10.criteria unicode_decimal
                                        password_input)) 2).
    { split; [discriminate|lia]. }
    destruct (Z.leb_spec (count_true (Chapter10.criteria unicode_decimal
                                        password_input)) 3).
    { split; [discriminate|lia]. }
    split; [lia|done].
Qed.

(** The ASCII digits, for a concrete run. *)
Definition is_ascii_digit (c : char) : bool := (48 <=? ord c)%N && (ord c <=? 57)%N.

Lemma password_strength_counts_criteria_witness :
  lit "Abcdef1!" ≠ []
  ∧ (Chapter10.strength_of is_ascii_digit (lit "Abcdef1!")).1
    = count_true (Chapter10.criteria is_ascii_digit (lit "Abcdef1!")).
Proof.
  assert (H : lit "Abcdef1!" ≠ []) by (vm_compute; discriminate).
  split; [exact H|].
  exact (proj1 (password_strength_counts_criteria is_ascii_digit
                  (lit "Abcdef1!") H)).
Defined.

Example strong_password :
  Chapter10.password_validation is_ascii_digit (lit "Abcdef1!")
  = [st_success (lit "🟢 Strong Password (Score: 5/5)");
     st_write (lit "✅ Length OK (8+ characters)");
     st_write (lit "✅ Has uppercase letter");
     st_write (lit "✅ Has lowercase letter");
     st_write (lit "✅ Has number");
     st_write (lit "✅ Has special character")].
Proof. vm_compute. reflexivity. Qed.
(** ** Chapter 10: the form wizard *)

Section WizardProperties.

Import Wizard.

(** What one interaction does, button by button. *)
Lemma tab4_inv (w w' : state) (e : event) (out : list ui) :
  tab4 w e = Some (w', out) →
  match e with
  | OtherTabSubmission record =>
      w' = {| form_step := form_step w; form_data := form_data w;
              submitted_forms := submitted_forms w ++ [record] |}
  | UserForm name email_in age =>
      form_step w' = form_step w
      ∧ submitted_forms w' = submitted_forms w
      ∧ ((user_form_errors name email_in = []
          ∧ form_data w' = user_form_fields name email_in age)
         ∨ (user_form_errors name email_in ≠ [] ∧ w' = w))
  | Step4Submit now =>
      form_step w = 4
      ∧ w' = {| form_step := 1; form_data := ∅;
                submitted_forms :=
                  submitted_forms w
                  ++ [{| sub_type := lit "multi-step-application";
                         sub_fields := ∅; sub_data := Some (form_data w);
                         sub_timestamp := now |}] |}
  | Step2Back | Step3Back | Step4Back =>
      2 ≤ form_step w ≤ 4
      ∧ w' = {| form_step := form_step w - 1; form_data := form_data w;
                submitted_forms := submitted_forms w |}
  | _ =>
      1 ≤ form_step w ≤ 3
      ∧ ((errors_of e = []
          ∧ w' = {| form_step := form_step w + 1;
                    form_data := update (form_data w) (fields_of e);
                    submitted_forms := submitted_forms w |}
          ∧ out = [st_rerun])
         ∨ (errors_of e ≠ [] ∧ w' = w ∧ out = show_errors (errors_of e)))
  end.
Proof.
  unfold tab4, next_step, go_to.
  destruct e as [? ? ? ? ?| |? ? ? ? ?| |? ? ? ? ?| |?|?|name email_in age];
    cbn [errors_of fields_of].
  9:{ destruct (_ && _); [|discriminate]. unfold user_form. cbv zeta.
      destruct (user_form_errors name email_in) eqn:E; intros [= <- <-];
        cbn [form_step submitted_forms form_data]; auto. }
  all: repeat (match goal with |- context [?a =? ?b] =>
                 destruct (Z.eqb_spec a b) as [Hs|?] end);
    try discriminate.
  all: try (intros [= <- <-]; split; [lia|by rewrite Hs]).
  all: try (intros [= <- <-]; done).
  all: match goal with
       | |- Some (match ?errs with _ => _ end) = _ → _ => destruct errs eqn:E
       end;
       intros [= <- <-]; (split; [lia|]);
       [left; by rewrite Hs | right; done].
Qed.

Lemma tab4_keeps_step_in_range (w w' : state) (e : event) (out : list ui) :
  1 ≤ form_step w ≤ 4 → tab4 w e = Some (w', out) → 1 ≤ form_step w' ≤ 4.
Proof.
  intros Hr H. apply tab4_inv in H. destruct e.
  1, 3, 5: destruct H as [? [(_ & -> & _)|(_ & -> & _)]]; cbn [form_step]; lia.
  1, 2, 3, 4: destruct H as [? ->]; cbn [form_step]; lia.
  - subst w'. cbn [form_step]. lia.
  - destruct H as [-> _]. lia.
Qed.

(** A button of the wizard is drawn at its step and at no other. *)
Lemma tab4_offered (w : state) (e : event) (k : Z) :
  button_step e = Some k → is_Some (tab4 w e) ↔ form_step w = k.
Proof.
  intros Hk. rewrite is_Some_alt. unfold tab4.
  destruct e; cbn [button_step] in Hk; try discriminate Hk;
    injection Hk as <-;
    repeat (match goal with |- context [?a =? ?b] =>
              destruct (Z.eqb_spec a b) as [Hs|?] end);
    (split; [intros Hx; first [lia|by destruct Hx]
            |intros Hw; first [exact I|lia]]).
Qed.

(** Inputs that pass the checks of the three steps, and the sessions they
    lead to. *)
Definition valid_step1 : event :=
  Step1Next (lit "Ann") (lit "ann@example.com") (lit "Lee")
    (lit "+1234567890") {| year := 1990; month := 1; day := 1 |}.

Definition valid_step2 : event :=
  Step2Next (lit "1 Main St") (lit "Springfield") (lit "IL") (lit "62701")
    (lit "USA").

Definition valid_step3 : event :=
  Step3Next (lit "annlee") (lit "s3cretpass") (lit "s3cretpass")
    (lit "What is your pet's name?") (lit "Rex").

Definition after (w : state) (e : event) : state :=
  default w (fst <$> tab4 w e).

Lemma reachable_after (w : state) (e : event) :
  is_Some (tab4 w e) → reachable w → reachable (after w e).
Proof.
  intros [[w' out] H] Hr. unfold after. rewrite H.
  by eapply reachable_step.
Qed.

Definition at_step2 : state := after initial valid_step1.
Definition at_step3 : state := after at_step2 valid_step2.
Definition at_step4 : state := after at_step3 valid_step3.

Lemma at_step4_reachable :
  reachable at_step2 ∧ reachable at_step3 ∧ reachable at_step4.
Proof.
  assert (reachable at_step2) as H2.
  { apply (reachable_after initial valid_step1); [|apply reachable_initial].
    apply is_Some_alt. vm_compute. exact I. }
  assert (reachable at_step3) as H3.
  { apply (reachable_after at_step2 valid_step2); [|exact H2].
    apply is_Some_alt. vm_compute. exact I. }
  split_and!; [done..|].
  apply (reachable_after at_step3 valid_step3); [|exact H3].
  apply is_Some_alt. vm_compute. exact I.
Qed.

Lemma every_step_is_reached (k : Z) :
  1 ≤ k ≤ 4 → ∃ w, reachable w ∧ form_step w = k.
Proof.
  intros Hk. destruct at_step4_reachable as (H2 & H3 & H4).
  assert (k = 1 ∨ k = 2 ∨ k = 3 ∨ k = 4) as [->|[->|[->| ->]]] by lia.
  - exists initial. split; [apply reachable_initial|reflexivity].
  - exists at_step2. split; [exact H2|by vm_compute].
  - exists at_step3. split; [exact H3|by vm_compute].
  - exists at_step4. split; [exact H4|by vm_compute].
Qed.

(** C9. The wizard of chapter 10 as a state machine: [form_step] starts at 1
    and is one of 1, 2, 3, 4 in every state a session reaches, and each of
    the four is reached; a button of the wizard can be pressed exactly at
    its step; a "Next" button adds exactly 1 to [form_step], and only when
    the checks of its step all pass, merging the fields of the step into
    [form_data], and otherwise changes nothing; a "Back" button takes
    exactly 1 from it; and the final submission appends one record to
    [submitted_forms], sets [form_step] to 1 and empties [form_data]. *)
Theorem wizard_is_a_four_step_machine :
  form_step initial = 1
  ∧ (∀ w, reachable w → 1 ≤ form_step w ≤ 4)
  ∧ (∀ k, 1 ≤ k ≤ 4 → ∃ w, reachable w ∧ form_step w = k)
  ∧ (∀ w e k, button_step e = Some k →
       (is_Some (tab4 w e) ↔ form_step w = k))
  ∧ (∀ w e w' out, tab4 w e = Some (w', out) → is_next e = true →
       (errors_of e = []
        ∧ form_step w' = form_step w + 1
        ∧ form_data w' = update (form_data w) (fields_of e)
        ∧ submitted_forms w' = submitted_forms w)
       ∨ (errors_of e ≠ [] ∧ w' = w))
  ∧ (∀ w e w' out, tab4 w e = Some (w', out) → is_back e = true →
       form_step w' = form_step w - 1
       ∧ form_data w' = form_data w
       ∧ submitted_forms w' = submitted_forms w)
  ∧ (∀ w now w' out, tab4 w (Step4Submit now) = Some (w', out) →
       form_step w' = 1
       ∧ form_data w' = ∅
       ∧ submitted_forms w'
         = submitted_forms w
           ++ [{| sub_type := lit "multi-step-application"; sub_fields := ∅;
                  sub_data := Some (form_data w); sub_timestamp := now |}]).
Proof.
  split_and!.
  - reflexivity.
  - induction 1 as [|w e w' out _ IH Hstep]; [done|].
    by eapply tab4_keeps_step_in_range.
  - apply every_step_is_reached.
  - apply tab4_offered.
  - intros w e w' out H He. apply tab4_inv in H.
    destruct e; try discriminate He;
      destruct H as [_ [(? & -> & _)|(? & -> & _)]]; auto.
  - intros w e w' out H He. apply tab4_inv in H.
    destruct e; try discriminate He; by destruct H as [_ ->].
  - intros w now w' out H. apply tab4_inv in H. by destruct H as [_ ->].
Qed.

End WizardProperties.
(** ** The session store: last write wins *)

(** C7. Last write wins in the shared session store: a key written twice
    reads as the second value, a write to one key leaves every other key as
    it was, and the updates the pages make are such writes: the refresh
    counter of chapter 13 goes from [n] to [n + 1], the cart of chapter 4
    gets the new item at its end, and a flag set reads as set, each leaving
    all other keys unchanged. *)
Theorem session_store_last_write_wins :
  (∀ (st : session_state) k v1 v2,
     read k (write k v2 (write k v1 st)) = Some v2)
  ∧ (∀ (st : session_state) k k' v, k ≠ k' → read k' (write k v st) = read k' st)
  ∧ (∀ (st : session_state) n,
       read "refresh_count" st = Some (PInt n) →
       ∃ st', Chapter13.refresh_data st = Some (st', [st_rerun])
              ∧ read "refresh_count" st' = Some (PInt (n + 1))
              ∧ ∀ k, k ≠ "refresh_count" → read k st' = read k st)
  ∧ (∀ (st : session_state) cart prod price,
       read "cart" st = Some (PList cart) →
       ∃ st', Chapter4.add_to_cart prod price st = Some st'
              ∧ read "cart" st'
                = Some (PList (cart ++ [PDict [("product", PStr prod);
                                               ("price", PInt price)]%string]))
              ∧ ∀ k, k ≠ "cart" → read k st' = read k st)
  ∧ (∀ (st : session_state) k (flag : bool),
       read k (write k (PBool flag) st) = Some (PBool flag)).
Proof.
  unfold read, write. split_and!.
  - intros. apply lookup_insert_eq.
  - intros. by apply lookup_insert_ne.
  - intros st n Hn. unfold Chapter13.refresh_data, read, write.
    rewrite Hn. cbn [as_int mbind option_bind].
    eexists. split_and!; [done|apply lookup_insert_eq|].
    intros k Hk. by apply lookup_insert_ne.
  - intros st cart prod price Hc. unfold Chapter4.add_to_cart, read, write.
    rewrite Hc. eexists. split_and!; [done|apply lookup_insert_eq|].
    intros k Hk. by apply lookup_insert_ne.
  - intros. apply lookup_insert_eq.
Qed.

(** ** Chapter 13: the progress counter *)

(** The value of ['progress'] is an integer from 0 to 100. *)
Definition progress_in_range (st : session_state) : Prop :=
  ∃ p, read "progress" st = Some (PInt p) ∧ 0 ≤ p ≤ 100.

Lemma progress_init_value (st : session_state) (p : Z) :
  read "progress" st = Some (PInt p) → Chapter13.progress_init st = st.
Proof. intros H. unfold Chapter13.progress_init, init_key. by rewrite H. Qed.

Lemma progress_click_value (b : Chapter13.progress_button)
    (st : session_state) (p : Z) :
  read "progress" st = Some (PInt p) →
  Chapter13.progress_click b st
  = Some (write "progress"
            (PInt match b with
                  | Chapter13.Add10 => Z.min 100 (p + 10)
                  | Chapter13.Subtract10 => Z.max 0 (p - 10)
                  | Chapter13.Reset => 0
                  end) st, [st_rerun]).
Proof.
  intros H. unfold Chapter13.progress_click. rewrite H.
  by destruct b.
Qed.

Lemma interact_keeps_range (i : Chapter13.interaction) (st : session_state) :
  progress_in_range st →
  (∀ k v, i = Chapter13.OtherWrite k v → k ≠ "progress") →
  ∃ st', Chapter13.interact i st = Some st' ∧ progress_in_range st'.
Proof.
  intros (p & Hp & Hr) Hother. destruct i as [b|k v]; unfold Chapter13.interact.
  - rewrite (progress_init_value _ _ Hp), (progress_click_value _ _ _ Hp).
    eexists. split; [done|]. eexists. split.
    + unfold read, write. cbn [fst]. apply lookup_insert_eq.
    + destruct b; lia.
  - specialize (Hother k v eq_refl). rewrite bool_decide_eq_false_2 by done.
    eexists. split; [done|]. exists p. split; [|done].
    unfold read, write. by rewrite lookup_insert_ne.
Qed.

(** C8. Progress counter of chapter 13: starting from a session that has no
    ['progress'] yet, whatever buttons are clicked and whatever other keys
    are written in between, no handler raises and the value stays an integer
    in [0, 100]; "Add 10%" sets it to [min(100, progress + 10)], "Subtract
    10%" to [max(0, progress - 10)] and "Reset" to 0. *)
Theorem progress_stays_in_range
    (st0 : session_state) (trace : list Chapter13.interaction) :
  read "progress" st0 = None →
  Forall (λ i, ∀ k v, i = Chapter13.OtherWrite k v → k ≠ "progress") trace →
  read "progress" (Chapter13.progress_init st0) = Some (PInt 0)
  ∧ (∃ st, Chapter13.run trace (Chapter13.progress_init st0) = Some st
           ∧ progress_in_range st)
  ∧ (∀ st p b, read "progress" st = Some (PInt p) → 0 ≤ p ≤ 100 →
       ∃ st' p', Chapter13.interact (Chapter13.Click b) st = Some st'
                 ∧ read "progress" st' = Some (PInt p')
                 ∧ 0 ≤ p' ≤ 100
                 ∧ p' = match b with
                        | Chapter13.Add10 => Z.min 100 (p + 10)
                        | Chapter13.Subtract10 => Z.max 0 (p - 10)
                        | Chapter13.Reset => 0
                        end).
Proof.
  intros Hnone Htrace.
  assert (H0 : read "progress" (Chapter13.progress_init st0) = Some (PInt 0)).
  { unfold Chapter13.progress_init, init_key. rewrite Hnone.
    unfold read, write. apply lookup_insert_eq. }
  split_and!; [done| |].
  - assert (Hr : progress_in_range (Chapter13.progress_init st0))
      by (exists 0; split; [done|lia]).
    revert Hr. generalize (Chapter13.progress_init st0).
    induction Htrace as [|i trace Hi _ IH]; intros st Hr.
    + by exists st.
    + destruct (interact_keeps_range i st Hr Hi) as (st' & E & Hr').
      cbn [Chapter13.run]. rewrite E. cbn [mbind option_bind].
      by apply IH.
  - intros st p b Hp Hr. unfold Chapter13.interact.
    rewrite (progress_init_value _ _ Hp), (progress_click_value _ _ _ Hp).
    eexists _, _. split; [done|]. split.
    { unfold read, write. cbn [fst]. apply lookup_insert_eq. }
    split; [destruct b; lia|done].
Qed.

Lemma progress_stays_in_range_witness :
  read "progress" (∅ : session_state) = None
  ∧ ∃ st, Chapter13.run
            [Chapter13.Click Chapter13.Subtract10;
             Chapter13.OtherWrite "refresh_count" (PInt 3);
             Chapter13.Click Chapter13.Add10]
            (Chapter13.progress_init ∅) = Some st
          ∧ progress_in_range st.
Proof.
  assert (H1 : read "progress" (∅ : session_state) = None) by reflexivity.
  split; [exact H1|].
  refine (proj1 (proj2 (progress_stays_in_range ∅ _ H1 _))).
  repeat constructor; intros k v [= <- _]; discriminate.
Defined.
(** ** Chapter 13: the SQLite demo table *)

Section SqliteProperties.

Import Sqlite.

Lemma users_affinities :
  (λ c, affinity_of (col_type c)) <$> users
  = [INTEGER_AFFINITY; TEXT_AFFINITY; TEXT_AFFINITY; TEXT_AFFINITY;
     NUMERIC_AFFINITY].
Proof. reflexivity. Qed.

Lemma stored_users (vname vemail vrole : value) (now : str) (id : Z) :
  stored [("name", vname); ("email", vemail); ("role", vrole)]%string now id
    <$> users
  = [INTEGER id; coerce TEXT_AFFINITY vname; coerce TEXT_AFFINITY vemail;
     coerce TEXT_AFFINITY vrole; TEXT now].
Proof. by destruct vname, vemail, vrole. Qed.

Lemma coerce_text_null (v : value) : coerce TEXT_AFFINITY v = NULL ↔ v = NULL.
Proof. by destruct v. Qed.

Lemma violates_users (rs : list (list value)) (id : Z)
    (vname vemail vrole vcreated : value) :
  violates users rs [INTEGER id; vname; vemail; vrole; vcreated]
  = taken rs 0 (INTEGER id)
    || bool_decide (vname = NULL)
    || bool_decide (vemail = NULL)
    || taken rs 2 vemail.
Proof.
  unfold violates.
  destruct vname, vemail; cbv -[taken];
    repeat match goal with
           | |- context [taken ?a ?b ?c] => destruct (taken a b c)
           end; reflexivity.
Qed.

Lemma max_list_ge (l : list Z) (z : Z) : z ∈ l → z ≤ max_list l.
Proof.
  unfold max_list. induction l as [|x l IH]; [by inversion 1|].
  intros [->|H]%elem_of_cons; cbn [foldr]; [lia|]. specialize (IH H). lia.
Qed.

Lemma max_list_nonneg (l : list Z) : 0 ≤ max_list l.
Proof. unfold max_list. induction l; cbn [foldr]; lia. Qed.

Lemma row_ids_users_head (r : list value) (z : Z) :
  r !! 0%nat = Some (INTEGER z) → row_ids users r = [z].
Proof.
  destruct r as [|v r]; [done|]. intros [= ->].
  unfold row_ids, users.
  destruct r as [|[] [|[] [|[] [|[] r]]]]; reflexivity.
Qed.

Lemma next_row_id_fresh (t : table) :
  taken (rows t) 0 (INTEGER (next_row_id users t)) = false.
Proof.
  unfold taken. apply bool_decide_eq_false_2.
  rewrite Exists_exists. intros (r & Hr & Hid).
  assert (next_row_id users t ≤ max_list (rows t ≫= row_ids users)).
  { apply max_list_ge, list_elem_of_bind. exists r. split; [|done].
    rewrite (row_ids_users_head _ _ Hid). apply list_elem_of_here. }
  unfold next_row_id in *. lia.
Qed.

(** What the engine does with the INSERT of the create form, for any three
    values (a parameter may be NULL or an integer at the level of the
    engine): the three columns have TEXT affinity. *)
Lemma insert_users_cases (t : table) (vname vemail vrole : value) (now : str) :
  let assignments :=
    [("name", vname); ("email", vemail); ("role", vrole)]%string in
  ((vname = NULL ∨ vemail = NULL
    ∨ Exists (λ r, r !! 2%nat = Some (coerce TEXT_AFFINITY vemail)) (rows t))
   ∧ insert users t assignments now = IntegrityError)
  ∨ (vname ≠ NULL ∧ vemail ≠ NULL
     ∧ ¬ Exists (λ r, r !! 2%nat = Some (coerce TEXT_AFFINITY vemail)) (rows t)
     ∧ insert users t assignments now
       = Done {| rows := rows t
                         ++ [[INTEGER (next_row_id users t);
                              coerce TEXT_AFFINITY vname;
                              coerce TEXT_AFFINITY vemail;
                              coerce TEXT_AFFINITY vrole; TEXT now]];
                 sequence := next_row_id users t |}).
Proof.
  cbv zeta. unfold insert. rewrite stored_users, violates_users.
  rewrite next_row_id_fresh. cbn [orb].
  case_bool_decide as Hn; cbn [orb];
    [left; split; [left; by apply coerce_text_null|reflexivity]|].
  case_bool_decide as He; cbn [orb];
    [left; split; [right; left; by apply coerce_text_null|reflexivity]|].
  unfold taken. case_bool_decide as Ht; [left; auto|].
  right. rewrite coerce_text_null in Hn, He. split_and!; [done..|].
  do 2 f_equal.
  rewrite (row_ids_users_head _ (next_row_id users t)) by done.
  unfold max_list. cbn [foldr]. unfold next_row_id.
  pose proof (max_list_nonneg (rows t ≫= row_ids users)). lia.
Qed.

(** The same for the parameters of the forms, which are texts. *)
Lemma insert_users_text_cases (t : table) (name email_in role_in now : str) :
  let assignments :=
    [("name", TEXT name); ("email", TEXT email_in);
     ("role", TEXT role_in)]%string in
  ((TEXT name = NULL ∨ TEXT email_in = NULL
    ∨ Exists (λ r, r !! 2%nat = Some (TEXT email_in)) (rows t))
   ∧ insert users t assignments now = IntegrityError)
  ∨ (TEXT name ≠ NULL ∧ TEXT email_in ≠ NULL
     ∧ ¬ Exists (λ r, r !! 2%nat = Some (TEXT email_in)) (rows t)
     ∧ insert users t assignments now
       = Done {| rows := rows t
                         ++ [[INTEGER (next_row_id users t); TEXT name;
                              TEXT email_in; TEXT role_in; TEXT now]];
                 sequence := next_row_id users t |}).
Proof. exact (insert_users_cases t (TEXT name) (TEXT email_in) (TEXT role_in) now). Qed.

(** C4, as stated, fails on the schema: the table has constraints besides
    the uniqueness of the e-mail address.  The engine rejects a row without
    a name although no row holds its e-mail address (the table is empty). *)
Lemma users_table_rejects_null_name :
  insert users empty
    [("name", NULL); ("email", TEXT (lit "a@b.c"));
     ("role", TEXT (lit "user"))]%string (lit "2024-01-01 00:00:00")
  = IntegrityError
  ∧ rows empty = []
  ∧ NOT_NULL ∈ users ≫= col_constraints.
Proof.
  split_and!.
  - vm_compute. reflexivity.
  - reflexivity.
  - unfold users. cbn [mbind list_bind col_constraints app].
    do 1 apply list_elem_of_further. apply list_elem_of_here.
Qed.

(** C4, amended. The users table has the columns id, name, email, role and
    created_at.  On a table whose row ids have not run out, the engine
    rejects an insert of the create form, whose parameters may be [None], a
    [str] or a 64-bit [int], exactly when the name is NULL, the e-mail
    address is NULL, or a row already holds the e-mail address as the column
    stores it, an integer as its decimal text (NOT NULL on name and email,
    UNIQUE on email, TEXT affinity; the key is always fresh).  For every
    create-user submission with non-empty name and e-mail address on such a
    table, the insert fails, showing "Email already exists!", exactly when a
    row with the same e-mail address exists, and the table is then
    unchanged; otherwise exactly one row with the given name, e-mail address
    and role is added at a fresh id within the range of the engine. *)
Theorem create_user_fails_iff_email_exists
    (t : table) (name email_in role_in now : str) :
  has_room users t →
  name ≠ [] →
  email_in ≠ [] →
  let res := create_user t name email_in role_in now in
  col_name <$> users = ["id"; "name"; "email"; "role"; "created_at"]%string
  ∧ (∀ vname vemail vrole,
       bindable vname → bindable vemail → bindable vrole →
       insert users t
         [("name", vname); ("email", vemail); ("role", vrole)]%string now
       = IntegrityError
       ↔ vname = NULL ∨ vemail = NULL
         ∨ Exists (λ r, r !! 2%nat = Some (coerce TEXT_AFFINITY vemail))
             (rows t))
  ∧ (res.2 = [st_error (lit "❌ Email already exists!")]
     ↔ email_exists t email_in)
  ∧ (email_exists t email_in → res.1 = t)
  ∧ (¬ email_exists t email_in →
       ∃ id,
         res.1 = {| rows := rows t
                            ++ [[INTEGER id; TEXT name; TEXT email_in;
                                 TEXT role_in; TEXT now]];
                    sequence := id |}
         ∧ 1 ≤ id ≤ max_rowid
         ∧ Forall (λ r, r !! 0%nat ≠ Some (INTEGER id)) (rows t)
         ∧ res.2 = [st_success (lit "✅ User '" ++ name
                                  ++ lit "' created successfully!");
                    st_balloons]).
Proof.
  intros Hroom Hname Hemail. cbv zeta. split; [reflexivity|]. split.
  { intros vname vemail vrole _ _ _.
    destruct (insert_users_cases t vname vemail vrole now)
      as [[H E]|(Hn & He & Ht & E)]; rewrite E; [done|].
    split; [discriminate|]. intros [?|[?|?]]; done. }
  unfold create_user, email_exists.
  apply is_empty_false in Hname, Hemail. rewrite Hname, Hemail. cbn [orb].
  destruct (insert_users_text_cases t name email_in role_in now)
    as [[[H|[H|H]] E]|(_ & _ & Ht & E)]; try discriminate H;
    rewrite E; cbn [fst snd].
  - split_and!; [done|done|]. intros Hn. by destruct Hn.
  - split_and!.
    + split; [discriminate|]. intros H. by destruct Ht.
    + intros H. by destruct Ht.
    + intros _. eexists. split; [done|]. split; [|split; [|done]].
      * split; [|exact Hroom]. unfold next_row_id.
        pose proof (max_list_nonneg (rows t ≫= row_ids users)). lia.
      * apply Forall_forall. intros r Hr Hid.
        pose proof (next_row_id_fresh t) as Hfresh.
        unfold taken in Hfresh. apply bool_decide_eq_false in Hfresh.
        apply Hfresh, Exists_exists. eauto.
Qed.

End SqliteProperties.

(** A table with one row, and a submission of the create form on it. *)
Definition table_of_ann : Sqlite.table :=
  {| Sqlite.rows :=
       [[Sqlite.INTEGER 1; Sqlite.TEXT (lit "Ann");
         Sqlite.TEXT (lit "ann@example.com"); Sqlite.TEXT (lit "user");
         Sqlite.TEXT (lit "2024-01-01 00:00:00")]];
     Sqlite.sequence := 1 |}.

Lemma create_user_fails_iff_email_exists_witness :
  Sqlite.has_room Sqlite.users table_of_ann
  ∧ lit "Bob" ≠ [] ∧ lit "bob@example.com" ≠ []
  ∧ (¬ Sqlite.email_exists table_of_ann (lit "bob@example.com") →
     ∃ id,
       (Sqlite.create_user table_of_ann (lit "Bob") (lit "bob@example.com")
          (lit "admin") (lit "2024-01-02 00:00:00")).1
       = {| Sqlite.rows :=
              Sqlite.rows table_of_ann
              ++ [[Sqlite.INTEGER id; Sqlite.TEXT (lit "Bob");
                   Sqlite.TEXT (lit "bob@example.com");
                   Sqlite.TEXT (lit "admin");
                   Sqlite.TEXT (lit "2024-01-02 00:00:00")]];
            Sqlite.sequence := id |}
       ∧ 1 ≤ id ≤ Sqlite.max_rowid
       ∧ Forall (λ r, r !! 0%nat ≠ Some (Sqlite.INTEGER id))
           (Sqlite.rows table_of_ann)
       ∧ (Sqlite.create_user table_of_ann (lit "Bob")
            (lit "bob@example.com") (lit "admin")
            (lit "2024-01-02 00:00:00")).2
         = [st_success (lit "✅ User '" ++ lit "Bob"
                          ++ lit "' created successfully!");
            st_balloons]).
Proof.
  assert (H0 : Sqlite.has_room Sqlite.users table_of_ann)
    by (vm_compute; discriminate).
  assert (H1 : lit "Bob" ≠ []) by (vm_compute; discriminate).
  assert (H2 : lit "bob@example.com" ≠ []) by (vm_compute; discriminate).
  split_and!; [done..|].
  exact (proj2 (proj2 (proj2 (proj2
    (create_user_fails_iff_email_exists table_of_ann (lit "Bob")
       (lit "bob@example.com") (lit "admin") (lit "2024-01-02 00:00:00")
       H0 H1 H2))))).
Defined.

(** The form on the same table again, with the e-mail address it holds, and
    the engine on an integer whose text is the e-mail address of a row. *)
Example create_user_on_a_table_with_the_address :
  Sqlite.create_user table_of_ann (lit "Bob") (lit "ann@example.com")
    (lit "admin") (lit "2024-01-02 00:00:00")
  = (table_of_ann, [st_error (lit "❌ Email already exists!")]).
Proof. vm_compute. reflexivity. Qed.

Example insert_integer_email :
  Sqlite.insert Sqlite.users
    {| Sqlite.rows :=
         [[Sqlite.INTEGER 1; Sqlite.TEXT (lit "Ann"); Sqlite.TEXT (lit "5");
           Sqlite.TEXT (lit "user"); Sqlite.TEXT (lit "2024-01-01 00:00:00")]];
       Sqlite.sequence := 1 |}
    [("name", Sqlite.TEXT (lit "Bob")); ("email", Sqlite.INTEGER 5);
     ("role", Sqlite.TEXT (lit "user"))]%string (lit "2024-01-02 00:00:00")
  = Sqlite.IntegrityError.
Proof. vm_compute. reflexivity. Qed.

Example create_two_users_same_email :
  let now := lit "2024-01-01 00:00:00" in
  let r1 := Sqlite.create_user Sqlite.empty (lit "Ann") (lit "a@b.c")
              (lit "user") now in
  let r2 := Sqlite.create_user r1.1 (lit "Bob") (lit "a@b.c") (lit "admin") now in
  Sqlite.rows r1.1
  = [[Sqlite.INTEGER 1; Sqlite.TEXT (lit "Ann"); Sqlite.TEXT (lit "a@b.c");
      Sqlite.TEXT (lit "user"); Sqlite.TEXT now]]
  ∧ r2 = (r1.1, [st_error (lit "❌ Email already exists!")]).
Proof. vm_compute. split; reflexivity. Qed.
(** * Further models: what else the pages do *)

(** ** Chapter 7, tab 3: the role selector, which shares [user_role] *)

Module Chapter7.

Definition role_emoji : list (str * str) :=
  [(lit "guest", lit "🔓"); (lit "user", lit "👤"); (lit "admin", lit "👑")].

Definition pages : list (str * list str) :=
  [(lit "guest", lit <$> ["Home"; "About"; "Login"]%string);
   (lit "user", lit <$> ["Home"; "Dashboard"; "Profile"; "Logout"]%string);
   (lit "admin", lit <$> ["Home"; "Dashboard"; "Users"; "Analytics";
                          "Settings"; "Logout"]%string)].

Definition icons : list (str * str) :=
  [(lit "Home", lit "🏠"); (lit "About", lit "ℹ️"); (lit "Login", lit "🔑");
   (lit "Dashboard", lit "📊"); (lit "Profile", lit "👤");
   (lit "Logout", lit "🚪"); (lit "Users", lit "👥");
   (lit "Analytics", lit "📈"); (lit "Settings", lit "⚙️")].

(** [if 'user_role' not in st.session_state: st.session_state.user_role =
    'guest'].  The slot is [None] when the session has no such key, and
    [Some r] when it holds [r], which may be Python's [None]. *)
Definition init_user_role (slot : option (option str)) : option str :=
  match slot with
  | None => Some (lit "guest")
  | Some r => r
  end.

Inductive role_button : Type := Guest | User | Admin.

Definition role_of (b : role_button) : str :=
  match b with
  | Guest => lit "guest"
  | User => lit "user"
  | Admin => lit "admin"
  end.

(** The body of one of the three [if st.button(...)] of the selector. *)
Definition select_role (b : role_button) (s : session) : session * list ui :=
  ({| authenticated := authenticated s; current_user := current_user s;
      user_role := Some (role_of b); users_db := users_db s |}, [st_rerun]).

(** What the tab draws below the selector when no button is clicked: the
    banner and the labels of the navigation buttons.  [None] where Python
    raises [KeyError] ([role_emoji[...]] or [pages[...]]). *)
Definition role_tab (role_now : option str) : option (list ui * list str) :=
  match role_now with
  | None => None
  | Some r =>
    match Rbac.assoc role_emoji r, Rbac.assoc pages r with
    | Some emoji, Some available_pages =>
        Some ([st_markdown (lit "---");
               st_success (lit "Current Role: " ++ emoji ++ lit " **"
                             ++ title r ++ lit "**");
               st_markdown (lit "---");
               st_subheader (lit "🧭 Available Navigation")],
              (λ page, default (lit "📄") (Rbac.assoc icons page) ++ lit " "
                         ++ page) <$> available_pages)
    | _, _ => None
    end
  end.

End Chapter7.

(** ** Chapters 8 and 9: the dashboards of a logged-in user *)

Module Dashboard.

(** The [else] branch of tab 2 of chapter 8, none of its buttons clicked.
    [None] where Python raises [KeyError]: [users_db[current_user]] or
    [user_data['created']]. *)
Definition chapter8 (s : session) : option (list ui) :=
  u ← current_user s;
  user_data ← users_db s !! u;
  member_since ← created user_data;
  Some ([st_subheader (lit "👋 Welcome, " ++ u ++ lit "!");
         st_markdown (lit "### 👤 Profile Information");
         st_write (lit "**Username:** " ++ u);
         st_write (lit "**Email:** " ++ email user_data);
         st_write (lit "**Role:** " ++ title (role user_data));
         st_write (lit "**Member since:** " ++ member_since);
         st_markdown (lit "---");
         st_subheader (lit "📊 Your Dashboard")]
        ++ (if bool_decide (role user_data = lit "admin") then
              [st_markdown (lit "### 👑 Admin Panel");
               st_success (lit "You have admin privileges!");
               st_write (lit "**Admin Features:**");
               st_write (lit "- View all users");
               st_write (lit "- Manage permissions");
               st_write (lit "- System settings");
               st_write (lit "- Analytics dashboard")]
            else
              [st_markdown (lit "### 👤 User Dashboard");
               st_info (lit "Standard user access");
               st_write (lit "**Available Features:**");
               st_write (lit "- View your profile");
               st_write (lit "- Edit settings");
               st_write (lit "- Access standard features")])
        ++ [st_markdown (lit "---")]).

(** The [else] branch of tab 2 of chapter 9 down to the heading of the
    role's dashboard.  [None] where Python raises [KeyError]:
    [users_db[current_user]] or [user_data['permissions']]. *)
Definition chapter9 (s : session) : option (list ui) :=
  u ← current_user s;
  user_data ← users_db s !! u;
  let role_now := role user_data in
  perms ← permissions user_data;
  Some ([st_subheader (lit "👋 Welcome, " ++ u ++ lit "!");
         st_markdown (lit "### 👤 Your Access Level");
         st_write (lit "**Role:** " ++ title role_now);
         st_write (lit "**Email:** " ++ email user_data);
         st_write (lit "**Permissions:** "
                     ++ str_of_Z (Z.of_nat (length perms)))]
        ++ ((λ perm, st_write (lit "✓ " ++ perm)) <$> perms)
        ++ [st_markdown (lit "---")]
        ++ (if bool_decide (role_now = lit "admin") then
              [st_markdown (lit "### 👑 Admin Dashboard");
               st_error (lit "⚠️ FULL ACCESS - ALL FEATURES AVAILABLE")]
            else if bool_decide (role_now = lit "manager") then
              [st_markdown (lit "### 👔 Manager Dashboard");
               st_warning (lit "⚠️ MANAGER ACCESS - LIMITED FEATURES")]
            else if bool_decide (role_now = lit "user") then
              [st_markdown (lit "### 👤 User Dashboard");
               st_info (lit "ℹ️ STANDARD ACCESS")]
            else
              [st_markdown (lit "### 👁️ Viewer Dashboard");
               st_info (lit "ℹ️ READ-ONLY ACCESS")])).

End Dashboard.

(** ** Chapters 7, 8 and 9 over one session *)

Module Auth.

(** The buttons that write the shared keys, with the values of their
    forms. *)
Inductive event : Type :=
  | Login8 (username password_in : str)
  | Register8 (new_username new_email new_password confirm_password
                 role_in now : str)
  | Logout8
  | Login9 (username password_in : str)
  | Logout9
  | SelectRole7 (b : Chapter7.role_button).

(** One click.  [None] when the page does not draw the button: both pages
    draw their forms under [if not st.session_state.authenticated] and the
    logout button under its [else]; the role of a registration comes from a
    select box of ["user", "admin"]. *)
Definition step (s : session) (e : event) : option session :=
  match e with
  | Login8 u p =>
      if authenticated s then None else Some (Chapter8.login_form s u p).1
  | Register8 u m p c r now =>
      if authenticated s then None
      else if bool_decide (r ∈ [lit "user"; lit "admin"]) then
        Some (Chapter8.register_form s u m p c r now).1
      else None
  | Logout8 => if authenticated s then Some (Chapter8.logout s).1 else None
  | Login9 u p =>
      if authenticated s then None else Some (Chapter9.rbac_login s u p).1
  | Logout9 => if authenticated s then Some (Chapter9.logout s).1 else None
  | SelectRole7 b => Some (Chapter7.select_role b s).1
  end.

(** The sessions the three pages can produce. *)
Inductive reachable : session → Prop :=
  | reachable8 : reachable initial_session8
  | reachable9 : reachable initial_session9
  | reachable_step s e s' : reachable s → step s e = Some s' → reachable s'.

End Auth.
(** * Further properties *)

(** ** Registration, login and the dashboards *)

Lemma register_form_valid (s : session) (u e p c r now : str) :
  registration_valid (users_db s) u e p c →
  Chapter8.register_form s u e p c r now
  = (set_users_db (<[u := new_account e p r now]> (users_db s)) s,
     [account_created u; st_balloons]).
Proof.
  intros Hv. apply register_errors_nil in Hv.
  unfold Chapter8.register_form. by rewrite Hv.
Qed.

Lemma login_form_match (s : session) (u p : str) (r : user_record) :
  u ≠ [] → p ≠ [] → users_db s !! u = Some r →
  hash_password p = password r →
  Chapter8.login_form s u p
  = ({| authenticated := true; current_user := Some u;
        user_role := user_role s; users_db := users_db s |},
     [login_successful; st_balloons; st_rerun]).
Proof.
  intros Hu Hp Hr Hh.
  destruct (login_form_cases s u p)
    as [[[?|?] _]|[(_&_&Hn&_)|[(_&_&(r'&Hr'&Hh')&_)|(_&_&r'&Hr'&_&E)]]];
    try done; congruence.
Qed.

Lemma rbac_login_match (s : session) (u p : str) (r : user_record) :
  users_db s !! u = Some r →
  hash_password p = password r →
  Chapter9.rbac_login s u p
  = ({| authenticated := true; current_user := Some u;
        user_role := Some (role r); users_db := users_db s |},
     [login_successful; st_rerun]).
Proof.
  intros Hr Hh.
  destruct (rbac_login_cases s u p)
    as [[Hn _]|[[(r'&Hr'&Hh') _]|(r'&Hr'&_&E)]]; congruence.
Qed.

(** X1. An account made by the registration form of chapter 8 can log in at
    once, with the password it registered, on the login form of chapter 8
    and on that of chapter 9 (which takes the registered role); a password
    with another digest is refused. *)
Theorem registered_account_can_log_in
    (s : session) (u e p c r now : str) :
  registration_valid (users_db s) u e p c →
  let s' := (Chapter8.register_form s u e p c r now).1 in
  Chapter8.login_form s' u p
  = ({| authenticated := true; current_user := Some u;
        user_role := user_role s; users_db := users_db s' |},
     [login_successful; st_balloons; st_rerun])
  ∧ Chapter9.rbac_login s' u p
    = ({| authenticated := true; current_user := Some u;
          user_role := Some r; users_db := users_db s' |},
       [login_successful; st_rerun])
  ∧ (∀ p', p' ≠ [] → hash_password p' ≠ hash_password p →
           Chapter8.login_form s' u p' = (s', [invalid_password])
           ∧ Chapter9.rbac_login s' u p' = (s', [invalid_password])).
Proof.
  intros Hv. cbv zeta. rewrite (register_form_valid _ _ _ _ _ _ _ Hv).
  cbn [fst]. destruct Hv as (Hu & _ & Hp & _).
  set (s' := set_users_db _ s).
  assert (Hr : users_db s' !! u = Some (new_account e p r now))
    by apply lookup_insert_eq.
  split_and!.
  - by apply (login_form_match s' u p (new_account e p r now)).
  - by apply (rbac_login_match s' u p (new_account e p r now)).
  - intros p' Hp' Hh. split.
    + destruct (login_form_cases s' u p')
        as [[[?|?] _]|[(_&_&Hn&_)|[(_&_&_&E)|(_&_&r'&Hr'&Hh'&_)]]];
        try done; try congruence.
      rewrite Hr in Hr'. injection Hr' as <-. by destruct Hh.
    + destruct (rbac_login_cases s' u p')
        as [[Hn _]|[[_ E]|(r'&Hr'&Hh'&_)]]; try done; try congruence.
      rewrite Hr in Hr'. injection Hr' as <-. by destruct Hh.
Qed.

Lemma registration_example_valid :
  registration_valid Chapter8.initial_users_db (lit "carol")
    (lit "carol@example.com") (lit "secret1") (lit "secret1").
Proof.
  unfold registration_valid.
  split_and!; try (by vm_compute); try (vm_compute; discriminate).
  apply (bool_decide_eq_true_1 (chr 64 ∈ lit "carol@example.com")).
  vm_compute. reflexivity.
Qed.

Lemma registered_account_can_log_in_witness :
  registration_valid Chapter8.initial_users_db (lit "carol")
    (lit "carol@example.com") (lit "secret1") (lit "secret1")
  ∧ login_successful
      ∈ (Chapter9.rbac_login
           (Chapter8.register_form initial_session8 (lit "carol")
              (lit "carol@example.com") (lit "secret1") (lit "secret1")
              (lit "user") (lit "2024-05-01 10:00:00")).1
           (lit "carol") (lit "secret1")).2.
Proof.
  split; [exact registration_example_valid|].
  rewrite (proj1 (proj2 (registered_account_can_log_in initial_session8
    (lit "carol") (lit "carol@example.com") (lit "secret1") (lit "secret1")
    (lit "user") (lit "2024-05-01 10:00:00") registration_example_valid))).
  apply list_elem_of_here.
Defined.

(** ** The session over chapters 7, 8 and 9 *)

(** What one click can do to the users dictionary and the login state. *)
Lemma auth_step_cases (s s' : session) (e : Auth.event) :
  Auth.step s e = Some s' →
  (users_db s' = users_db s
   ∧ ((authenticated s' = authenticated s ∧ current_user s' = current_user s)
      ∨ (authenticated s' = false ∧ current_user s' = None)
      ∨ (authenticated s' = true
         ∧ ∃ u r, current_user s' = Some u ∧ users_db s !! u = Some r)))
  ∨ (authenticated s = false ∧ authenticated s' = false
     ∧ current_user s' = current_user s
     ∧ ∃ u m p c r now,
         registration_valid (users_db s) u m p c
         ∧ s' = (Chapter8.register_form s u m p c r now).1
         ∧ users_db s' = <[u := new_account m p r now]> (users_db s)).
Proof.
  destruct e as [u p|u m p c r now| |u p| |b]; cbn [Auth.step].
  - destruct (authenticated s) eqn:Ea; [discriminate|]. intros [= <-].
    left.
    destruct (login_form_cases s u p)
      as [[_ E]|[(_&_&_&E)|[(_&_&_&E)|(_&_&r&Hr&_&E)]]];
      rewrite E; cbn [fst users_db authenticated current_user];
      (split; [reflexivity|]).
    1-3: left; by rewrite Ea.
    right; right. split; [reflexivity|]. by exists u, r.
  - destruct (authenticated s) eqn:Ea; [discriminate|].
    case_bool_decide; [|discriminate]. intros [= <-].
    destruct (Chapter8.register_errors (users_db s) u m p c) eqn:E.
    + apply register_errors_nil in E.
      right. rewrite (register_form_valid _ _ _ _ _ _ _ E).
      cbn [fst users_db authenticated current_user set_users_db].
      split_and!; try reflexivity; [exact Ea|].
      exists u, m, p, c, r, now. split_and!; try reflexivity; [exact E|].
      by rewrite (register_form_valid _ _ _ _ _ _ _ E).
    + left. unfold Chapter8.register_form. rewrite E. cbn [fst].
      split; [reflexivity|]. left. by rewrite Ea.
  - destruct (authenticated s); [|discriminate]. intros [= <-].
    left. cbn [Chapter8.logout fst users_db authenticated current_user].
    split; [reflexivity|]. right; left. by split.
  - destruct (authenticated s) eqn:Ea; [discriminate|]. intros [= <-].
    left.
    destruct (rbac_login_cases s u p) as [[_ E]|[[_ E]|(r&Hr&_&E)]];
      rewrite E; cbn [fst users_db authenticated current_user];
      (split; [reflexivity|]).
    1-2: left; by rewrite Ea.
    right; right. split; [reflexivity|]. by exists u, r.
  - destruct (authenticated s); [|discriminate]. intros [= <-].
    left. cbn [Chapter9.logout fst users_db authenticated current_user].
    split; [reflexivity|]. right; left. by split.
  - intros [= <-]. left.
    cbn [Chapter7.select_role fst users_db authenticated current_user].
    split; [reflexivity|]. left. by split.
Qed.

Lemma reachable_session_inv (s : session) :
  Auth.reachable s →
  reachable_db (users_db s)
  ∧ (authenticated s = true →
     ∃ u r, current_user s = Some u ∧ users_db s !! u = Some r).
Proof.
  induction 1 as [| |s e s' _ [IHdb IH] Hstep].
  - split; [constructor|done].
  - split; [constructor|done].
  - apply auth_step_cases in Hstep
      as [[Hdb [[Ha Hc]|[[Ha Hc]|[Ha (u & r & Hc & Hr)]]]]
         |(Ha & Ha' & Hc & u & m & p & c & r & now & Hv & -> & Hdb)].
    + rewrite Hdb, Ha, Hc. done.
    + rewrite Hdb, Ha. done.
    + rewrite Hdb. split; [done|]. eauto.
    + split; [by constructor|]. by rewrite Ha'.
Qed.

(** X2. In every session the pages can produce, a logged-in session names a
    user who is a key of [users_db]: the look-up
    [users_db[current_user]] the dashboards and the protected tab start
    with never raises. *)
Theorem logged_in_user_is_in_users_db (s : session) :
  Auth.reachable s →
  authenticated s = true →
  ∃ u r, current_user s = Some u ∧ users_db s !! u = Some r.
Proof. intros Hr. by apply reachable_session_inv. Qed.

Lemma admin_logged_in_reachable :
  Auth.reachable
    (Chapter8.login_form initial_session8 (lit "admin") (lit "admin123")).1.
Proof.
  apply (Auth.reachable_step initial_session8
           (Auth.Login8 (lit "admin") (lit "admin123"))).
  - constructor.
  - vm_compute. reflexivity.
Defined.

Lemma logged_in_user_is_in_users_db_witness :
  ∃ u r,
    current_user
      (Chapter8.login_form initial_session8 (lit "admin") (lit "admin123")).1
    = Some u
    ∧ users_db
        (Chapter8.login_form initial_session8 (lit "admin") (lit "admin123")).1
      !! u = Some r.
Proof.
  apply (logged_in_user_is_in_users_db _ admin_logged_in_reachable).
  vm_compute. reflexivity.
Defined.

Lemma auth_step_keeps_accounts (s s' : session) (e : Auth.event)
    (u : str) (r : user_record) :
  Auth.step s e = Some s' →
  users_db s !! u = Some r → users_db s' !! u = Some r.
Proof.
  intros Hstep Hr.
  apply auth_step_cases in Hstep
    as [[Hdb _]|(_ & _ & _ & u' & m & p & c & r' & now & Hv & _ & Hdb)].
  - by rewrite Hdb.
  - rewrite Hdb. destruct Hv as (_ & _ & _ & Hfresh & _).
    rewrite lookup_insert_ne; [exact Hr|]. intros ->. congruence.
Qed.

(** X3. No click on the three pages changes or removes an entry of
    [users_db]: an account, once in the dictionary, keeps its record, so a
    registration cannot replace the password of an existing account and
    whoever could log in can still do so after the click. *)
Theorem accounts_are_never_changed (s s' : session) (e : Auth.event)
    (u : str) (r : user_record) :
  Auth.step s e = Some s' →
  users_db s !! u = Some r →
  users_db s' !! u = Some r
  ∧ ∀ p, credentials_match (users_db s) u p → credentials_match (users_db s') u p.
Proof.
  intros Hstep Hr. split; [by eapply auth_step_keeps_accounts|].
  intros p (r' & Hr' & Hh). exists r'.
  split; [by eapply auth_step_keeps_accounts|exact Hh].
Qed.

Lemma accounts_are_never_changed_witness :
  ∃ r, users_db initial_session8 !! lit "admin" = Some r
       ∧ ∀ s', Auth.step initial_session8
                 (Auth.Register8 (lit "admin") (lit "x@y.z") (lit "hacked1")
                    (lit "hacked1") (lit "admin") (lit "2024-05-01 10:00:00"))
               = Some s' →
               users_db s' !! lit "admin" = Some r.
Proof.
  eexists. split; [vm_compute; reflexivity|].
  intros s' Hs'.
  refine (proj1 (accounts_are_never_changed initial_session8 s' _ _ _ Hs' _)).
  vm_compute. reflexivity.
Defined.

(** X4. The built-in administrator can log in with "admin123" in every
    session the pages can produce, whichever page installed the dictionary
    and whatever was registered since. *)
Theorem built_in_admin_can_always_log_in (s : session) :
  Auth.reachable s →
  credentials_match (users_db s) (lit "admin") (lit "admin123").
Proof.
  induction 1 as [| |s e s' _ IH Hstep].
  - eexists. split; [vm_compute; reflexivity|]. vm_compute. reflexivity.
  - eexists. split; [vm_compute; reflexivity|]. vm_compute. reflexivity.
  - destruct IH as (r & Hr & Hh).
    exists r. split; [|exact Hh]. by eapply auth_step_keeps_accounts.
Qed.

Lemma built_in_admin_can_always_log_in_witness :
  credentials_match
    (users_db (Chapter8.login_form initial_session8 (lit "admin")
                 (lit "admin123")).1)
    (lit "admin") (lit "admin123").
Proof.
  exact (built_in_admin_can_always_log_in _ admin_logged_in_reachable).
Defined.

(** ** The role of chapter 9's tests is whatever [user_role] holds *)

Lemma admin_role_permissions :
  default [] (Rbac.assoc Rbac.ROLE_PERMISSIONS (lit "admin"))
  = Rbac.all_permissions.
Proof. vm_compute. reflexivity. Qed.

Lemma admin_in_every_page :
  Forall (λ row : str * list str, lit "admin" ∈ row.2) Rbac.PAGE_ACCESS.
Proof.
  apply (bool_decide_eq_true_1
           (Forall (λ row : str * list str, lit "admin" ∈ row.2)
              Rbac.PAGE_ACCESS)).
  vm_compute. reflexivity.
Qed.

(** X5. The role selector of chapter 7 writes the [user_role] that the
    tests of chapter 9 read, and nothing else: whoever is logged in stays
    logged in under the same name, and after a click on "Admin" the
    permission test grants each of the six permissions it offers and the
    page test grants every page. *)
Theorem role_selector_overrides_access
    (s : session) (b : Chapter7.role_button) :
  let s' := (Chapter7.select_role b s).1 in
  authenticated s' = authenticated s
  ∧ current_user s' = current_user s
  ∧ users_db s' = users_db s
  ∧ Rbac.user_permissions s'
    = default [] (Rbac.assoc Rbac.ROLE_PERMISSIONS (Chapter7.role_of b))
  ∧ (b = Chapter7.Admin →
       (∀ perm, perm ∈ Rbac.all_permissions →
                Rbac.test_permission s' perm
                = [Rbac.granted_message perm; st_balloons])
       ∧ (∀ row, row ∈ Rbac.PAGE_ACCESS →
                 st_success (lit "✓ Access") ∈ Rbac.page_access_row s' row)).
Proof.
  cbv zeta. split_and!; try reflexivity.
  intros ->. split.
  - intros perm Hperm. unfold Rbac.test_permission, Rbac.user_permissions.
    cbn [Chapter7.select_role fst user_role Rbac.dict_get Chapter7.role_of].
    rewrite admin_role_permissions. by rewrite bool_decide_eq_true_2.
  - intros [page allowed] Hrow.
    pose proof (proj1 (Forall_forall _ _) admin_in_every_page _ Hrow) as Hin.
    unfold Rbac.page_access_row, Rbac.py_in.
    cbn [Chapter7.select_role fst snd user_role Chapter7.role_of] in *.
    rewrite bool_decide_eq_true_2 by exact Hin.
    do 2 apply list_elem_of_further. apply list_elem_of_here.
Qed.

Example viewer_becomes_admin :
  let s1 := (Chapter9.rbac_login initial_session9 (lit "viewer")
               (lit "viewer123")).1 in
  let s2 := (Chapter7.select_role Chapter7.Admin s1).1 in
  Rbac.test_permission s1 (lit "delete")
  = [Rbac.denied_message (lit "delete");
     st_write (lit "Required roles: ['admin']")]
  ∧ current_user s2 = Some (lit "viewer")
  ∧ Rbac.test_permission s2 (lit "delete")
    = [Rbac.granted_message (lit "delete"); st_balloons].
Proof. vm_compute. repeat split; reflexivity. Qed.

(** ** Which dashboard a logged-in session can draw *)

(** A record has the key ['created'] (chapter 8 wrote it) or the key
    ['permissions'] (chapter 9 did), never both. *)
Definition one_shape (r : user_record) : Prop :=
  (is_Some (created r) ∧ permissions r = None)
  ∨ (created r = None ∧ is_Some (permissions r)).

Lemma initial_users_db8_shape : map_Forall (λ _, one_shape) Chapter8.initial_users_db.
Proof.
  unfold Chapter8.initial_users_db.
  repeat (apply map_Forall_insert_2; [left; by eauto|]).
  apply map_Forall_empty.
Qed.

Lemma initial_users_db9_shape : map_Forall (λ _, one_shape) Chapter9.initial_users_db.
Proof.
  unfold Chapter9.initial_users_db.
  repeat (apply map_Forall_insert_2; [right; by eauto|]).
  apply map_Forall_empty.
Qed.

Lemma reachable_records_shape (s : session) :
  Auth.reachable s → map_Forall (λ _, one_shape) (users_db s).
Proof.
  induction 1 as [| |s e s' _ IH Hstep].
  - apply initial_users_db8_shape.
  - apply initial_users_db9_shape.
  - apply auth_step_cases in Hstep
      as [[Hdb _]|(_ & _ & _ & u' & m & p & c & r' & now & _ & _ & Hdb)];
      rewrite Hdb; [exact IH|].
    apply map_Forall_insert_2; [|exact IH]. left. by eauto.
Qed.

(** X6. In every logged-in session the pages can produce, exactly one of the
    two dashboards can be drawn and the other raises [KeyError]: chapter
    8's reads ['created'], which the accounts of chapter 9 lack, and chapter
    9's reads ['permissions'], which the accounts of chapter 8 (built in or
    registered) lack. *)
Theorem exactly_one_dashboard_renders (s : session) :
  Auth.reachable s →
  authenticated s = true →
  ∃ u r, current_user s = Some u ∧ users_db s !! u = Some r
    ∧ ((is_Some (created r)
        ∧ is_Some (Dashboard.chapter8 s) ∧ Dashboard.chapter9 s = None)
       ∨ (is_Some (permissions r)
          ∧ Dashboard.chapter8 s = None ∧ is_Some (Dashboard.chapter9 s))).
Proof.
  intros Hreach Hauth.
  destruct (proj2 (reachable_session_inv s Hreach) Hauth) as (u & r & Hu & Hr).
  exists u, r. split_and!; [exact Hu|exact Hr|].
  pose proof (reachable_records_shape s Hreach u r Hr) as Hshape.
  unfold Dashboard.chapter8, Dashboard.chapter9. unfold str in *. rewrite Hu.
  cbn [mbind option_bind]. rewrite Hr. cbn [mbind option_bind].
  destruct Hshape as [[[c Hc] Hp]|[Hc [ps Hp]]]; rewrite Hc, Hp;
    cbn [mbind option_bind]; [left|right]; split_and!; eauto.
Qed.

Lemma exactly_one_dashboard_renders_witness :
  ∃ u r,
    current_user
      (Chapter8.login_form initial_session8 (lit "admin") (lit "admin123")).1
    = Some u
    ∧ users_db
        (Chapter8.login_form initial_session8 (lit "admin") (lit "admin123")).1
      !! u = Some r
    ∧ ((is_Some (created r)
        ∧ is_Some (Dashboard.chapter8
                     (Chapter8.login_form initial_session8 (lit "admin")
                        (lit "admin123")).1)
        ∧ Dashboard.chapter9
            (Chapter8.login_form initial_session8 (lit "admin")
               (lit "admin123")).1 = None)
       ∨ (is_Some (permissions r)
          ∧ Dashboard.chapter8
              (Chapter8.login_form initial_session8 (lit "admin")
                 (lit "admin123")).1 = None
          ∧ is_Some (Dashboard.chapter9
                       (Chapter8.login_form initial_session8 (lit "admin")
                          (lit "admin123")).1))).
Proof.
  apply (exactly_one_dashboard_renders _ admin_logged_in_reachable).
  vm_compute. reflexivity.
Defined.

(** X7. The registration form of chapter 8 lets anyone choose the role
    "admin": after such a registration and a login with the new password,
    the dashboard of chapter 8 shows the admin panel, and a login on
    chapter 9 takes the role "admin". *)
Theorem anyone_can_register_as_admin (s : session) (u e p c now : str) :
  registration_valid (users_db s) u e p c →
  let s1 := (Chapter8.register_form s u e p c (lit "admin") now).1 in
  (∃ out, Dashboard.chapter8 (Chapter8.login_form s1 u p).1 = Some out
          ∧ st_success (lit "You have admin privileges!") ∈ out)
  ∧ user_role (Chapter9.rbac_login s1 u p).1 = Some (lit "admin").
Proof.
  intros Hv. cbv zeta. rewrite (register_form_valid _ _ _ _ _ _ _ Hv).
  cbn [fst]. pose proof Hv as (Hu & _ & Hp & _).
  set (s1 := set_users_db _ s).
  assert (Hr : users_db s1 !! u = Some (new_account e p (lit "admin") now))
    by apply lookup_insert_eq.
  rewrite (login_form_match s1 u p _ Hu Hp Hr eq_refl).
  rewrite (rbac_login_match s1 u p _ Hr eq_refl).
  split; [|reflexivity].
  unfold Dashboard.chapter8. cbn [fst current_user users_db mbind option_bind].
  unfold str in *. rewrite Hr. cbn [mbind option_bind new_account created role email].
  rewrite bool_decide_eq_true_2 by reflexivity.
  eexists. split; [reflexivity|].
  rewrite !elem_of_app. right; left.
  apply list_elem_of_further, list_elem_of_here.
Qed.

Lemma anyone_can_register_as_admin_witness :
  registration_valid Chapter8.initial_users_db (lit "carol")
    (lit "carol@example.com") (lit "secret1") (lit "secret1")
  ∧ user_role
      (Chapter9.rbac_login
         (Chapter8.register_form initial_session8 (lit "carol")
            (lit "carol@example.com") (lit "secret1") (lit "secret1")
            (lit "admin") (lit "2024-05-01 10:00:00")).1
         (lit "carol") (lit "secret1")).1
    = Some (lit "admin").
Proof.
  split; [exact registration_example_valid|].
  exact (proj2 (anyone_can_register_as_admin initial_session8 (lit "carol")
                  (lit "carol@example.com") (lit "secret1") (lit "secret1")
                  (lit "2024-05-01 10:00:00") registration_example_valid)).
Defined.

(** ** Chapter 7 on a role written by chapter 9 *)

Lemma role_tab_of_button (b : Chapter7.role_button) :
  is_Some (Chapter7.role_tab (Some (Chapter7.role_of b))).
Proof. destruct b; vm_compute; eauto. Qed.

(** X8. The role tab of chapter 7 indexes two dictionaries with
    [user_role]; it can be drawn exactly for the roles "guest", "user" and
    "admin" and raises [KeyError] for any other value.  In a fresh session
    its own initialisation makes the role "guest"; but once chapter 9 has
    run, the key exists and is kept: the tab raises after chapter 9 was
    opened first or logged out ([None]) and after a login on chapter 9 with
    any role the tab does not know ("manager", "viewer"). *)
Theorem role_tab_raises_outside_its_roles :
  (∀ role_now : option str,
     is_Some (Chapter7.role_tab role_now)
     ↔ ∃ b, role_now = Some (Chapter7.role_of b))
  ∧ is_Some (Chapter7.role_tab (Chapter7.init_user_role None))
  ∧ Chapter7.role_tab
      (Chapter7.init_user_role (Some (user_role initial_session9))) = None
  ∧ (∀ s, Chapter7.role_tab
            (Chapter7.init_user_role
               (Some (user_role (Chapter9.logout s).1))) = None)
  ∧ (∀ (s : session) (u p : str) (r : user_record),
       users_db s !! u = Some r →
       hash_password p = password r →
       (∀ b, role r ≠ Chapter7.role_of b) →
       Chapter7.role_tab
         (Chapter7.init_user_role
            (Some (user_role (Chapter9.rbac_login s u p).1))) = None).
Proof.
  assert (Hiff : ∀ role_now : option str,
            is_Some (Chapter7.role_tab role_now)
            ↔ ∃ b, role_now = Some (Chapter7.role_of b)).
  { intros [r|]; split.
    - unfold Chapter7.role_tab, Chapter7.role_emoji.
      cbn [Rbac.assoc].
      case_bool_decide as H1; [intros _; exists Chapter7.Guest; by subst|].
      case_bool_decide as H2; [intros _; exists Chapter7.User; by subst|].
      case_bool_decide as H3; [intros _; exists Chapter7.Admin; by subst|].
      by intros [? [=]].
    - intros [b [= ->]]. apply role_tab_of_button.
    - by intros [? [=]].
    - by intros [b [=]]. }
  split_and!; [exact Hiff| | | |].
  - apply (role_tab_of_button Chapter7.Guest).
  - reflexivity.
  - reflexivity.
  - intros s u p r Hr Hh Hrole.
    rewrite (rbac_login_match s u p r Hr Hh).
    cbn [fst user_role Chapter7.init_user_role].
    destruct (Chapter7.role_tab (Some (role r))) eqn:E; [|reflexivity].
    assert (Hs : is_Some (Chapter7.role_tab (Some (role r)))) by eauto.
    apply Hiff in Hs as [b [= Hb]]. by destruct (Hrole b).
Qed.

Example manager_breaks_role_tab :
  let s := (Chapter9.rbac_login initial_session9 (lit "manager")
              (lit "manager123")).1 in
  authenticated s = true
  ∧ Chapter7.role_tab (Chapter7.init_user_role (Some (user_role s))) = None.
Proof. vm_compute. split; reflexivity. Qed.

(** ** Chapter 9: the summary of the permission tab *)

Lemma role_permissions_cases (r : str) :
  (r = lit "admin" ∨ r = lit "manager" ∨ r = lit "user" ∨ r = lit "viewer")
  ∨ (r ≠ lit "manager" ∧ r ≠ lit "user"
     ∧ Rbac.assoc Rbac.ROLE_PERMISSIONS r = None).
Proof.
  unfold Rbac.ROLE_PERMISSIONS. cbn [Rbac.assoc].
  case_bool_decide as H1; [left; auto|].
  case_bool_decide as H2; [left; auto|].
  case_bool_decide as H3; [left; auto|].
  case_bool_decide as H4; [left; auto|].
  right. split_and!; [congruence|congruence|reflexivity].
Qed.

(** X9. The summary of the permission tab shows "Granted" (the length of
    the role's list), "Denied" (how many of the six permissions the tab
    knows are not in that list) and "Total" 6.  The two add up to the total
    for every role but "manager" and "user", whose lists hold a permission
    the tab does not know ("manage_team", "edit_profile"): for them Granted
    plus Denied is 7. *)
Theorem permission_summary_counts (s : session) :
  let granted := Z.of_nat (length (Rbac.user_permissions s)) in
  let denied :=
    Z.of_nat (length (filter (λ p, p ∉ Rbac.user_permissions s)
                        Rbac.all_permissions)) in
  (∃ before,
     Rbac.permission_overview s
     = before ++ [st_metric (lit "Granted") granted;
                  st_metric (lit "Denied") denied;
                  st_metric (lit "Total") 6])
  ∧ (user_role s = Some (lit "manager") ∨ user_role s = Some (lit "user") →
     granted + denied = 7)
  ∧ (user_role s ≠ Some (lit "manager") → user_role s ≠ Some (lit "user") →
     granted + denied = 6).
Proof.
  cbv zeta. split_and!.
  - unfold Rbac.permission_overview. cbv zeta.
    match goal with
    | |- ∃ before, ?a ++ ?b ++ ?c ++ ?d ++ [?m; ?x; ?y; ?z] = _ =>
        exists (a ++ b ++ c ++ d ++ [m])
    end.
    rewrite <-!app_assoc. reflexivity.
  - unfold Rbac.user_permissions, Rbac.dict_get.
    intros [->| ->]; vm_compute; reflexivity.
  - unfold Rbac.user_permissions, Rbac.dict_get.
    destruct (user_role s) as [r|]; [|intros _ _; vm_compute; reflexivity].
    intros Hm Hu.
    destruct (role_permissions_cases r) as [[->|[->|[->| ->]]]|(_ & _ & ->)];
      try (by destruct Hm); try (by destruct Hu); vm_compute; reflexivity.
Qed.

(** * Chapter 4: the shopping cart as a whole *)

Module Cart.

(** The product catalogue: name, price, emoji. *)
Definition products : list (str * (Z * str)) :=
  [(lit "Laptop", (999, lit "💻")); (lit "Mouse", (25, lit "🖱️"));
   (lit "Keyboard", (75, lit "⌨️")); (lit "Monitor", (299, lit "🖥️"));
   (lit "Headphones", (149, lit "🎧"))].

(** [d[k]] for a dictionary written as a literal. *)
Fixpoint item (d : list (string * pyval)) (k : string) : option pyval :=
  match d with
  | [] => None
  | (k', v) :: r => if bool_decide (k' = k) then Some v else item r k
  end.

(** [item['price']] as a number; [None] where Python raises. *)
Definition item_price (i : pyval) : option Z :=
  match i with
  | PDict d => as_int (item d "price")
  | _ => None
  end.

(** [sum(item['price'] for item in cart)] *)
Fixpoint total (cart : list pyval) : option Z :=
  match cart with
  | [] => Some 0
  | i :: r => p ← item_price i; t ← total r; Some (p + t)
  end.

(** [products[item['product']]['emoji']], which the cart display evaluates
    for every item. *)
Definition item_emoji (i : pyval) : option str :=
  match i with
  | PDict d =>
      match item d "product" with
      | Some (PStr p) => snd <$> Rbac.assoc products p
      | _ => None
      end
  | _ => None
  end.

(** [remove_item(index)]: [st.session_state.cart.pop(index)], which raises
    [IndexError] past the end. *)
Definition remove_item (index : nat) (st : session_state) : option session_state :=
  match read "cart" st with
  | Some (PList cart) =>
      if decide (index < length cart)%nat
      then Some (write "cart" (PList (delete index cart)) st)
      else None
  | _ => None
  end.

(** The buttons of the tab. *)
Inductive click : Type :=
  | AddToCart (product : str)
  | Remove (index : nat)
  | ClearCart
  | Checkout.

Definition cart_of (st : session_state) : option (list pyval) :=
  match read "cart" st with
  | Some (PList cart) => Some cart
  | _ => None
  end.

(** One click, after the initialisation block.  [None] when the page does
    not draw the button (an "Add to Cart" exists per catalogue product, a
    remove button per index of the cart, the two others under a non-empty
    cart) or when Python raises. *)
Definition handle (c : click) (st : session_state)
  : option (session_state * list ui) :=
  match c with
  | AddToCart product =>
      details ← Rbac.assoc products product;
      st' ← Chapter4.add_to_cart product details.1 st;
      Some (st', [])
  | Remove index =>
      st' ← remove_item index st;
      Some (st', [st_rerun])
  | ClearCart =>
      cart ← cart_of st;
      if decide (cart = []) then None
      else Some (write "cart" (PList []) st, [st_rerun])
  | Checkout =>
      cart ← cart_of st;
      if decide (cart = []) then None
      else
        t ← total cart;
        Some (write "cart" (PList []) st,
              [st_success (lit "Order placed! Total: $" ++ str_of_Z t);
               st_balloons; st_rerun])
  end.

Fixpoint run (clicks : list click) (st : session_state) : option session_state :=
  match clicks with
  | [] => Some st
  | c :: r => res ← handle c (Chapter4.cart_init st); run r res.1
  end.

(** An item as [add_to_cart] builds it from the catalogue. *)
Definition catalogue_item (i : pyval) : Prop :=
  ∃ product price emoji,
    Rbac.assoc products product = Some (price, emoji)
    ∧ i = PDict [("product", PStr product); ("price", PInt price)]%string.

End Cart.

Section CartProperties.

Import Cart.

Lemma cart_of_read (st : session_state) (cart : list pyval) :
  cart_of st = Some cart ↔ read "cart" st = Some (PList cart).
Proof.
  unfold cart_of. destruct (read "cart" st) as [[]|]; split; congruence.
Qed.

Lemma cart_init_keeps (st : session_state) (cart : list pyval) :
  cart_of st = Some cart → Chapter4.cart_init st = st.
Proof.
  intros H%cart_of_read. unfold Chapter4.cart_init, init_key. by rewrite H.
Qed.

Lemma cart_of_write (st : session_state) (cart : list pyval) :
  cart_of (write "cart" (PList cart) st) = Some cart.
Proof. unfold cart_of, read, write. by rewrite lookup_insert_eq. Qed.

Lemma catalogue_item_price (i : pyval) :
  catalogue_item i →
  ∃ p, item_price i = Some p ∧ 0 < p ∧ is_Some (item_emoji i).
Proof.
  intros (product & price & emoji & Hp & ->).
  exists price. split; [reflexivity|].
  split.
  - revert Hp. unfold products. cbn [Rbac.assoc].
    repeat (case_bool_decide; [intros [= <- _]; lia|]). done.
  - unfold item_emoji. cbn [item]. rewrite bool_decide_eq_true_2 by done.
    rewrite Hp. by eexists.
Qed.

Lemma total_catalogue (cart : list pyval) :
  Forall catalogue_item cart →
  ∃ t, total cart = Some t ∧ 0 ≤ t.
Proof.
  induction 1 as [|i cart Hi _ (t & Ht & Hpos)].
  - by exists 0.
  - destruct (catalogue_item_price i Hi) as (p & Hp & Hpp & _).
    exists (p + t). cbn [total]. rewrite Hp, Ht. split; [done|lia].
Qed.

Lemma total_app (cart : list pyval) (i : pyval) (t p : Z) :
  total cart = Some t → item_price i = Some p →
  total (cart ++ [i]) = Some (t + p).
Proof.
  revert t. induction cart as [|j cart IH]; intros t.
  - intros [= <-] Hp. cbn [app total]. rewrite Hp. cbn. f_equal. lia.
  - cbn [app total]. destruct (item_price j) as [q|]; [|done].
    destruct (total cart) as [t'|]; [|done]. intros [= <-] Hp.
    rewrite (IH t' eq_refl Hp). cbn. f_equal. lia.
Qed.

Lemma handle_keeps_catalogue (c : click) (st st' : session_state)
    (out : list ui) (cart : list pyval) :
  cart_of st = Some cart → Forall catalogue_item cart →
  handle c st = Some (st', out) →
  ∃ cart', cart_of st' = Some cart' ∧ Forall catalogue_item cart'.
Proof.
  intros Hc Hall. pose proof (proj1 (cart_of_read _ _) Hc) as Hread.
  destruct c as [product|index| |]; unfold handle.
  - destruct (Rbac.assoc products product) as [[price emoji]|] eqn:Hp; [|done].
    cbn [mbind option_bind fst]. unfold Chapter4.add_to_cart. rewrite Hread.
    cbn [mbind option_bind]. intros [= <- <-].
    eexists. split; [apply cart_of_write|].
    apply Forall_app. split; [done|]. apply Forall_singleton.
    by exists product, price, emoji.
  - unfold remove_item. rewrite Hread. case_decide; [|done].
    cbn [mbind option_bind]. intros [= <- <-].
    eexists. split; [apply cart_of_write|]. by apply Forall_delete.
  - rewrite Hc. cbn [mbind option_bind]. case_decide; [done|].
    intros [= <- <-]. eexists. split; [apply cart_of_write|]. constructor.
  - rewrite Hc. cbn [mbind option_bind]. case_decide; [done|].
    destruct (total cart); [|done]. cbn [mbind option_bind].
    intros [= <- <-]. eexists. split; [apply cart_of_write|]. constructor.
Qed.

(** X10. The cart of chapter 4 only ever holds items built from the
    catalogue.  So, from a session without a cart and after any clicks, the
    page draws without an exception: the total is defined and not negative,
    and the look-up of the emoji succeeds for every item. *)
Theorem cart_page_never_raises
    (st0 st : session_state) (clicks : list click) :
  read "cart" st0 = None →
  run clicks st0 = Some st →
  ∃ cart t,
    cart_of (Chapter4.cart_init st) = Some cart
    ∧ Forall catalogue_item cart
    ∧ total cart = Some t ∧ 0 ≤ t
    ∧ Forall (λ i, is_Some (item_emoji i)) cart.
Proof.
  intros Hnone Hrun.
  assert (Hinv : ∃ cart, cart_of (Chapter4.cart_init st) = Some cart
                         ∧ Forall catalogue_item cart).
  { assert (H0 : ∃ cart, cart_of (Chapter4.cart_init st0) = Some cart
                          ∧ Forall catalogue_item cart).
    { exists []. split; [|constructor].
      unfold Chapter4.cart_init, init_key. rewrite Hnone. apply cart_of_write. }
    clear Hnone. revert st0 Hrun H0.
    induction clicks as [|c clicks IH]; intros st0 Hrun H0.
    - injection Hrun as <-. exact H0.
    - cbn [run] in Hrun.
      destruct (handle c (Chapter4.cart_init st0)) as [[st1 out]|] eqn:Hh;
        [|done].
      cbn [mbind option_bind fst] in Hrun.
      apply (IH st1 Hrun). destruct H0 as (cart & Hc & Hall).
      destruct (handle_keeps_catalogue _ _ _ _ _ Hc Hall Hh)
        as (cart' & Hc' & Hall').
      exists cart'. by rewrite (cart_init_keeps _ _ Hc'). }
  destruct Hinv as (cart & Hc & Hall).
  destruct (total_catalogue cart Hall) as (t & Ht & Hpos).
  exists cart, t. split_and!; try done.
  eapply Forall_impl; [exact Hall|].
  intros i Hi. by destruct (catalogue_item_price i Hi) as (? & _ & _ & ?).
Qed.

Lemma cart_page_never_raises_witness :
  let clicks := [AddToCart (lit "Mouse"); AddToCart (lit "Laptop"); Remove 0] in
  let st := default ∅ (run clicks ∅) in
  read "cart" (∅ : session_state) = None
  ∧ run clicks ∅ = Some st
  ∧ ∃ cart t, cart_of (Chapter4.cart_init st) = Some cart
              ∧ Forall catalogue_item cart
              ∧ total cart = Some t ∧ 0 ≤ t
              ∧ Forall (λ i, is_Some (item_emoji i)) cart.
Proof.
  cbv zeta.
  assert (H1 : read "cart" (∅ : session_state) = None) by reflexivity.
  assert (H2 : run [AddToCart (lit "Mouse"); AddToCart (lit "Laptop"); Remove 0] ∅
               = Some (default ∅ (run [AddToCart (lit "Mouse");
                                       AddToCart (lit "Laptop"); Remove 0] ∅)))
    by (vm_compute; reflexivity).
  split; [exact H1|]. split; [exact H2|].
  exact (cart_page_never_raises ∅ _ _ H1 H2).
Defined.

(** X11. Adding a catalogue product puts one item at the end of the cart
    and raises the total by the catalogue price; removing that last item
    again gives back the cart as it was. *)
Theorem cart_add_then_remove_last
    (st : session_state) (cart : list pyval) (t : Z) (product : str)
    (price : Z) (emoji : str) :
  read "cart" st = Some (PList cart) →
  total cart = Some t →
  Rbac.assoc products product = Some (price, emoji) →
  let new := PDict [("product", PStr product); ("price", PInt price)]%string in
  ∃ st1 st2,
    handle (AddToCart product) st = Some (st1, [])
    ∧ read "cart" st1 = Some (PList (cart ++ [new]))
    ∧ total (cart ++ [new]) = Some (t + price)
    ∧ handle (Remove (length cart)) st1 = Some (st2, [st_rerun])
    ∧ read "cart" st2 = Some (PList cart)
    ∧ ∀ k, k ≠ "cart" → read k st2 = read k st.
Proof.
  intros Hread Ht Hp. cbv zeta.
  eexists _, _. split_and!.
  - unfold handle. rewrite Hp. cbn [mbind option_bind fst].
    unfold Chapter4.add_to_cart. rewrite Hread. reflexivity.
  - unfold read, write. apply lookup_insert_eq.
  - by apply total_app.
  - unfold handle, remove_item, read, write. rewrite lookup_insert_eq.
    rewrite decide_True by (rewrite length_app; cbn; lia).
    reflexivity.
  - unfold read, write. rewrite lookup_insert_eq. do 2 f_equal.
    clear. induction cart as [|i cart IH]; [reflexivity|].
    cbn [app length]. unfold delete, list_delete in *. cbn. by f_equal.
  - intros k Hk. unfold read, write. by rewrite !lookup_insert_ne.
Qed.

End CartProperties.

Lemma cart_add_then_remove_last_witness :
  let st : session_state := write "cart" (PList []) ∅ in
  read "cart" st = Some (PList [])
  ∧ Cart.total [] = Some 0
  ∧ Rbac.assoc Cart.products (lit "Mouse") = Some (25, lit "🖱️")
  ∧ ∃ st1, Cart.handle (Cart.AddToCart (lit "Mouse")) st = Some (st1, []).
Proof.
  cbv zeta.
  assert (H1 : read "cart" (write "cart" (PList []) (∅ : session_state))
               = Some (PList [])) by reflexivity.
  assert (H2 : Cart.total [] = Some 0) by reflexivity.
  assert (H3 : Rbac.assoc Cart.products (lit "Mouse") = Some (25, lit "🖱️"))
    by (vm_compute; reflexivity).
  split_and!; [exact H1|exact H2|exact H3|].
  destruct (cart_add_then_remove_last _ _ _ _ _ _ H1 H2 H3)
    as (st1 & _ & Hadd & _).
  by exists st1.
Defined.

(** * Chapter 13: how the counters of the real-time tab move *)

Section CounterProperties.

Import Chapter13.

Definition no_progress_write (i : interaction) : Prop :=
  ∀ k v, i = OtherWrite k v → k ≠ "progress".

(** X12. From a session without ['progress'], whatever is clicked, the
    progress value is always a multiple of ten between 0 and 100, so the bar
    only ever shows whole tenths. *)
Theorem progress_is_a_multiple_of_ten
    (st0 st : session_state) (trace : list interaction) :
  read "progress" st0 = None →
  Forall no_progress_write trace →
  run trace (progress_init st0) = Some st →
  ∃ k, read "progress" st = Some (PInt (10 * k)) ∧ 0 ≤ k ≤ 10.
Proof.
  intros Hnone Htrace.
  assert (H0 : ∃ k, read "progress" (progress_init st0) = Some (PInt (10 * k))
                    ∧ 0 ≤ k ≤ 10).
  { exists 0. split; [|lia]. unfold progress_init, init_key. rewrite Hnone.
    unfold read, write. apply lookup_insert_eq. }
  revert H0. generalize (progress_init st0). clear Hnone.
  induction Htrace as [|i trace Hi _ IH]; intros st1 (k & Hk & Hr) Hrun.
  - injection Hrun as <-. by exists k.
  - cbn [run] in Hrun.
    destruct (interact i st1) as [st2|] eqn:Hi2; [|done].
    cbn [mbind option_bind] in Hrun. apply (IH st2); [|exact Hrun].
    destruct i as [b|key v]; unfold interact in Hi2.
    + rewrite (progress_init_value _ _ Hk), (progress_click_value _ _ _ Hk)
        in Hi2.
      injection Hi2 as <-. unfold read, write. rewrite lookup_insert_eq.
      destruct b.
      * exists (Z.min 10 (k + 1)). split; [do 2 f_equal; lia|lia].
      * exists (Z.max 0 (k - 1)). split; [do 2 f_equal; lia|lia].
      * exists 0. split; [reflexivity|lia].
    + case_bool_decide as Hkey; [done|]. injection Hi2 as <-.
      exists k. split; [|done]. unfold read, write.
      by rewrite lookup_insert_ne.
Qed.

Lemma progress_is_a_multiple_of_ten_witness :
  let trace := [Click Add10; OtherWrite "refresh_count" (PInt 1);
                Click Add10; Click Subtract10] in
  let st := default ∅ (run trace (progress_init ∅)) in
  read "progress" (∅ : session_state) = None
  ∧ Forall no_progress_write trace
  ∧ run trace (progress_init ∅) = Some st
  ∧ ∃ k, read "progress" st = Some (PInt (10 * k)) ∧ 0 ≤ k ≤ 10.
Proof.
  cbv zeta.
  assert (H1 : read "progress" (∅ : session_state) = None) by reflexivity.
  assert (H2 : Forall no_progress_write
                 [Click Add10; OtherWrite "refresh_count" (PInt 1);
                  Click Add10; Click Subtract10]).
  { repeat constructor; intros k v [= <- _]; discriminate. }
  assert (H3 : run [Click Add10; OtherWrite "refresh_count" (PInt 1);
                    Click Add10; Click Subtract10] (progress_init ∅)
               = Some (default ∅
                         (run [Click Add10; OtherWrite "refresh_count" (PInt 1);
                               Click Add10; Click Subtract10]
                            (progress_init ∅))))
    by (vm_compute; reflexivity).
  split_and!; [exact H1|exact H2|exact H3|].
  exact (progress_is_a_multiple_of_ten ∅ _ _ H1 H2 H3).
Defined.

(** X13. "Add 10%" and "Subtract 10%" undo each other inside the range but
    not at its ends: from a value [p] in [0, 100], Add then Subtract leaves
    [min(p, 90)] and Subtract then Add leaves [max(p, 10)]. *)
Theorem progress_buttons_are_inverse_inside_the_range
    (st : session_state) (p : Z) :
  read "progress" st = Some (PInt p) →
  0 ≤ p ≤ 100 →
  (∃ st', run [Click Add10; Click Subtract10] st = Some st'
          ∧ read "progress" st' = Some (PInt (Z.min p 90)))
  ∧ (∃ st', run [Click Subtract10; Click Add10] st = Some st'
            ∧ read "progress" st' = Some (PInt (Z.max p 10))).
Proof.
  intros Hp Hr.
  assert (Hw : ∀ q, read "progress" (write "progress" (PInt q) st)
                    = Some (PInt q)).
  { intros q. unfold read, write. apply lookup_insert_eq. }
  split; cbn [run interact];
    rewrite (progress_init_value _ _ Hp), (progress_click_value _ _ _ Hp);
    cbn [fmap option_fmap option_map mbind option_bind fst];
    rewrite (progress_init_value _ _ (Hw _)),
      (progress_click_value _ _ _ (Hw _));
    cbn [fmap option_fmap option_map mbind option_bind fst];
    eexists; (split; [reflexivity|]);
    unfold read, write; rewrite lookup_insert_eq; do 2 f_equal; lia.
Qed.

Lemma progress_buttons_are_inverse_inside_the_range_witness :
  let st : session_state := write "progress" (PInt 100) ∅ in
  read "progress" st = Some (PInt 100)
  ∧ 0 ≤ 100 ≤ 100
  ∧ ∃ st', run [Click Add10; Click Subtract10] st = Some st'
           ∧ read "progress" st' = Some (PInt (Z.min 100 90)).
Proof.
  cbv zeta.
  assert (H1 : read "progress" (write "progress" (PInt 100) (∅ : session_state))
               = Some (PInt 100)) by reflexivity.
  assert (H2 : 0 ≤ 100 ≤ 100) by lia.
  split_and!; [exact H1|lia|lia|].
  exact (proj1 (progress_buttons_are_inverse_inside_the_range _ _ H1 H2)).
Defined.





End CounterProperties.

(** * Chapter 13: the update and delete tabs of the SQLite demo *)

Module Crud.

Import Sqlite.

(** The row has row id [key]. *)
Definition is_row (cols : list column) (key : Z) (row : list value) : bool :=
  bool_decide (key ∈ row_ids cols row).

(** The row after [SET name = ..., ...]: the named columns take the new
    values, as their affinity stores them, the others keep theirs. *)
Fixpoint set_columns (cols : list column) (assignments : list (string * value))
    (row : list value) : list value :=
  match cols, row with
  | c :: cs, v :: vs =>
      default v
        (coerce (affinity_of (col_type c))
           <$> assigned assignments (col_name c))
        :: set_columns cs assignments vs
  | _, _ => row
  end.

(** The rows of [UPDATE ... WHERE id = key], one after the other; [None]
    when a new row breaks a constraint against the other rows, which undoes
    the whole statement. *)
Fixpoint update_rows (cols : list column) (assignments : list (string * value))
    (key : Z) (before after : list (list value)) : option (list (list value)) :=
  match after with
  | [] => Some before
  | r :: rest =>
      if is_row cols key r then
        let r' := set_columns cols assignments r in
        if violates cols (before ++ rest) r' then None
        else update_rows cols assignments key (before ++ [r']) rest
      else update_rows cols assignments key (before ++ [r]) rest
  end.

(** [UPDATE t SET ... WHERE id = key] followed by [commit]. *)
Definition update (cols : list column) (t : table)
    (assignments : list (string * value)) (key : Z) : outcome :=
  match update_rows cols assignments key [] (rows t) with
  | Some rs => Done {| rows := rs; sequence := sequence t |}
  | None => IntegrityError
  end.

(** [DELETE FROM t WHERE id = key] followed by [commit]. *)
Definition delete (cols : list column) (t : table) (key : Z) : table :=
  {| rows := filter (λ r, is_row cols key r = false) (rows t);
     sequence := sequence t |}.

(** The options of the three role select boxes. *)
Definition role_options : list str := lit <$> ["user"; "admin"; "manager"]%string.

(** The body of [if st.form_submit_button("💾 Update User", ...)]. *)
Definition update_user (t : table) (user_id : Z)
    (new_name new_email new_role : str) : table * list ui :=
  match update users t
          [("name", TEXT new_name); ("email", TEXT new_email);
           ("role", TEXT new_role)]%string user_id with
  | Done t' => (t', [st_success (lit "✅ User updated successfully!"); st_rerun])
  | IntegrityError => (t, [st_error (lit "❌ Email already exists!")])
  end.

(** The body of [if st.button("🗑️ Delete User", ...)]. *)
Definition delete_user (t : table) (user_id : Z) : table * list ui :=
  (delete users t user_id, [st_success (lit "✅ User deleted"); st_rerun]).

(** The row the update form shows: [SELECT * FROM users WHERE id = ?] and
    [fetchone()]. *)
Definition fetch (t : table) (user_id : Z) : option (list value) :=
  head (filter (λ r, is_row users user_id r = true) (rows t)).

(** The position of the role select box of the update form,
    [["user", "admin", "manager"].index(current[3])]; [None] where Python
    raises ([ValueError], or no such row). *)
Definition role_index (t : table) (user_id : Z) : option nat :=
  current ← fetch t user_id;
  match current !! 3%nat with
  | Some (TEXT r) => fst <$> list_find (λ o, o = r) role_options
  | _ => None
  end.

(** [f"{v}"] for a value read from the table. *)
Definition fmt (v : value) : str :=
  match v with
  | NULL => lit "None"
  | INTEGER z => str_of_Z z
  | TEXT s => s
  end.

(** [d[k] = v] on a dictionary in insertion order: a key that is present
    keeps its place and takes the new value. *)
Fixpoint dict_set {V} (d : list (str * V)) (k : str) (v : V)
  : list (str * V) :=
  match d with
  | [] => [(k, v)]
  | (k', v') :: d' =>
      if decide (k' = k) then (k', v) :: d' else (k', v') :: dict_set d' k v
  end.

(** [user_options] of the update tab,
    [{f"{name} (ID: {id})": id for id, name in users}], over the rows in the
    order of the table. *)
Definition update_options (t : table) : list (str * Z) :=
  foldl (λ d r,
           match r with
           | INTEGER id :: name :: _ =>
               dict_set d (fmt name ++ lit " (ID: " ++ str_of_Z id ++ lit ")") id
           | _ => d
           end) [] (rows t).

(** [user_options] of the delete tab,
    [{f"{name} ({email})": id for id, name, email in users}]. *)
Definition delete_options (t : table) : list (str * Z) :=
  foldl (λ d r,
           match r with
           | INTEGER id :: name :: email_in :: _ =>
               dict_set d (fmt name ++ lit " (" ++ fmt email_in ++ lit ")") id
           | _ => d
           end) [] (rows t).

(** The three forms, with the values of their widgets; [user_id] is
    [user_options[selected]]. *)
Inductive event : Type :=
  | Create (name email_in role_in now : str)
  | Update (user_id : Z) (new_name new_email new_role : str)
  | Delete (user_id : Z).

Definition ids (t : table) : list Z := rows t ≫= row_ids users.

(** One submission.  [None] when the page does not offer it: the role comes
    from a select box, and the user to update or delete from the select box
    over the keys of [user_options]. *)
Definition step (t : table) (e : event) : option (table * list ui) :=
  match e with
  | Create name email_in role_in now =>
      if bool_decide (role_in ∈ role_options)
      then Some (create_user t name email_in role_in now) else None
  | Update user_id new_name new_email new_role =>
      if bool_decide (user_id ∈ (update_options t).*2)
         && bool_decide (new_role ∈ role_options)
      then Some (update_user t user_id new_name new_email new_role) else None
  | Delete user_id =>
      if bool_decide (user_id ∈ (delete_options t).*2)
      then Some (delete_user t user_id) else None
  end.

(** Submissions one after the other. *)
Fixpoint run (t : table) (es : list event) : option table :=
  match es with
  | [] => Some t
  | e :: es' =>
      match step t e with
      | Some (t', _) => run t' es'
      | None => None
      end
  end.

(** The tables the page can produce from a new database file. *)
Inductive reachable : table → Prop :=
  | reachable_empty : reachable empty
  | reachable_step t e t' out :
      reachable t → step t e = Some (t', out) → reachable t'.

(** A row as the page writes them. *)
Definition user_row (r : list value) : Prop :=
  ∃ id name email_in role_in created_at,
    r = [INTEGER id; TEXT name; TEXT email_in; TEXT role_in; TEXT created_at]
    ∧ role_in ∈ role_options.

Definition row_id (r : list value) : option value := r !! 0%nat.
Definition row_email (r : list value) : option value := r !! 2%nat.

End Crud.

(** ** Decimal strings, for the labels of the select boxes *)

Section Labels.

#[local] Transparent str_of_Z.

Lemma chr_ascii_ord (a : Ascii.ascii) :
  ord (chr (Ascii.N_of_ascii a)) = Ascii.N_of_ascii a.
Proof.
  apply ord_chr, is_scalar_spec. left.
  pose proof (Ascii.N_ascii_bounded a). lia.
Qed.

Lemma str_of_Z_inj (a b : Z) : str_of_Z a = str_of_Z b → a = b.
Proof.
  unfold str_of_Z. intros H.
  apply (inj pretty).
  rewrite <-(String.string_of_list_ascii_of_string (pretty a)).
  rewrite <-(String.string_of_list_ascii_of_string (pretty b)).
  f_equal. revert H.
  generalize (String.list_ascii_of_string (pretty a)).
  generalize (String.list_ascii_of_string (pretty b)).
  intros l2 l1. revert l2.
  induction l1 as [|x l1 IH]; intros [|y l2] H; try done.
  cbn [fmap list_fmap] in H. injection H as H1 H2.
  f_equal; [|by apply IH].
  apply (f_equal ord) in H1. rewrite !chr_ascii_ord in H1.
  rewrite <-(Ascii.ascii_N_embedding x), <-(Ascii.ascii_N_embedding y).
  by rewrite H1.
Qed.

(** No character of a string is a space. *)
Definition no_space (s : string) : Prop :=
  Forall (λ a, Ascii.N_of_ascii a ≠ 32%N) (String.list_ascii_of_string s).

Lemma pretty_N_go_no_space (x : N) :
  ∀ s, no_space s → no_space (pretty_N_go x s).
Proof.
  induction (N.lt_wf_0 x) as [x _ IH]; intros s Hs.
  assert (x = 0 ∨ 0 < x)%N as [->|?] by lia.
  - by rewrite pretty_N_go_0.
  - rewrite pretty_N_go_step by done. apply IH.
    { by apply N.div_lt. }
    constructor; [|exact Hs].
    unfold pretty_N_char. by repeat case_match.
Qed.

Lemma pretty_N_no_space (x : N) : no_space (pretty x).
Proof.
  unfold pretty, pretty_N. case_decide.
  - by repeat constructor.
  - apply pretty_N_go_no_space. constructor.
Qed.

Lemma str_of_Z_no_space (z : Z) (c : char) : c ∈ str_of_Z z → ord c ≠ 32%N.
Proof.
  unfold str_of_Z. intros (a & -> & Ha)%list_elem_of_fmap.
  rewrite chr_ascii_ord.
  assert (no_space (pretty z)) as Hn.
  { unfold pretty, pretty_Z. destruct z as [|p|p].
    - by repeat constructor.
    - apply pretty_N_no_space.
    - constructor; [done|]. apply pretty_N_no_space. }
  unfold no_space in Hn. rewrite Forall_forall in Hn. by apply Hn.
Qed.

(** The part of a string after its last space. *)
Lemma after_last_space (a1 a2 b1 b2 : str) (sp : char) :
  sp ∉ b1 → sp ∉ b2 → a1 ++ sp :: b1 = a2 ++ sp :: b2 → b1 = b2.
Proof.
  intros H1 H2. revert a2.
  induction a1 as [|x a1 IH]; intros [|y a2] E; cbn [app] in E.
  - by injection E.
  - injection E as -> ->. destruct H1. apply elem_of_app. right.
    apply list_elem_of_here.
  - injection E as <- <-. destruct H2. apply elem_of_app. right.
    apply list_elem_of_here.
  - injection E as _ E. by eapply IH.
Qed.

End Labels.

Section CrudProperties.

Import Sqlite Crud.

Implicit Types (t : table) (r : list value) (rs : list (list value)).

(** The invariant of the table behind the page. *)
Definition table_inv (t : table) : Prop :=
  Forall user_row (rows t)
  ∧ NoDup (row_id <$> rows t)
  ∧ NoDup (row_email <$> rows t)
  ∧ Forall (λ z, 1 ≤ z ≤ sequence t) (ids t)
  ∧ 0 ≤ sequence t.

Lemma user_row_ids r :
  user_row r → ∃ id, row_id r = Some (INTEGER id) ∧ row_ids users r = [id].
Proof.
  intros (id & n & e & ro & c & -> & _). exists id. split; reflexivity.
Qed.

Lemma is_row_users r (key id : Z) :
  row_id r = Some (INTEGER id) → is_row users key r = bool_decide (key = id).
Proof.
  intros H. unfold is_row. rewrite (row_ids_users_head _ _ H).
  apply bool_decide_ext. rewrite list_elem_of_singleton. done.
Qed.

Lemma is_row_self (key : Z) (a b c d : value) :
  is_row users key [INTEGER key; a; b; c; d] = true.
Proof.
  rewrite (is_row_users _ key key) by reflexivity.
  by apply bool_decide_eq_true_2.
Qed.

Lemma ids_elem_of t (z : Z) :
  Forall user_row (rows t) →
  z ∈ ids t ↔ Some (INTEGER z) ∈ row_id <$> rows t.
Proof.
  intros Hrows. unfold ids. rewrite list_elem_of_bind, list_elem_of_fmap.
  split.
  - intros (r & Hz & Hr). exists r. split; [|done].
    rewrite Forall_forall in Hrows.
    destruct (user_row_ids r (Hrows _ Hr)) as (id & Hid & E).
    rewrite E in Hz. apply list_elem_of_singleton in Hz. by subst.
  - intros (r & Hz & Hr). exists r. split; [|done].
    rewrite (row_ids_users_head r z) by done. apply list_elem_of_here.
Qed.

Lemma update_rows_none cols assignments (key : Z) rs :
  Forall (λ r, is_row cols key r = false) rs →
  ∀ before, update_rows cols assignments key before rs = Some (before ++ rs).
Proof.
  induction 1 as [|r rs Hr _ IH]; intros before; cbn [update_rows].
  - by rewrite app_nil_r.
  - rewrite Hr, IH, <-app_assoc. reflexivity.
Qed.

Lemma update_rows_one cols assignments (key : Z) rs1 r rs2 :
  Forall (λ r, is_row cols key r = false) rs1 →
  is_row cols key r = true →
  Forall (λ r, is_row cols key r = false) rs2 →
  ∀ before,
    update_rows cols assignments key before (rs1 ++ r :: rs2)
    = if violates cols (before ++ rs1 ++ rs2) (set_columns cols assignments r)
      then None
      else Some (before ++ rs1 ++ set_columns cols assignments r :: rs2).
Proof.
  intros H1 Hr H2. induction H1 as [|x rs1 Hx _ IH]; intros before.
  - cbn [app update_rows]. rewrite Hr. cbv zeta.
    destruct (violates _ _ _); [done|].
    rewrite update_rows_none by done. by rewrite <-app_assoc.
  - cbn [app update_rows]. rewrite Hx, IH, <-!app_assoc. reflexivity.
Qed.

Lemma set_columns_users (name email_in role_in : str) (id : Z)
    (a b c d : value) :
  set_columns users
    [("name", TEXT name); ("email", TEXT email_in);
     ("role", TEXT role_in)]%string
    [INTEGER id; a; b; c; d]
  = [INTEGER id; TEXT name; TEXT email_in; TEXT role_in; d].
Proof. reflexivity. Qed.



Lemma max_list_le (l : list Z) (b : Z) :
  0 ≤ b → Forall (λ z, 1 ≤ z ≤ b) l → max_list l ≤ b.
Proof.
  intros Hb. unfold max_list. induction 1; cbn [foldr]; lia.
Qed.

Lemma next_row_id_inv t : table_inv t → next_row_id users t = sequence t + 1.
Proof.
  intros (_ & _ & _ & Hseq & H0). unfold next_row_id.
  pose proof (max_list_le _ _ H0 Hseq). unfold ids in *. lia.
Qed.

Lemma split_at_id t (key : Z) :
  table_inv t → key ∈ ids t →
  ∃ rs1 rs2 name email_in role_in created_at,
    rows t = rs1 ++ [INTEGER key; TEXT name; TEXT email_in; TEXT role_in;
                     TEXT created_at] :: rs2
    ∧ role_in ∈ role_options
    ∧ Forall (λ r, is_row users key r = false) (rs1 ++ rs2).
Proof.
  intros (Hrows & Hids & _) Hkey.
  apply ids_elem_of in Hkey; [|done].
  apply list_elem_of_fmap in Hkey as (r & Hid & Hr).
  apply list_elem_of_split in Hr as (rs1 & rs2 & E).
  rewrite E in Hrows, Hids.
  apply Forall_app in Hrows as [H1 H2]. apply Forall_cons in H2 as [Hu H2].
  destruct Hu as (id & n & e & ro & c & -> & Hro). injection Hid as <-.
  exists rs1, rs2, n, e, ro, c. split; [done|]. split; [done|].
  rewrite fmap_app, fmap_cons in Hids.
  apply NoDup_app in Hids as (_ & Hd1 & Hd2).
  apply NoDup_cons in Hd2 as [Hd2 _].
  apply Forall_app. split; apply Forall_forall; intros x Hx.
  - rewrite Forall_forall in H1.
    destruct (user_row_ids x (H1 _ Hx)) as (id & Hid & _).
    rewrite (is_row_users _ _ _ Hid). apply bool_decide_eq_false_2. intros ->.
    apply (Hd1 (Some (INTEGER id))).
    + apply list_elem_of_fmap. eauto.
    + apply list_elem_of_here.
  - rewrite Forall_forall in H2.
    destruct (user_row_ids x (H2 _ Hx)) as (id & Hid & _).
    rewrite (is_row_users _ _ _ Hid). apply bool_decide_eq_false_2. intros ->.
    apply Hd2, list_elem_of_fmap. eauto.
Qed.

Lemma taken_id_false rs (key : Z) :
  Forall user_row rs →
  Forall (λ r, is_row users key r = false) rs →
  taken rs 0 (INTEGER key) = false.
Proof.
  intros Hu Hn. apply bool_decide_eq_false_2. rewrite Exists_exists.
  intros (r & Hr & Hid). rewrite Forall_forall in Hn.
  specialize (Hn _ Hr). rewrite (is_row_users _ _ _ Hid) in Hn.
  by apply bool_decide_eq_false in Hn.
Qed.

(** What the UPDATE of the update form does on a table of the page. *)
Lemma update_user_cases t (key : Z) (new_name new_email new_role : str)
    rs1 rs2 (name email_in role_in created_at : str) :
  Forall user_row (rs1 ++ rs2) →
  Forall (λ r, is_row users key r = false) (rs1 ++ rs2) →
  rows t = rs1 ++ [INTEGER key; TEXT name; TEXT email_in; TEXT role_in;
                   TEXT created_at] :: rs2 →
  update_user t key new_name new_email new_role
  = if taken (rs1 ++ rs2) 2 (TEXT new_email)
    then (t, [st_error (lit "❌ Email already exists!")])
    else ({| rows := rs1 ++ [INTEGER key; TEXT new_name; TEXT new_email;
                             TEXT new_role; TEXT created_at] :: rs2;
             sequence := sequence t |},
          [st_success (lit "✅ User updated successfully!"); st_rerun]).
Proof.
  intros Hu Hn E. unfold update_user, update. rewrite E.
  apply Forall_app in Hn as [Hn1 Hn2].
  rewrite (update_rows_one users _ key rs1 _ rs2 Hn1);
    [|by apply is_row_self|exact Hn2].
  rewrite set_columns_users. cbn [app]. rewrite violates_users.
  rewrite taken_id_false; [|done|by apply Forall_app].
  cbn [orb]. rewrite !bool_decide_eq_false_2 by discriminate. cbn [orb].
  by destruct (taken _ _ _).
Qed.

Lemma filter_all {A} (P : A → Prop) `{∀ x, Decision (P x)} (l : list A) :
  Forall P l → filter P l = l.
Proof.
  induction 1 as [|x l Hx _ IH]; [done|].
  rewrite filter_cons_True by done. by rewrite IH.
Qed.

Lemma delete_rows t (key : Z) rs1 r rs2 :
  Forall (λ r, is_row users key r = false) (rs1 ++ rs2) →
  is_row users key r = true →
  rows t = rs1 ++ r :: rs2 →
  delete users t key = {| rows := rs1 ++ rs2; sequence := sequence t |}.
Proof.
  intros [H1 H2]%Forall_app Hr E. unfold delete. f_equal. rewrite E.
  rewrite filter_app, filter_cons_False by (rewrite Hr; done).
  by rewrite !filter_all.
Qed.

Lemma ids_app_rows rs1 rs2 :
  (rs1 ++ rs2) ≫= row_ids users
  = (rs1 ≫= row_ids users) ++ (rs2 ≫= row_ids users).
Proof. apply bind_app. Qed.

Lemma not_is_row_ids rs (key : Z) :
  Forall (λ r, is_row users key r = false) rs →
  key ∉ (rs ≫= row_ids users).
Proof.
  intros Hn (r & Hk & Hr)%list_elem_of_bind. rewrite Forall_forall in Hn.
  specialize (Hn _ Hr). by apply bool_decide_eq_false in Hn.
Qed.

Lemma dict_set_values {V} (d : list (str * V)) (k : str) (v z : V) :
  z ∈ (dict_set d k v).*2 → z = v ∨ z ∈ d.*2.
Proof.
  induction d as [|[k' v'] d IH]; cbn [dict_set].
  - intros ->%list_elem_of_singleton. by left.
  - destruct (decide (k' = k)); cbn [fmap list_fmap snd];
      intros [->|H]%elem_of_cons.
    + by left.
    + right. by apply list_elem_of_further.
    + right. apply list_elem_of_here.
    + destruct (IH H); [by left|right]. by apply list_elem_of_further.
Qed.

Lemma options_values (f : list (str * Z) → list value → list (str * Z)) :
  (∀ d r z, z ∈ (f d r).*2 → z ∈ d.*2 ∨ z ∈ row_ids users r) →
  ∀ rs d z, z ∈ (foldl f d rs).*2 → z ∈ d.*2 ∨ z ∈ rs ≫= row_ids users.
Proof.
  intros Hf. induction rs as [|r rs IH]; intros d z; cbn [foldl]; [by left|].
  intros [H|H]%IH.
  - apply Hf in H as [H|H]; [by left|right].
    apply list_elem_of_bind. exists r. split; [done|apply list_elem_of_here].
  - right. apply list_elem_of_bind in H as (r' & ? & ?).
    apply list_elem_of_bind. exists r'. split; [done|].
    by apply list_elem_of_further.
Qed.

Lemma update_options_ids t (z : Z) : z ∈ (update_options t).*2 → z ∈ ids t.
Proof.
  intros H. apply options_values in H as [H|H]; [by inversion H|exact H|].
  clear. intros d r z.
  destruct r as [|[| id |] [|name r]]; try (by left).
  intros [->|H]%dict_set_values; [right|by left].
  rewrite (row_ids_users_head _ id) by done. apply list_elem_of_here.
Qed.

Lemma delete_options_ids t (z : Z) : z ∈ (delete_options t).*2 → z ∈ ids t.
Proof.
  intros H. apply options_values in H as [H|H]; [by inversion H|exact H|].
  clear. intros d r z.
  destruct r as [|[| id |] [|name [|em r]]]; try (by left).
  intros [->|H]%dict_set_values; [right|by left].
  rewrite (row_ids_users_head _ id) by done. apply list_elem_of_here.
Qed.

(** What a submission does to a table of the page: nothing, or one row
    more, or one row rewritten, or one row less. *)
Lemma step_cases t (e : event) t' (out : list ui) :
  table_inv t → step t e = Some (t', out) →
  t' = t
  ∨ (∃ name email_in role_in now,
       e = Create name email_in role_in now
       ∧ role_in ∈ role_options
       ∧ ¬ email_exists t email_in
       ∧ t' = {| rows := rows t
                         ++ [[INTEGER (sequence t + 1); TEXT name;
                              TEXT email_in; TEXT role_in; TEXT now]];
                 sequence := sequence t + 1 |})
  ∨ (∃ rs1 rs2 key name email_in role_in created_at new_name new_email new_role,
       e = Update key new_name new_email new_role
       ∧ rows t = rs1 ++ [INTEGER key; TEXT name; TEXT email_in; TEXT role_in;
                          TEXT created_at] :: rs2
       ∧ new_role ∈ role_options
       ∧ ¬ Exists (λ r, row_email r = Some (TEXT new_email)) (rs1 ++ rs2)
       ∧ t' = {| rows := rs1 ++ [INTEGER key; TEXT new_name; TEXT new_email;
                                 TEXT new_role; TEXT created_at] :: rs2;
                 sequence := sequence t |})
  ∨ (∃ rs1 rs2 key r,
       e = Delete key
       ∧ rows t = rs1 ++ r :: rs2
       ∧ row_id r = Some (INTEGER key)
       ∧ (key ∉ (rs1 ++ rs2) ≫= row_ids users)
       ∧ t' = {| rows := rs1 ++ rs2; sequence := sequence t |}).
Proof.
  intros Hinv Hstep.
  destruct e as [n em ro now|k n em ro|k]; cbn [step] in Hstep.
  - case_bool_decide as Hro; [|done]. injection Hstep as Ht.
    apply (f_equal fst) in Ht. cbn [fst] in Ht. subst t'.
    unfold create_user. destruct (_ || _); [by left|].
    destruct (insert_users_text_cases t n em ro now)
      as [[_ E]|(_ & _ & Hfree & E)]; rewrite E; cbn [fst]; [by left|].
    right. left. exists n, em, ro, now.
    by rewrite (next_row_id_inv t Hinv).
  - destruct (bool_decide (k ∈ _)) eqn:Hk; [|done].
    destruct (bool_decide (ro ∈ role_options)) eqn:Hro; [|done].
    apply bool_decide_eq_true in Hk, Hro. apply update_options_ids in Hk.
    injection Hstep as Ht. apply (f_equal fst) in Ht. cbn [fst] in Ht. subst t'.
    destruct (split_at_id t k Hinv Hk)
      as (rs1 & rs2 & n0 & e0 & ro0 & c0 & E & Hro0 & Hn).
    destruct Hinv as (Hu & _).
    assert (Forall user_row (rs1 ++ rs2)) as Hu'.
    { rewrite E in Hu. apply Forall_app in Hu as [? [_ ?]%Forall_cons].
      by apply Forall_app. }
    rewrite (update_user_cases t k n em ro rs1 rs2 n0 e0 ro0 c0 Hu' Hn E).
    destruct (taken _ _ _) eqn:Htaken; cbn [fst]; [by left|].
    apply bool_decide_eq_false in Htaken.
    right. right. left. by exists rs1, rs2, k, n0, e0, ro0, c0, n, em, ro.
  - case_bool_decide as Hk; [|done]. apply delete_options_ids in Hk.
    injection Hstep as Ht _. subst t'.
    destruct (split_at_id t k Hinv Hk)
      as (rs1 & rs2 & n0 & e0 & ro0 & c0 & E & Hro0 & Hn).
    rewrite (delete_rows t k rs1 _ rs2 Hn (is_row_self _ _ _ _ _) E).
    right. right. right. eexists rs1, rs2, k, _.
    split_and!; [done..| |done]. by apply not_is_row_ids.
Qed.

(** Every submission keeps the invariant. *)
Lemma step_keeps_inv t (e : event) t' (out : list ui) :
  table_inv t → step t e = Some (t', out) → table_inv t'.
Proof.
  intros Hinv Hstep.
  destruct (step_cases t e t' out Hinv Hstep)
    as [->|[(n & em & ro & now & _ & Hro & Hfree & ->)
       |[(rs1 & rs2 & k & n0 & e0 & ro0 & c0 & n & em & ro & _ & E & Hro
            & Hfree & ->)
        |(rs1 & rs2 & k & r & _ & E & _ & _ & ->)]]]; [exact Hinv|..].
  - pose proof (next_row_id_fresh t) as Hfresh.
    rewrite (next_row_id_inv t Hinv) in Hfresh.
    destruct Hinv as (Hu & Hids & Hem & Hseq & H0).
    unfold table_inv, ids. cbn [rows sequence].
    rewrite !fmap_app, ids_app_rows. split_and!.
    + apply Forall_app. split; [done|]. apply Forall_singleton.
      by exists (sequence t + 1), n, em, ro, now.
    + apply NoDup_app. split_and!; [done| |apply NoDup_singleton].
      intros x Hx ->%list_elem_of_singleton.
      apply bool_decide_eq_false in Hfresh. apply Hfresh, Exists_exists.
      apply list_elem_of_fmap in Hx as (r & Hr & ?). by exists r.
    + apply NoDup_app. split_and!; [done| |apply NoDup_singleton].
      intros x Hx ->%list_elem_of_singleton.
      apply Hfree, Exists_exists.
      apply list_elem_of_fmap in Hx as (r & Hr & ?). by exists r.
    + apply Forall_app. split.
      * eapply Forall_impl; [exact Hseq|]. intros z Hz. cbv beta in *. lia.
      * apply Forall_singleton. lia.
    + lia.
  - destruct Hinv as (Hu & Hids & Hem & Hseq & H0).
    unfold table_inv, ids in *. cbn [rows sequence].
    rewrite E in Hu, Hids, Hem, Hseq.
    rewrite fmap_app, fmap_cons in Hids, Hem. rewrite !fmap_app, !fmap_cons.
    rewrite ids_app_rows in *.
    apply Forall_app in Hu as [Hu1 [(_ & _ & _ & ? & _ & [= _ _ _ <- _] & Hro0)
                                      Hu2]%Forall_cons].
    split_and!.
    + apply Forall_app. split; [done|]. apply Forall_cons. split; [|done].
      by exists k, n, em, ro, c0.
    + exact Hids.
    + apply NoDup_app in Hem as (Hd1 & Hd12 & Hd2).
      apply NoDup_cons in Hd2 as [_ Hd2].
      apply NoDup_app. split_and!; [done| |].
      * intros x Hx Hx2. apply elem_of_cons in Hx2 as [->|Hx2].
        -- apply Hfree, Exists_exists.
           apply list_elem_of_fmap in Hx as (r & Hr & ?).
           exists r. split; [|done]. apply elem_of_app. by left.
        -- apply (Hd12 x Hx). by apply list_elem_of_further.
      * apply NoDup_cons. split; [|done]. intros Hx.
        apply Hfree, Exists_exists.
        apply list_elem_of_fmap in Hx as (r & Hr & ?).
        exists r. split; [|done]. apply elem_of_app. by right.
    + exact Hseq.
    + exact H0.
  - destruct Hinv as (Hu & Hids & Hem & Hseq & H0).
    unfold table_inv, ids in *. cbn [rows sequence].
    rewrite E in Hu, Hids, Hem, Hseq.
    rewrite fmap_app, fmap_cons in Hids, Hem. rewrite ids_app_rows in Hseq.
    rewrite !fmap_app, ids_app_rows.
    apply Forall_app in Hu as [Hu1 [_ Hu2]%Forall_cons].
    apply NoDup_app in Hids as (Hi1 & Hi12 & [_ Hi2]%NoDup_cons).
    apply NoDup_app in Hem as (He1 & He12 & [_ He2]%NoDup_cons).
    apply Forall_app in Hseq as [Hs1 Hs2].
    change ((?r :: rs2) ≫= row_ids users)
      with (row_ids users r ++ (rs2 ≫= row_ids users)) in Hs2.
    apply Forall_app in Hs2 as [_ Hs2].
    split_and!.
    + by apply Forall_app.
    + apply NoDup_app. split_and!; [done| |done].
      intros x Hx Hx2. apply (Hi12 x Hx). by apply list_elem_of_further.
    + apply NoDup_app. split_and!; [done| |done].
      intros x Hx Hx2. apply (He12 x Hx). by apply list_elem_of_further.
    + by apply Forall_app.
    + exact H0.
Qed.

Lemma reachable_inv t : reachable t → table_inv t.
Proof.
  induction 1 as [|t e t' out _ IH Hstep].
  - unfold table_inv, ids, empty. cbn [rows sequence fmap list_fmap].
    split_and!; [constructor|constructor|constructor|constructor|done].
  - by eapply step_keeps_inv.
Qed.


Lemma step_ids t (e : event) t' (out : list ui) :
  table_inv t → step t e = Some (t', out) →
  sequence t ≤ sequence t'
  ∧ ∀ z, z ∈ ids t' → z ∈ ids t ∨ sequence t < z.
Proof.
  intros Hinv Hstep.
  destruct (step_cases t e t' out Hinv Hstep)
    as [->|[(n & em & ro & now & _ & Hro & Hfree & ->)
       |[(rs1 & rs2 & k & n0 & e0 & ro0 & c0 & n & em & ro & _ & E & Hro
            & Hfree & ->)
        |(rs1 & rs2 & k & r & _ & E & _ & _ & ->)]]];
    unfold ids; cbn [rows sequence].
  - split; [lia|]. by left.
  - split; [lia|]. intros z. rewrite ids_app_rows.
    intros [H|H]%elem_of_app; [by left|right].
    apply list_elem_of_bind in H as (r & Hz & ->%list_elem_of_singleton).
    apply list_elem_of_singleton in Hz. lia.
  - split; [lia|]. intros z Hz. left. rewrite E.
    rewrite ids_app_rows in *. apply elem_of_app in Hz as [Hz|Hz].
    + apply elem_of_app. by left.
    + apply elem_of_app. right. exact Hz.
  - split; [lia|]. intros z Hz. left. rewrite E.
    rewrite ids_app_rows in *. apply elem_of_app in Hz as [Hz|Hz].
    + apply elem_of_app. by left.
    + apply elem_of_app. right.
      change ((r :: rs2) ≫= row_ids users)
        with (row_ids users r ++ (rs2 ≫= row_ids users)).
      apply elem_of_app. by right.
Qed.

Lemma run_ids (es : list event) :
  ∀ t t', table_inv t → run t es = Some t' →
  table_inv t'
  ∧ sequence t ≤ sequence t'
  ∧ ∀ z, z ∈ ids t' → z ∈ ids t ∨ sequence t < z.
Proof.
  induction es as [|e es IH]; intros t t' Hinv Hrun; cbn [run] in Hrun.
  - injection Hrun as <-. split_and!; [done|lia|]. by left.
  - destruct (step t e) as [[t1 out]|] eqn:Hstep; [|done].
    pose proof (step_keeps_inv _ _ _ _ Hinv Hstep) as Hinv1.
    destruct (step_ids _ _ _ _ Hinv Hstep) as [Hs1 Hi1].
    destruct (IH _ _ Hinv1 Hrun) as (Hinv' & Hs' & Hi').
    split_and!; [done|lia|].
    intros z [Hz|Hz]%Hi'; [|right; lia]. by apply Hi1.
Qed.

Lemma run_reachable (es : list event) :
  ∀ t t', reachable t → run t es = Some t' → reachable t'.
Proof.
  induction es as [|e es IH]; intros t t' Hr Hrun; cbn [run] in Hrun.
  - by injection Hrun as <-.
  - destruct (step t e) as [[t1 out]|] eqn:Hstep; [|done].
    eapply IH; [|exact Hrun]. by eapply reachable_step.
Qed.

(** The table after one successful submission of the create form. *)
Definition one_user : table :=
  (create_user empty (lit "Ann") (lit "ann@example.com") (lit "user")
     (lit "2024-01-01 00:00:00")).1.

Lemma one_user_reachable : reachable one_user.
Proof.
  apply (reachable_step empty
           (Create (lit "Ann") (lit "ann@example.com") (lit "user")
              (lit "2024-01-01 00:00:00")) _
           (create_user empty (lit "Ann") (lit "ann@example.com") (lit "user")
              (lit "2024-01-01 00:00:00")).2).
  - constructor.
  - vm_compute. reflexivity.
Defined.

(** X15. In every table the page can produce, each row holds an integer id,
    then name, e-mail address, role and creation time as text, with the role
    one of the three of the select boxes; no two rows share an id or an
    e-mail address; and every id lies between 1 and the counter of the
    table. *)
Theorem users_rows_are_unique (t : table) :
  reachable t →
  Forall user_row (rows t)
  ∧ (∀ i j r1 r2,
       rows t !! i = Some r1 → rows t !! j = Some r2 →
       row_id r1 = row_id r2 ∨ row_email r1 = row_email r2 → i = j)
  ∧ Forall (λ z, 1 ≤ z ≤ sequence t) (ids t).
Proof.
  intros (Hu & Hids & Hem & Hseq & _)%reachable_inv.
  split_and!; [done| |done].
  intros i j r1 r2 H1 H2 [E|E].
  - eapply NoDup_lookup; [exact Hids|..];
      rewrite list_lookup_fmap; [by rewrite H1|by rewrite H2, E].
  - eapply NoDup_lookup; [exact Hem|..];
      rewrite list_lookup_fmap; [by rewrite H1|by rewrite H2, E].
Qed.

Lemma users_rows_are_unique_witness :
  Forall user_row (rows one_user)
  ∧ (∀ i j r1 r2,
       rows one_user !! i = Some r1 → rows one_user !! j = Some r2 →
       row_id r1 = row_id r2 ∨ row_email r1 = row_email r2 → i = j)
  ∧ Forall (λ z, 1 ≤ z ≤ sequence one_user) (ids one_user).
Proof. exact (users_rows_are_unique one_user one_user_reachable). Defined.

(** X16. The update form on a table the page can produce.  The row with the
    selected id is the only one that changes: it takes the new name, e-mail
    address and role and keeps its id, its place and its creation time.  The
    update is refused with "Email already exists!", the table unchanged,
    exactly when another row holds the new e-mail address; the name and the
    e-mail address may be empty, and saving the form unchanged succeeds. *)
Theorem update_user_rewrites_one_row
    (t : table) (key : Z) (new_name new_email new_role : str) :
  reachable t →
  key ∈ ids t →
  ∃ rs1 rs2 name email_in role_in created_at,
    rows t = rs1 ++ [INTEGER key; TEXT name; TEXT email_in; TEXT role_in;
                     TEXT created_at] :: rs2
    ∧ (Exists (λ r, row_email r = Some (TEXT new_email)) (rs1 ++ rs2) →
         update_user t key new_name new_email new_role
         = (t, [st_error (lit "❌ Email already exists!")]))
    ∧ (¬ Exists (λ r, row_email r = Some (TEXT new_email)) (rs1 ++ rs2) →
         update_user t key new_name new_email new_role
         = ({| rows := rs1 ++ [INTEGER key; TEXT new_name; TEXT new_email;
                               TEXT new_role; TEXT created_at] :: rs2;
               sequence := sequence t |},
            [st_success (lit "✅ User updated successfully!"); st_rerun])).
Proof.
  intros Hinv%reachable_inv Hk.
  destruct (split_at_id t key Hinv Hk)
    as (rs1 & rs2 & n0 & e0 & ro0 & c0 & E & Hro0 & Hn).
  exists rs1, rs2, n0, e0, ro0, c0. split; [exact E|].
  destruct Hinv as (Hu & _).
  assert (Forall user_row (rs1 ++ rs2)) as Hu'.
  { rewrite E in Hu. apply Forall_app in Hu as [? [_ ?]%Forall_cons].
    by apply Forall_app. }
  rewrite (update_user_cases t key new_name new_email new_role rs1 rs2
             n0 e0 ro0 c0 Hu' Hn E).
  unfold taken. case_bool_decide as Ht; split; intros H; done.
Qed.

Lemma update_user_rewrites_one_row_witness :
  ∃ rs1 rs2 name email_in role_in created_at,
    rows one_user
    = rs1 ++ [INTEGER 1; TEXT name; TEXT email_in; TEXT role_in;
              TEXT created_at] :: rs2
    ∧ (Exists (λ r, row_email r = Some (TEXT (lit "ann@example.com")))
         (rs1 ++ rs2) →
         update_user one_user 1 [] (lit "ann@example.com") (lit "admin")
         = (one_user, [st_error (lit "❌ Email already exists!")]))
    ∧ (¬ Exists (λ r, row_email r = Some (TEXT (lit "ann@example.com")))
           (rs1 ++ rs2) →
         update_user one_user 1 [] (lit "ann@example.com") (lit "admin")
         = ({| rows := rs1 ++ [INTEGER 1; TEXT []; TEXT (lit "ann@example.com");
                               TEXT (lit "admin"); TEXT created_at] :: rs2;
               sequence := sequence one_user |},
            [st_success (lit "✅ User updated successfully!"); st_rerun])).
Proof.
  apply (update_user_rewrites_one_row one_user 1 [] (lit "ann@example.com")
           (lit "admin") one_user_reachable).
  vm_compute. apply list_elem_of_here.
Defined.


(** X17. The delete button on a table the page can produce removes the row
    with the selected id and no other: the rows before and after it stay as
    they are, in their order, and the counter of the table is unchanged. *)
Theorem delete_user_removes_one_row (t : table) (key : Z) :
  reachable t →
  key ∈ ids t →
  ∃ rs1 r rs2,
    rows t = rs1 ++ r :: rs2
    ∧ row_id r = Some (INTEGER key)
    ∧ delete_user t key
      = ({| rows := rs1 ++ rs2; sequence := sequence t |},
         [st_success (lit "✅ User deleted"); st_rerun])
    ∧ key ∉ ids (delete_user t key).1.
Proof.
  intros Hinv%reachable_inv Hk.
  destruct (split_at_id t key Hinv Hk)
    as (rs1 & rs2 & n0 & e0 & ro0 & c0 & E & Hro0 & Hn).
  eexists rs1, _, rs2. split; [exact E|]. split; [reflexivity|].
  unfold delete_user. cbn [fst].
  rewrite (delete_rows t key rs1 _ rs2 Hn (is_row_self _ _ _ _ _) E).
  split; [reflexivity|]. by apply not_is_row_ids.
Qed.

Lemma delete_user_removes_one_row_witness :
  ∃ rs1 r rs2,
    rows one_user = rs1 ++ r :: rs2
    ∧ row_id r = Some (INTEGER 1)
    ∧ delete_user one_user 1
      = ({| rows := rs1 ++ rs2; sequence := sequence one_user |},
         [st_success (lit "✅ User deleted"); st_rerun])
    ∧ 1 ∉ ids (delete_user one_user 1).1.
Proof.
  apply (delete_user_removes_one_row one_user 1 one_user_reachable).
  vm_compute. apply list_elem_of_here.
Defined.

(** X18. Row ids are never used twice.  Once a row is deleted, whatever is
    submitted afterwards, no row of the table has its id again; and a row
    that a later submission adds has an id above the counter the table had. *)
Theorem deleted_id_is_never_used_again
    (t t1 t2 : table) (key : Z) (out : list ui) (es : list event) :
  reachable t →
  step t (Delete key) = Some (t1, out) →
  run t1 es = Some t2 →
  (key ∉ ids t2)
  ∧ ∀ z, z ∈ ids t2 → z ∈ ids t1 ∨ sequence t < z.
Proof.
  intros Hinv%reachable_inv Hstep Hrun.
  pose proof (step_keeps_inv _ _ _ _ Hinv Hstep) as Hinv1.
  destruct (run_ids es _ _ Hinv1 Hrun) as (_ & _ & Hi).
  destruct (step_cases _ _ _ _ Hinv Hstep)
    as [->|[(? & ? & ? & ? & [=] & _)
       |[(? & ? & ? & ? & ? & ? & ? & ? & ? & ? & [=] & _)
        |(rs1 & rs2 & k & r & [= <-] & E & Hid & Hk & ->)]]].
  - exfalso. cbn [step] in Hstep. case_bool_decide as Hk; [|done].
    injection Hstep as Ht _. apply delete_options_ids in Hk.
    destruct (split_at_id t key Hinv Hk)
      as (rs1 & rs2 & n0 & e0 & ro0 & c0 & E & Hro0 & Hn).
    rewrite (delete_rows t key rs1 _ rs2 Hn (is_row_self _ _ _ _ _) E) in Ht.
    apply (f_equal (λ t, length (rows t))) in Ht. cbn [rows] in Ht.
    rewrite E, !length_app in Ht. cbn [length] in Ht. lia.
  - cbn [sequence] in Hi. split; [|exact Hi].
    intros [Hz|Hz]%Hi; [by apply Hk|].
    destruct Hinv as (_ & _ & _ & Hseq & _). rewrite Forall_forall in Hseq.
    assert (key ∈ ids t) as Hin.
    { unfold ids. rewrite E. apply list_elem_of_bind. exists r.
      split; [|apply elem_of_app; right; apply list_elem_of_here].
      rewrite (row_ids_users_head _ _ Hid). apply list_elem_of_here. }
    specialize (Hseq _ Hin). lia.
Qed.

Lemma deleted_id_is_never_used_again_witness :
  (1 ∉ ids (default empty
              (run (delete_user one_user 1).1
                 [Create (lit "Bob") (lit "bob@example.com") (lit "admin")
                    (lit "2024-01-02 00:00:00")])))
  ∧ ∀ z,
      z ∈ ids (default empty
                 (run (delete_user one_user 1).1
                    [Create (lit "Bob") (lit "bob@example.com") (lit "admin")
                       (lit "2024-01-02 00:00:00")])) →
      z ∈ ids (delete_user one_user 1).1 ∨ sequence one_user < z.
Proof.
  apply (deleted_id_is_never_used_again one_user _ _ 1
           (delete_user one_user 1).2
           [Create (lit "Bob") (lit "bob@example.com") (lit "admin")
              (lit "2024-01-02 00:00:00")] one_user_reachable).
  - vm_compute. reflexivity.
  - vm_compute. reflexivity.
Defined.

Lemma filter_none {A} (P : A → Prop) `{∀ x, Decision (P x)} (l : list A) :
  Forall (λ x, ¬ P x) l → filter P l = [].
Proof.
  induction 1 as [|x l Hx _ IH]; [done|].
  rewrite filter_cons_False by done. exact IH.
Qed.

(** X19. The update form never raises on a table the page can produce: the
    row of the selected id is found, and its role is one of the three of the
    select box, so [["user", "admin", "manager"].index(current[3])] has a
    value, the position of that role. *)
Theorem update_form_finds_the_role (t : table) (key : Z) :
  reachable t →
  key ∈ ids t →
  ∃ name email_in role_in created_at i,
    fetch t key = Some [INTEGER key; TEXT name; TEXT email_in; TEXT role_in;
                        TEXT created_at]
    ∧ role_index t key = Some i
    ∧ role_options !! i = Some role_in.
Proof.
  intros Hinv%reachable_inv Hk.
  destruct (split_at_id t key Hinv Hk)
    as (rs1 & rs2 & n0 & e0 & ro0 & c0 & E & Hro0 & [Hn1 Hn2]%Forall_app).
  assert (fetch t key = Some [INTEGER key; TEXT n0; TEXT e0; TEXT ro0; TEXT c0])
    as Hf.
  { unfold fetch. rewrite E, filter_app, filter_none.
    - rewrite filter_cons_True by apply is_row_self. reflexivity.
    - eapply Forall_impl; [exact Hn1|]. intros r Hr. cbv beta in *.
      by rewrite Hr. }
  unfold role_index. rewrite Hf. cbn [mbind option_bind lookup list_lookup].
  exists n0, e0, ro0, c0.
  unfold role_options in *. cbn [fmap list_fmap] in *.
  apply elem_of_cons in Hro0 as [->|Hro0]; [exists 0%nat; by vm_compute|].
  apply elem_of_cons in Hro0 as [->|Hro0]; [exists 1%nat; by vm_compute|].
  apply list_elem_of_singleton in Hro0 as ->. exists 2%nat. by vm_compute.
Qed.

Lemma update_form_finds_the_role_witness :
  ∃ name email_in role_in created_at i,
    fetch one_user 1
    = Some [INTEGER 1; TEXT name; TEXT email_in; TEXT role_in; TEXT created_at]
    ∧ role_index one_user 1 = Some i
    ∧ role_options !! i = Some role_in.
Proof.
  apply (update_form_finds_the_role one_user 1 one_user_reachable).
  vm_compute. apply list_elem_of_here.
Defined.


Lemma dict_set_has {V} (d : list (str * V)) (k : str) (v : V) :
  (k, v) ∈ dict_set d k v.
Proof.
  induction d as [|[k' v'] d IH]; cbn [dict_set]; [apply list_elem_of_here|].
  destruct (decide (k' = k)) as [->|]; [apply list_elem_of_here|].
  by apply list_elem_of_further.
Qed.

Lemma dict_set_keeps {V} (d : list (str * V)) (k k' : str) (v v' : V) :
  (k', v') ∈ d → k' ≠ k → (k', v') ∈ dict_set d k v.
Proof.
  intros Hin Hne. induction d as [|[k0 v0] d IH]; [by inversion Hin|].
  cbn [dict_set]. apply elem_of_cons in Hin as [[= <- <-]|Hin].
  - rewrite decide_False by done. apply list_elem_of_here.
  - destruct (decide (k0 = k)); apply list_elem_of_further; auto.
Qed.

Lemma dict_set_twice {V} (d : list (str * V)) (k : str) (v1 v2 : V) :
  dict_set (dict_set d k v1) k v2 = dict_set d k v2.
Proof.
  induction d as [|[k' v'] d IH]; cbn [dict_set].
  - by rewrite decide_True.
  - destruct (decide (k' = k)) as [->|Hne]; cbn [dict_set].
    + by rewrite decide_True.
    + rewrite decide_False by done. by rewrite IH.
Qed.

(** The labels of the update tab tell the ids apart. *)
Lemma update_label_inj (n1 n2 : str) (i1 i2 : Z) :
  n1 ++ lit " (ID: " ++ str_of_Z i1 ++ lit ")"
  = n2 ++ lit " (ID: " ++ str_of_Z i2 ++ lit ")" →
  i1 = i2.
Proof.
  assert (∃ sp rp, lit " (ID: " = lit " (ID:" ++ [sp] ∧ lit ")" = [rp]
                   ∧ ord sp = 32%N ∧ ord rp ≠ 32%N)
    as (sp & rp & -> & -> & Hsp & Hrp).
  { eexists _, _. split_and!; [by vm_compute|by vm_compute|by vm_compute|].
    by vm_compute. }
  rewrite <-!app_assoc. cbn [app]. rewrite !(app_assoc _ (lit " (ID:")).
  intros E. apply after_last_space in E.
  - apply app_inv_tail in E. by apply str_of_Z_inj.
  - intros [H| ->%list_elem_of_singleton]%elem_of_app; [|done].
    by apply str_of_Z_no_space in H.
  - intros [H| ->%list_elem_of_singleton]%elem_of_app; [|done].
    by apply str_of_Z_no_space in H.
Qed.

Lemma update_options_keep (rs : list (list value)) (key : Z) (k : str) :
  Forall (λ r, is_row users key r = false) rs →
  ∀ d name, 
    k = name ++ lit " (ID: " ++ str_of_Z key ++ lit ")" →
    (k, key) ∈ d →
    (k, key)
    ∈ foldl (λ d r,
               match r with
               | INTEGER id :: name :: _ =>
                   dict_set d
                     (fmt name ++ lit " (ID: " ++ str_of_Z id ++ lit ")") id
               | _ => d
               end) d rs.
Proof.
  induction 1 as [|r rs Hr _ IH]; intros d name Hk Hin; cbn [foldl]; [done|].
  apply (IH _ name Hk).
  destruct r as [|[| id |] [|n r]]; try done.
  apply dict_set_keeps; [done|]. rewrite Hk. intros Heq%update_label_inj.
  subst id.
  rewrite (is_row_users _ key key) in Hr by done.
  by apply bool_decide_eq_false in Hr.
Qed.

(** X20. The select box of the update tab offers every row of a table the
    page can produce: the label of a row ends in its id, so no two rows
    share a label, and the ids behind the labels are exactly the ids of the
    table. *)
Theorem update_box_offers_every_row (t : table) (key : Z) :
  reachable t →
  key ∈ (update_options t).*2 ↔ key ∈ ids t.
Proof.
  intros Hinv%reachable_inv. split; [apply update_options_ids|]. intros Hk.
  destruct (split_at_id t key Hinv Hk)
    as (rs1 & rs2 & n0 & e0 & ro0 & c0 & E & Hro0 & [Hn1 Hn2]%Forall_app).
  apply list_elem_of_fmap.
  exists (n0 ++ lit " (ID: " ++ str_of_Z key ++ lit ")", key).
  split; [done|]. unfold update_options. rewrite E, foldl_app. cbn [foldl].
  apply (update_options_keep rs2 key _ Hn2 _ n0 eq_refl).
  apply dict_set_has.
Qed.

Lemma update_box_offers_every_row_witness :
  1 ∈ (update_options one_user).*2 ↔ 1 ∈ ids one_user.
Proof.
  exact (update_box_offers_every_row one_user 1 one_user_reachable).
Defined.


(** The create form on a table of the page, when it accepts. *)
Lemma create_user_new (t : table) (name email_in role_in now : str) :
  table_inv t → name ≠ [] → email_in ≠ [] → ¬ email_exists t email_in →
  create_user t name email_in role_in now
  = ({| rows := rows t ++ [[INTEGER (sequence t + 1); TEXT name;
                            TEXT email_in; TEXT role_in; TEXT now]];
        sequence := sequence t + 1 |},
     [st_success (lit "✅ User '" ++ name ++ lit "' created successfully!");
      st_balloons]).
Proof.
  intros Hinv Hn He Hfree. unfold create_user.
  apply is_empty_false in Hn, He. rewrite Hn, He. cbn [orb].
  destruct (insert_users_text_cases t name email_in role_in now)
    as [[[H|[H|H]] _]|(_ & _ & _ & E)]; [done..|].
  rewrite E. by rewrite (next_row_id_inv t Hinv).
Qed.

(** X21. The select box of the delete tab can hide a user.  Its labels are
    "name (e-mail)", and two different users can have the same label; the
    dictionary then keeps the id of the later row only, so the earlier of the
    two is in the table but cannot be selected for deletion. *)
Theorem delete_box_can_hide_a_user
    (t : table) (x y z role1 role2 now1 now2 : str) :
  reachable t →
  x ≠ [] → z ≠ [] →
  role1 ∈ role_options → role2 ∈ role_options →
  ¬ email_exists t z →
  ¬ email_exists t (y ++ lit ") (" ++ z) →
  ∃ t2,
    run t [Create (x ++ lit " (" ++ y ++ lit ")") z role1 now1;
           Create x (y ++ lit ") (" ++ z) role2 now2] = Some t2
    ∧ ids t2 = ids t ++ [sequence t + 1; sequence t + 2]
    ∧ step t2 (Delete (sequence t + 1)) = None
    ∧ sequence t + 2 ∈ (delete_options t2).*2.
Proof.
  intros Hinv%reachable_inv Hx Hz Hr1 Hr2 Hf1 Hf2. cbn [run step].
  rewrite !bool_decide_eq_true_2 by done.
  rewrite create_user_new; [|done| |done|done].
  2:{ by intros [E _]%app_eq_nil. }
  match goal with
  | |- context [create_user ?t1 _ _ _ _] =>
      assert (table_inv t1 ∧ ¬ email_exists t1 (y ++ lit ") (" ++ z))
        as [Hinv1 Hf3]
  end.
  { split.
    - apply (step_keeps_inv t
               (Create (x ++ lit " (" ++ y ++ lit ")") z role1 now1) _
               [st_success (lit "✅ User '" ++ (x ++ lit " (" ++ y ++ lit ")")
                              ++ lit "' created successfully!");
                st_balloons] Hinv).
      cbn [step]. rewrite bool_decide_eq_true_2 by done.
      rewrite create_user_new; [done|done| |done|done].
      by intros [E _]%app_eq_nil.
    - unfold email_exists. cbn [rows]. rewrite Exists_app.
      intros [H|H]; [by apply Hf2|].
      apply Exists_cons in H as [[= E]|H]; [|by inversion H].
      apply (f_equal length) in E. rewrite !length_app in E.
      assert (length (lit ") (") = 3%nat) by (by vm_compute). lia. }
  rewrite create_user_new; [|done|done| |done].
  2:{ intros E. apply (f_equal length) in E. rewrite !length_app in E.
      assert (length (lit ") (") = 3%nat) by (by vm_compute).
      cbn [length] in E. lia. }
  cbn [rows sequence]. eexists. split; [reflexivity|].
  assert (sequence t + 1 + 1 = sequence t + 2) as -> by lia.
  split.
  { unfold ids. cbn [rows]. rewrite <-app_assoc, ids_app_rows. reflexivity. }
  match goal with
  | |- context [delete_options ?t2] =>
      assert (delete_options t2
              = dict_set (delete_options t)
                  (x ++ lit " (" ++ (y ++ lit ") (" ++ z) ++ lit ")")
                  (sequence t + 2)) as Hopts
  end.
  { unfold delete_options. cbn [rows]. rewrite <-app_assoc, foldl_app.
    cbn [app foldl fmt].
    assert ((x ++ lit " (" ++ y ++ lit ")") ++ lit " (" ++ z ++ lit ")"
            = x ++ lit " (" ++ (y ++ lit ") (" ++ z) ++ lit ")") as ->.
    { assert (lit ") (" = lit ")" ++ lit " (") as -> by (by vm_compute).
      by rewrite <-!app_assoc. }
    apply dict_set_twice. }
  rewrite Hopts. split.
  - rewrite bool_decide_eq_false_2; [done|].
    intros [H|H]%dict_set_values; [lia|].
    apply (delete_options_ids t) in H.
    destruct Hinv as (_ & _ & _ & Hseq & _). rewrite Forall_forall in Hseq.
    specialize (Hseq _ H). lia.
  - apply list_elem_of_fmap. eexists (_, _). split; [|apply dict_set_has].
    reflexivity.
Qed.

Lemma delete_box_can_hide_a_user_witness :
  ∃ t2,
    run empty [Create (lit "Ann" ++ lit " (" ++ lit "x" ++ lit ")")
                 (lit "a@b.c") (lit "user") (lit "2024-01-01 00:00:00");
               Create (lit "Ann") (lit "x" ++ lit ") (" ++ lit "a@b.c")
                 (lit "admin") (lit "2024-01-02 00:00:00")] = Some t2
    ∧ ids t2 = ids empty ++ [sequence empty + 1; sequence empty + 2]
    ∧ step t2 (Delete (sequence empty + 1)) = None
    ∧ sequence empty + 2 ∈ (delete_options t2).*2.
Proof.
  apply (delete_box_can_hide_a_user empty (lit "Ann") (lit "x") (lit "a@b.c")
           (lit "user") (lit "admin") (lit "2024-01-01 00:00:00")
           (lit "2024-01-02 00:00:00") reachable_empty).
  - by vm_compute.
  - by vm_compute.
  - vm_compute. apply list_elem_of_here.
  - vm_compute. apply list_elem_of_further, list_elem_of_here.
  - intros H. by inversion H.
  - intros H. by inversion H.
Defined.

End CrudProperties.

(** ** Chapter 10: what the wizard submits *)

Section WizardData.

Import Wizard.

(** The keys the three steps write. *)
Definition all_keys : list string :=
  ["first_name"; "last_name"; "email"; "phone"; "birthdate";
   "street"; "city"; "state"; "zipcode"; "country";
   "username"; "password"; "security_question"; "security_answer"]%string.

(** The interactions with chapter 10 alone: every event but the form of
    chapter 4. *)
Definition wizard_only (e : event) : bool :=
  match e with
  | UserForm _ _ _ => false
  | _ => true
  end.

(** What [form_data] holds at each step: the accepted fields of the steps
    before it, and no key besides those of the three steps. *)
Definition wizard_inv (w : state) : Prop :=
  (∀ k, is_Some (form_data w !! k) → k ∈ all_keys)
  ∧ (2 ≤ form_step w →
     ∃ f em l p b,
       step1_errors f em l p = [] ∧ step1_fields f em l p b ⊆ form_data w)
  ∧ (3 ≤ form_step w →
     ∃ s c st z co,
       step2_errors s c st z = [] ∧ step2_fields s c st z co ⊆ form_data w)
  ∧ (4 ≤ form_step w →
     ∃ u pw q a,
       step3_errors u pw pw a = [] ∧ step3_fields u q a ⊆ form_data w).

Lemma fields_keys (e : event) (k : string) :
  is_Some (fields_of e !! k) → k ∈ all_keys.
Proof.
  intros [v Hv]. unfold all_keys.
  destruct e; cbn [fields_of] in Hv; try (by rewrite lookup_empty in Hv);
    unfold step1_fields, step2_fields, step3_fields in Hv;
    cbn [list_to_map foldr] in Hv;
    repeat (apply lookup_insert_Some in Hv as [[<- _]|[_ Hv]];
            [repeat first [apply list_elem_of_here|apply list_elem_of_further]|]);
    by rewrite lookup_empty in Hv.
Qed.


Lemma update_keeps (d e F : gmap string fval) :
  F ⊆ d → (∀ k, is_Some (F !! k) → e !! k = None) → F ⊆ update d e.
Proof.
  intros Hsub Hdis. unfold update. apply map_subseteq_spec. intros k v Hk.
  rewrite lookup_union_r by (apply Hdis; eauto).
  by eapply lookup_weaken.
Qed.

Lemma update_has (d e : gmap string fval) : e ⊆ update d e.
Proof. apply map_union_subseteq_l. Qed.

Ltac concrete_key H :=
  unfold step1_fields, step2_fields, step3_fields in H;
  cbn [list_to_map foldr] in H;
  repeat (apply lookup_insert_Some in H as [[<- _]|[_ H]]; [by vm_compute|]);
  by rewrite lookup_empty in H.

Lemma step1_not_step2 f em l p b s c st z co (k : string) :
  is_Some (step1_fields f em l p b !! k) → step2_fields s c st z co !! k = None.
Proof. intros [v Hv]. concrete_key Hv. Qed.

Lemma step1_not_step3 f em l p b u q a (k : string) :
  is_Some (step1_fields f em l p b !! k) → step3_fields u q a !! k = None.
Proof. intros [v Hv]. concrete_key Hv. Qed.

Lemma step2_not_step1 f em l p b s c st z co (k : string) :
  is_Some (step2_fields s c st z co !! k) → step1_fields f em l p b !! k = None.
Proof. intros [v Hv]. concrete_key Hv. Qed.

Lemma step2_not_step3 s c st z co u q a (k : string) :
  is_Some (step2_fields s c st z co !! k) → step3_fields u q a !! k = None.
Proof. intros [v Hv]. concrete_key Hv. Qed.

Lemma step3_not_step1 f em l p b u q a (k : string) :
  is_Some (step3_fields u q a !! k) → step1_fields f em l p b !! k = None.
Proof. intros [v Hv]. concrete_key Hv. Qed.

Lemma step3_not_step2 s c st z co u q a (k : string) :
  is_Some (step3_fields u q a !! k) → step2_fields s c st z co !! k = None.
Proof. intros [v Hv]. concrete_key Hv. Qed.

(** A [Next] button belongs to one step. *)
Lemma next_button_step (w w' : state) (e : event) (out : list ui) :
  tab4 w e = Some (w', out) →
  match e with
  | Step1Next _ _ _ _ _ => form_step w = 1
  | Step2Next _ _ _ _ _ | Step2Back => form_step w = 2
  | Step3Next _ _ _ _ _ | Step3Back => form_step w = 3
  | Step4Submit _ | Step4Back => form_step w = 4
  | OtherTabSubmission _ | UserForm _ _ _ => True
  end.
Proof.
  unfold tab4.
  destruct e; try done;
    repeat (match goal with |- context [?a =? ?b] =>
              destruct (Z.eqb_spec a b) as [Hs|?] end);
    done.
Qed.

Lemma step3_errors_confirm (u pw cf a : str) :
  step3_errors u pw cf a = [] → cf = pw.
Proof.
  unfold step3_errors, add_error. cbv zeta.
  case_bool_decide as Hne.
  - intros H. apply (f_equal length) in H. revert H.
    repeat (match goal with |- context [if ?b then _ else _] => destruct b end);
      rewrite ?length_app; cbn [length]; lia.
  - intros _. destruct (decide (pw = cf)) as [->|]; [done|]. by destruct Hne.
Qed.

Lemma tab4_keeps_inv (w w' : state) (e : event) (out : list ui) :
  wizard_only e = true →
  wizard_inv w → tab4 w e = Some (w', out) → wizard_inv w'.
Proof.
  intros Hwiz (Hk & H1 & H2 & H3) Hstep.
  pose proof (next_button_step _ _ _ _ Hstep) as Hat.
  apply tab4_inv in Hstep.
  destruct e as [f em l p b| |s c st z co| |u pw cf q a| |now|record|? ? ?];
    [..|discriminate Hwiz].
  - destruct Hstep as [_ [(He & -> & _)|(_ & -> & _)]]; [|done].
    unfold wizard_inv. cbn [form_step form_data fields_of errors_of] in *.
    split_and!.
    + intros k [Hs|Hs]%lookup_union_is_Some; [|by apply Hk].
      by apply (fields_keys (Step1Next f em l p b)).
    + intros _. exists f, em, l, p, b. split; [done|apply update_has].
    + lia.
    + lia.
  - destruct Hstep as [_ ->]. unfold wizard_inv. cbn [form_step form_data].
    split_and!; [done|lia..].
  - destruct Hstep as [_ [(He & -> & _)|(_ & -> & _)]]; [|done].
    unfold wizard_inv. cbn [form_step form_data fields_of errors_of] in *.
    split_and!.
    + intros k [Hs|Hs]%lookup_union_is_Some; [|by apply Hk].
      by apply (fields_keys (Step2Next s c st z co)).
    + intros _. destruct H1 as (f & em & l & p & b & ? & ?); [lia|].
      exists f, em, l, p, b. split; [done|].
      apply update_keeps; [done|]. apply step1_not_step2.
    + intros _. exists s, c, st, z, co. split; [done|apply update_has].
    + lia.
  - destruct Hstep as [_ ->]. unfold wizard_inv. cbn [form_step form_data].
    split_and!; [done| |lia..]. intros _. apply H1. lia.
  - destruct Hstep as [_ [(He & -> & _)|(_ & -> & _)]]; [|done].
    unfold wizard_inv. cbn [form_step form_data fields_of errors_of] in *.
    split_and!.
    + intros k [Hs|Hs]%lookup_union_is_Some; [|by apply Hk].
      by apply (fields_keys (Step3Next u pw cf q a)).
    + intros _. destruct H1 as (f & em & l & p & b & ? & ?); [lia|].
      exists f, em, l, p, b. split; [done|].
      apply update_keeps; [done|]. apply step1_not_step3.
    + intros _. destruct H2 as (s & c & st & z & co & ? & ?); [lia|].
      exists s, c, st, z, co. split; [done|].
      apply update_keeps; [done|]. apply step2_not_step3.
    + intros _. exists u, pw, q, a. split; [|apply update_has].
      by rewrite <-(step3_errors_confirm _ _ _ _ He) at 2.
  - destruct Hstep as [_ ->]. unfold wizard_inv. cbn [form_step form_data].
    split_and!; [done| | |lia].
    + intros _. apply H1. lia.
    + intros _. apply H2. lia.
  - destruct Hstep as [_ ->]. unfold wizard_inv. cbn [form_step form_data].
    split_and!; [|lia..]. intros k [v Hv]. by rewrite lookup_empty in Hv.
  - subst w'. by unfold wizard_inv.
Qed.

Lemma complete_form_data (d : gmap string fval)
    f em l p b s c st z co u q a :
  (∀ k, is_Some (d !! k) → k ∈ all_keys) →
  step1_fields f em l p b ⊆ d →
  step2_fields s c st z co ⊆ d →
  step3_fields u q a ⊆ d →
  d = step3_fields u q a ∪ step2_fields s c st z co ∪ step1_fields f em l p b.
Proof.
  intros Hk H1 H2 H3. symmetry. apply (anti_symm (⊆)).
  { repeat apply map_union_least; done. }
  apply map_subseteq_spec. intros k v Hv.
  assert (k ∈ all_keys) as Hin by (apply Hk; eauto).
  assert (∀ F : gmap string fval, F ⊆ d → ∀ v', F !! k = Some v' → v' = v)
    as Hval.
  { intros F HF v' Hv'. eapply lookup_weaken in Hv'; [|exact HF]. congruence. }
  unfold all_keys in Hin.
  repeat (apply elem_of_cons in Hin as [->|Hin];
          [first [rewrite <-(Hval _ H1 _ eq_refl)
                 |rewrite <-(Hval _ H2 _ eq_refl)
                 |rewrite <-(Hval _ H3 _ eq_refl)]; by vm_compute|]).
  by inversion Hin.
Qed.

(** Interactions one after the other. *)
Fixpoint clicks (w : state) (es : list event) : option state :=
  match es with
  | [] => Some w
  | e :: es' =>
      match tab4 w e with
      | Some (w', _) => clicks w' es'
      | None => None
      end
  end.

Lemma clicks_keep_inv (es : list event) :
  Forall (λ e, wizard_only e = true) es →
  ∀ w w', wizard_inv w → clicks w es = Some w' → wizard_inv w'.
Proof.
  induction 1 as [|e es He _ IH]; intros w w' Hinv Hc; cbn [clicks] in Hc.
  - by injection Hc as <-.
  - destruct (tab4 w e) as [[w1 out]|] eqn:Hstep; [|done].
    eapply IH; [|exact Hc]. by eapply tab4_keeps_inv.
Qed.

Lemma empty_form_inv (w : state) :
  form_step w = 1 → form_data w = ∅ → wizard_inv w.
Proof.
  intros Hs Hd. unfold wizard_inv. rewrite Hs, Hd.
  split_and!; [|lia..]. intros k [v Hv]. by rewrite lookup_empty in Hv.
Qed.

(** X22. An application the wizard submits is complete as long as the form
    of chapter 4 is not submitted while it is filled in.  From a session at
    step 1 with an empty [form_data] (a new session, or one after a
    submission), after any interactions with chapter 10 alone, the record
    that "Submit Application" appends holds exactly the fourteen fields of
    the three steps, as submissions of steps 1, 2 and 3 that passed their
    checks wrote them; under ['password'] it holds the mask "***hidden***"
    and never the password.  The key ['form_data'] is shared with chapter 4:
    when the form of that page is submitted at step 4, the record the wizard
    then appends holds the three fields of that form and nothing else. *)
Theorem submitted_application_is_complete
    (w0 w w' : state) (es : list event) (now : str) (out : list ui) :
  form_step w0 = 1 →
  form_data w0 = ∅ →
  Forall (λ e, wizard_only e = true) es →
  clicks w0 es = Some w →
  tab4 w (Step4Submit now) = Some (w', out) →
  (∃ f em l p b s c st z co u pw q a,
     step1_errors f em l p = []
     ∧ step2_errors s c st z = []
     ∧ step3_errors u pw pw a = []
     ∧ submitted_forms w'
       = submitted_forms w
         ++ [{| sub_type := lit "multi-step-application";
                sub_fields := ∅;
                sub_data :=
                  Some (step3_fields u q a ∪ step2_fields s c st z co
                        ∪ step1_fields f em l p b);
                sub_timestamp := now |}]
     ∧ form_data w !! "password"%string = Some (FStr (lit "***hidden***")))
  ∧ (∀ name email_in age,
       user_form_errors name email_in = [] → 18 ≤ age ≤ 100 →
       ∃ w'',
         clicks w [UserForm name email_in age; Step4Submit now] = Some w''
         ∧ submitted_forms w''
           = submitted_forms w
             ++ [{| sub_type := lit "multi-step-application";
                    sub_fields := ∅;
                    sub_data := Some (user_form_fields name email_in age);
                    sub_timestamp := now |}]).
Proof.
  intros Hs0 Hd0 Hes Hc Hstep.
  pose proof (clicks_keep_inv es Hes _ _ (empty_form_inv w0 Hs0 Hd0) Hc)
    as (Hk & H1 & H2 & H3).
  apply tab4_inv in Hstep as [H4 ->]. cbn [submitted_forms]. split.
  - destruct H1 as (f & em & l & p & b & He1 & Hf1); [lia|].
    destruct H2 as (s & c & st & z & co & He2 & Hf2); [lia|].
    destruct H3 as (u & pw & q & a & He3 & Hf3); [lia|].
    exists f, em, l, p, b, s, c, st, z, co, u, pw, q, a.
    split_and!; [done..| |].
    + do 4 f_equal. by apply complete_form_data.
    + eapply lookup_weaken; [|exact Hf3]. by vm_compute.
  - intros name email_in age He Ha. cbn [clicks tab4].
    assert ((18 <=? age) && (age <=? 100) = true) as ->.
    { apply andb_true_iff. split; apply Z.leb_le; lia. }
    unfold user_form. cbv zeta. rewrite He. cbn [form_step].
    rewrite H4. cbn [Z.eqb Pos.eqb]. eexists. split; [reflexivity|].
    reflexivity.
Qed.

(** Three accepted steps, and the session after them. *)
Definition three_steps : list event :=
  [Step1Next (lit "Ann") (lit "ann@example.com") (lit "Lee")
     (lit "+1234567890") {| year := 1990; month := 1; day := 1 |};
   Step2Next (lit "1 Main St") (lit "Springfield") (lit "IL")
     (lit "62701") (lit "USA");
   Step3Next (lit "annlee") (lit "s3cretpass") (lit "s3cretpass")
     (lit "What is your pet's name?") (lit "Rex")].

Definition filled_in : state := default initial (clicks initial three_steps).

Lemma submitted_application_is_complete_witness :
  (∃ f em l p b s c st z co u pw q a,
     step1_errors f em l p = []
     ∧ step2_errors s c st z = []
     ∧ step3_errors u pw pw a = []
     ∧ submitted_forms
         (default initial
            (clicks filled_in [Step4Submit (lit "2024-01-01 00:00:00")]))
       = submitted_forms filled_in
         ++ [{| sub_type := lit "multi-step-application";
                sub_fields := ∅;
                sub_data :=
                  Some (step3_fields u q a ∪ step2_fields s c st z co
                        ∪ step1_fields f em l p b);
                sub_timestamp := lit "2024-01-01 00:00:00" |}]
     ∧ form_data filled_in !! "password"%string
       = Some (FStr (lit "***hidden***")))
  ∧ (∀ name email_in age,
       user_form_errors name email_in = [] → 18 ≤ age ≤ 100 →
       ∃ w'',
         clicks filled_in
           [UserForm name email_in age;
            Step4Submit (lit "2024-01-01 00:00:00")] = Some w''
         ∧ submitted_forms w''
           = submitted_forms filled_in
             ++ [{| sub_type := lit "multi-step-application";
                    sub_fields := ∅;
                    sub_data := Some (user_form_fields name email_in age);
                    sub_timestamp := lit "2024-01-01 00:00:00" |}]).
Proof.
  apply (submitted_application_is_complete initial filled_in _ three_steps
           (lit "2024-01-01 00:00:00")
           [st_success (lit "🎉 Application submitted successfully!");
            st_balloons;
            st_write (lit "**Your application has been submitted!**")]).
  - reflexivity.
  - reflexivity.
  - repeat constructor.
  - vm_compute. reflexivity.
  - vm_compute. reflexivity.
Defined.

End WizardData.

(** * Chapter 10, tab 2: the registration form *)

Module Registration10.

Import Wizard.

Section Registration.

Variable unicode_decimal : char → bool.

(** The checks of [if submitted:] in the form "registration_form". *)
Definition registration_errors
    (username password_in confirm_password email_in : str) (agree : bool)
  : list str :=
  let errors := [] in
  let errors :=
    if is_empty username then errors ++ [lit "Username is required"]
    else if len username <? 3
    then errors ++ [lit "Username must be at least 3 characters"]
    else errors in
  let errors :=
    if is_empty password_in then errors ++ [lit "Password is required"]
    else if len password_in <? 8
    then errors ++ [lit "Password must be at least 8 characters"]
    else if negb (Chapter10.re_search_class is_ascii_upper password_in)
    then errors ++ [lit "Password must contain uppercase letter"]
    else if negb (Chapter10.re_search_class is_ascii_lower password_in)
    then errors ++ [lit "Password must contain lowercase letter"]
    else if negb (Chapter10.re_search_class unicode_decimal password_in)
    then errors ++ [lit "Password must contain a number"]
    else errors in
  let errors :=
    add_error (bool_decide (password_in ≠ confirm_password))
      "Passwords don't match" errors in
  let errors :=
    add_error (is_empty email_in || negb (contains_char (chr 64) email_in))
      "Valid email is required" errors in
  let errors :=
    add_error (negb agree) "You must agree to Terms & Conditions" errors in
  errors.

(** The record the form appends to [submitted_forms]. *)
Definition registration_record (username email_in country now : str)
  : submission :=
  {| sub_type := lit "registration";
     sub_fields :=
       list_to_map
         [("username", FStr username); ("email", FStr email_in);
          ("country", FStr country)]%string;
     sub_data := None;
     sub_timestamp := now |}.

(** The body of [if submitted:]. *)
Definition registration_form (w : state)
    (username password_in confirm_password email_in country : str)
    (agree : bool) (now : str) : state * list ui :=
  let errors :=
    registration_errors username password_in confirm_password email_in
      agree in
  match errors with
  | _ :: _ => (w, show_errors errors)
  | [] =>
      ({| form_step := form_step w; form_data := form_data w;
          submitted_forms :=
            submitted_forms w
            ++ [registration_record username email_in country now] |},
       [st_success (lit "✅ Account created for " ++ username ++ lit "!");
        st_balloons])
  end.

End Registration.

End Registration10.

Section RegistrationProperties.

Import Wizard Chapter10 Registration10.

Variable unicode_decimal : char → bool.

Lemma add_error_length (cond : bool) (message : string) (errors : list str) :
  (length errors ≤ length (add_error cond message errors))%nat.
Proof. unfold add_error. destruct cond; rewrite ?length_app; lia. Qed.

Lemma add_error_nil (c1 c2 c3 : bool) (m1 m2 m3 : string) (errors : list str) :
  add_error c3 m3 (add_error c2 m2 (add_error c1 m1 errors)) = []
  ↔ errors = [] ∧ c1 = false ∧ c2 = false ∧ c3 = false.
Proof.
  split.
  - intros H. assert (errors = []) as ->.
    { apply (f_equal length) in H.
      pose proof (add_error_length c1 m1 errors).
      pose proof (add_error_length c2 m2 (add_error c1 m1 errors)).
      pose proof (add_error_length c3 m3
                    (add_error c2 m2 (add_error c1 m1 errors))).
      cbn [length] in H. destruct errors; [done|]. cbn [length] in *. lia. }
    by destruct c1, c2, c3.
  - by intros (-> & -> & -> & ->).
Qed.

(** The form accepts exactly when each of its checks passes. *)
Lemma registration_errors_nil
    (username password_in confirm_password email_in : str) (agree : bool) :
  registration_errors unicode_decimal username password_in confirm_password
    email_in agree = []
  ↔ is_empty username = false ∧ (len username <? 3) = false
    ∧ is_empty password_in = false ∧ (len password_in <? 8) = false
    ∧ re_search_class is_ascii_upper password_in = true
    ∧ re_search_class is_ascii_lower password_in = true
    ∧ re_search_class unicode_decimal password_in = true
    ∧ confirm_password = password_in
    ∧ is_empty email_in = false
    ∧ contains_char (chr 64) email_in = true
    ∧ agree = true.
Proof.
  unfold registration_errors. cbv zeta. rewrite add_error_nil.
  rewrite bool_decide_eq_false, orb_false_iff, !negb_false_iff.
  destruct (is_empty username), (len username <? 3),
    (is_empty password_in), (len password_in <? 8),
    (re_search_class is_ascii_upper password_in),
    (re_search_class is_ascii_lower password_in),
    (re_search_class unicode_decimal password_in);
    cbn [negb app];
    (split; [intros (He & Hc & Hm & Ha); try discriminate He
            |intros (? & ? & ? & ? & ? & ? & ? & ? & ? & ? & ?);
             try discriminate]).
  - destruct Hm as [Hm1 Hm2]. split_and!; try done.
    destruct (decide (password_in = confirm_password)); [done|].
    by destruct Hc.
  - subst confirm_password. split_and!; try done. intros Hne. by apply Hne.
Qed.

(** X23. A password the registration form of tab 2 accepts is one the
    strength check of tab 3 calls strong: it passes the first four of the
    five criteria, so its score is 4 or 5 and the message is the green one.
    The wizard's step 3 accepts the same user name and password with any
    security answer that is not empty.  Conversely a password of score 5,
    repeated correctly, passes every password check of the form. *)
Theorem registration_password_is_strong
    (username password_in confirm_password email_in : str) (agree : bool) :
  registration_errors unicode_decimal username password_in confirm_password
    email_in agree = [] →
  4 ≤ (strength_of unicode_decimal password_in).1 ≤ 5
  ∧ (∃ feedback,
       password_validation unicode_decimal password_in
       = strong (strength_of unicode_decimal password_in).1 :: feedback)
  ∧ (∀ security_answer,
       security_answer ≠ [] →
       step3_errors username password_in confirm_password security_answer
       = [])
  ∧ (∀ p,
       (strength_of unicode_decimal p).1 = 5 →
       registration_errors unicode_decimal username p p email_in agree = []).
Proof.
  intros H. pose proof H as Hall.
  apply registration_errors_nil
    in H as (Hu1 & Hu2 & Hp1 & Hp2 & Hup & Hlo & Hdi & -> & He1 & He2 & ->).
  assert ((8 <=? len password_in) = true) as Hlen.
  { apply Z.ltb_ge in Hp2. by apply Z.leb_le. }
  split; [|split; [|split]].
  - unfold strength_of. cbv zeta. rewrite Hlen, Hup, Hlo, Hdi.
    destruct (re_search_class is_special password_in); cbn [fst]; lia.
  - unfold password_validation, strength_of. cbv zeta.
    rewrite Hp1, Hlen, Hup, Hlo, Hdi.
    destruct (re_search_class is_special password_in); cbn [fst];
      eexists; reflexivity.
  - intros a Ha%is_empty_false. unfold step3_errors, add_error. cbv zeta.
    rewrite Hu1, Hu2, Hp1, Hp2, Ha.
    by rewrite bool_decide_eq_false_2 by (intros Hne; by apply Hne).
  - intros p Hp. apply registration_errors_nil.
    unfold strength_of in Hp. cbv zeta in Hp.
    destruct (8 <=? len p) eqn:Hl, (re_search_class is_ascii_upper p),
      (re_search_class is_ascii_lower p),
      (re_search_class unicode_decimal p),
      (re_search_class is_special p); cbn [fst] in Hp; try lia.
    apply Z.leb_le in Hl.
    assert (is_empty p = false).
    { apply is_empty_false. intros ->. unfold len in Hl. cbn [length] in Hl.
      lia. }
    split_and!; try done. by apply Z.ltb_ge.
Qed.

(** X24. The registration form of tab 2 leaves the wizard alone and keeps no
    password.  Whatever is submitted, [form_step] and [form_data] stay as
    they are.  A submission that fails a check changes nothing and shows the
    errors.  A submission that passes every check appends exactly one record
    to [submitted_forms] and shows the success message; the record has the
    type "registration" and no ['data'], and its only fields are the user
    name, the e-mail address and the country; for the wizard it is a
    submission of another tab. *)
Theorem registration_form_keeps_no_password
    (w : state) (username password_in confirm_password email_in country : str)
    (agree : bool) (now : str) :
  let errors :=
    registration_errors unicode_decimal username password_in confirm_password
      email_in agree in
  let record := registration_record username email_in country now in
  let res :=
    registration_form unicode_decimal w username password_in confirm_password
      email_in country agree now in
  form_step res.1 = form_step w
  ∧ form_data res.1 = form_data w
  ∧ (errors ≠ [] → res = (w, show_errors errors))
  ∧ (errors = [] →
       res = ({| form_step := form_step w; form_data := form_data w;
                 submitted_forms := submitted_forms w ++ [record] |},
              [st_success (lit "✅ Account created for " ++ username
                             ++ lit "!");
               st_balloons])
       ∧ tab4 w (OtherTabSubmission record) = Some (res.1, []))
  ∧ sub_type record = lit "registration"
  ∧ sub_data record = None
  ∧ (∀ k v,
       sub_fields record !! k = Some v
       ↔ (k = "username"%string ∧ v = FStr username)
         ∨ (k = "email"%string ∧ v = FStr email_in)
         ∨ (k = "country"%string ∧ v = FStr country)).
Proof.
  cbv zeta. unfold registration_form. cbv zeta.
  destruct (registration_errors _ _ _ _ _ _) as [|e errors] eqn:E;
    cbn [fst form_step form_data].
  - split_and!; [done..|]. intros k v. unfold registration_record.
    cbn [sub_fields list_to_map foldr]. split.
    + intros Hk.
      repeat (apply lookup_insert_Some in Hk as [[<- <-]|[_ Hk]]; [by auto|]).
      by rewrite lookup_empty in Hk.
    + intros [[-> ->]|[[-> ->]|[-> ->]]]; by vm_compute.
  - split_and!; [done..|]. intros k v. unfold registration_record.
    cbn [sub_fields list_to_map foldr]. split.
    + intros Hk.
      repeat (apply lookup_insert_Some in Hk as [[<- <-]|[_ Hk]]; [by auto|]).
      by rewrite lookup_empty in Hk.
    + intros [[-> ->]|[[-> ->]|[-> ->]]]; by vm_compute.
Qed.

End RegistrationProperties.

Lemma registration_password_is_strong_witness :
  4 ≤ (Chapter10.strength_of is_ascii_digit (lit "Abcdef12")).1 ≤ 5
  ∧ (∃ feedback,
       Chapter10.password_validation is_ascii_digit (lit "Abcdef12")
       = Chapter10.strong (Chapter10.strength_of is_ascii_digit (lit "Abcdef12")).1 :: feedback)
  ∧ (∀ security_answer,
       security_answer ≠ [] →
       Wizard.step3_errors (lit "ann") (lit "Abcdef12") (lit "Abcdef12")
         security_answer
       = [])
  ∧ (∀ p,
       (Chapter10.strength_of is_ascii_digit p).1 = 5 →
       Registration10.registration_errors is_ascii_digit (lit "ann") p p (lit "a@b.c") true
       = []).
Proof.
  apply (registration_password_is_strong is_ascii_digit (lit "ann") (lit "Abcdef12")
           (lit "Abcdef12") (lit "a@b.c") true).
  vm_compute. reflexivity.
Defined.

(** * Chapter 10: the regular expressions of the validators *)

(** The fragment of Python's [re] the page uses: character classes,
    sequence, choice and repetition, matched by derivatives. *)
Module Re.

Inductive re : Type :=
  | Never
  | Eps
  | Class (p : char → bool)
  | Cat (r1 r2 : re)
  | Alt (r1 r2 : re)
  | Star (r : re).

(** [r+], [r?] and [r{n}], [r{n,}], [r{m,n}]. *)
Definition Plus (r : re) : re := Cat r (Star r).
Definition Opt (r : re) : re := Alt Eps r.

Fixpoint Times (n : nat) (r : re) : re :=
  match n with
  | O => Eps
  | S k => Cat r (Times k r)
  end.

Definition AtLeast (n : nat) (r : re) : re := Cat (Times n r) (Star r).

Fixpoint UpTo (n : nat) (r : re) : re :=
  match n with
  | O => Eps
  | S k => Opt (Cat r (UpTo k r))
  end.

Definition Between (m n : nat) (r : re) : re :=
  Cat (Times m r) (UpTo (n - m) r).

Definition Chr (c : char) : re := Class (λ x, bool_decide (x = c)).

Fixpoint nullable (r : re) : bool :=
  match r with
  | Never => false
  | Eps => true
  | Class _ => false
  | Cat r1 r2 => nullable r1 && nullable r2
  | Alt r1 r2 => nullable r1 || nullable r2
  | Star _ => true
  end.

Fixpoint deriv (c : char) (r : re) : re :=
  match r with
  | Never => Never
  | Eps => Never
  | Class p => if p c then Eps else Never
  | Cat r1 r2 =>
      if nullable r1 then Alt (Cat (deriv c r1) r2) (deriv c r2)
      else Cat (deriv c r1) r2
  | Alt r1 r2 => Alt (deriv c r1) (deriv c r2)
  | Star r1 => Cat (deriv c r1) (Star r1)
  end.

(** The whole of [s] matches [r]. *)
Definition matches (r : re) (s : str) : bool :=
  nullable (foldl (λ r c, deriv c r) r s).

(** [re.match('^' r '$', s)] without flags: [$] is the end of the string,
    or the place before a line feed that ends the string. *)
Definition match_to_end (r : re) (s : str) : bool :=
  matches r s
  || match reverse s with
     | c :: rest => bool_decide (ord c = 10%N) && matches r (reverse rest)
     | [] => false
     end.

(** The strings of a regular expression. *)
Inductive lang : re → str → Prop :=
  | lang_eps : lang Eps []
  | lang_class p c : p c = true → lang (Class p) [c]
  | lang_cat r1 r2 s1 s2 :
      lang r1 s1 → lang r2 s2 → lang (Cat r1 r2) (s1 ++ s2)
  | lang_alt_l r1 r2 s : lang r1 s → lang (Alt r1 r2) s
  | lang_alt_r r1 r2 s : lang r2 s → lang (Alt r1 r2) s
  | lang_star_nil r : lang (Star r) []
  | lang_star_app r s1 s2 :
      lang r s1 → lang (Star r) s2 → lang (Star r) (s1 ++ s2).

Lemma nullable_lang (r : re) : nullable r = true ↔ lang r [].
Proof.
  split.
  - induction r as [| |p|r1 IH1 r2 IH2|r1 IH1 r2 IH2|r IH]; cbn [nullable];
      try discriminate.
    + constructor.
    + intros [H1 H2]%andb_true_iff.
      apply (lang_cat r1 r2 [] []); auto.
    + intros [H|H]%orb_true_iff; [apply lang_alt_l|apply lang_alt_r]; auto.
    + constructor.
  - intros H. remember [] as s eqn:Es.
    induction H as [|p c Hp|r1 r2 s1 s2 _ IH1 _ IH2|r1 r2 s _ IH|r1 r2 s _ IH
                   |r|r s1 s2 _ _ _ _]; cbn [nullable]; try done.
    + apply app_eq_nil in Es as [-> ->]. by rewrite IH1, IH2.
    + by rewrite IH.
    + rewrite IH by done. apply orb_true_r.
Qed.

Lemma deriv_lang (r : re) (c : char) (s : str) :
  lang (deriv c r) s ↔ lang r (c :: s).
Proof.
  split.
  - revert s.
    induction r as [| |p|r1 IH1 r2 IH2|r1 IH1 r2 IH2|r IH]; intros s;
      cbn [deriv].
    + inversion 1.
    + inversion 1.
    + destruct (p c) eqn:Hp; inversion 1. by constructor.
    + destruct (nullable r1) eqn:Hn.
      * inversion 1 as [| | |? ? ? HL|? ? ? HR| |]; subst.
        -- inversion HL as [| |? ? s1 s2 H1 H2| | | |]; subst.
           apply (lang_cat r1 r2 (c :: s1) s2); auto.
        -- apply (lang_cat r1 r2 [] (c :: s)); [|by auto].
           by apply nullable_lang.
      * inversion 1 as [| |? ? s1 s2 H1 H2| | | |]; subst.
        apply (lang_cat r1 r2 (c :: s1) s2); auto.
    + inversion 1; subst; [apply lang_alt_l|apply lang_alt_r]; auto.
    + inversion 1 as [| |? ? s1 s2 H1 H2| | | |]; subst.
      apply (lang_star_app r (c :: s1) s2); auto.
  - intros H. remember (c :: s) as cs eqn:E. revert s E.
    induction H as [|p x Hp|r1 r2 s1 s2 H1 IH1 H2 IH2|r1 r2 s0 _ IH
                   |r1 r2 s0 _ IH|r|r s1 s2 H1 IH1 H2 IH2];
      intros s E; cbn [deriv]; try discriminate E.
    + injection E as -> <-. rewrite Hp. constructor.
    + destruct s1 as [|x s1]; cbn [app] in E.
      * subst s2. apply nullable_lang in H1. rewrite H1.
        apply lang_alt_r. by apply IH2.
      * injection E as -> <-.
        assert (lang (Cat (deriv c r1) r2) (s1 ++ s2)) as Hc.
        { apply lang_cat; [by apply IH1|done]. }
        destruct (nullable r1); [by apply lang_alt_l|done].
    + apply lang_alt_l. by apply IH.
    + apply lang_alt_r. by apply IH.
    + destruct s1 as [|x s1]; cbn [app] in E.
      * by apply IH2.
      * injection E as -> <-. apply lang_cat; [by apply IH1|done].
Qed.

Lemma matches_lang (r : re) (s : str) : matches r s = true ↔ lang r s.
Proof.
  unfold matches. revert r.
  induction s as [|c s IH]; intros r; cbn [foldl].
  - apply nullable_lang.
  - rewrite IH. apply deriv_lang.
Qed.

End Re.

(** * Chapter 10, tab 3: the e-mail and the phone validator *)

Module Validators10.

Import Re.

Definition is_ascii_letter (c : char) : bool :=
  is_ascii_lower c || is_ascii_upper c.

(** The classes [[a-zA-Z0-9._%+-]], [[a-zA-Z0-9.-]] and [[a-zA-Z]]. *)
Definition local_class (c : char) : bool :=
  is_ascii_letter c || is_ascii_digit c || bool_decide (c ∈ lit "._%+-").

Definition domain_class (c : char) : bool :=
  is_ascii_letter c || is_ascii_digit c || bool_decide (c ∈ lit ".-").

(** [[a-zA-Z0-9._%+-]+@[a-zA-Z0-9.-]+\.[a-zA-Z]{2,}] *)
Definition email_re : re :=
  Cat (Plus (Class local_class))
    (Cat (Chr (chr 64))
       (Cat (Plus (Class domain_class))
          (Cat (Chr (chr 46)) (AtLeast 2 (Class is_ascii_letter))))).

(** The body of [if st.form_submit_button("Validate Email")]. *)
Definition email_validation (email_input : str) : list ui :=
  if is_empty email_input then [st_error (lit "❌ Email is required")]
  else if negb (match_to_end email_re email_input)
  then [st_error (lit "❌ Invalid email format")]
  else [st_success (lit "✅ Valid email: " ++ email_input)].

Section Phone.

(** The classes [\s] and [\d] of a [str] pattern beyond ASCII: the white
    space and the decimal digits of the interpreter's Unicode database. *)
Variable unicode_space : char → bool.
Variable unicode_decimal : char → bool.

(** [\s]: space, [\t], [\n], [\v], [\f], [\r], and the other white space of
    Unicode. *)
Definition is_space (c : char) : bool :=
  bool_decide (ord c ∈ [32; 9; 10; 11; 12; 13]%N) || unicode_space c.

(** [[\s\-\(\)]] *)
Definition removed (c : char) : bool :=
  is_space c || bool_decide (c ∈ lit "-()").

(** [re.sub(r'[\s\-\(\)]', '', phone_input)] *)
Definition clean (phone_input : str) : str :=
  filter (λ c, removed c = false) phone_input.

(** [\+?1?\d{10,15}] *)
Definition phone_re : re :=
  Cat (Opt (Chr (chr 43)))
    (Cat (Opt (Chr (chr 49))) (Between 10 15 (Class unicode_decimal))).

(** The body of [if st.form_submit_button("Validate Phone")]. *)
Definition phone_validation (phone_input : str) : list ui :=
  if is_empty phone_input then [st_error (lit "❌ Phone number is required")]
  else
    let clean_phone := clean phone_input in
    if match_to_end phone_re clean_phone
    then [st_success (lit "✅ Valid phone: " ++ clean_phone)]
    else [st_error (lit "❌ Invalid phone format (10-15 digits, optional +)")].

End Phone.

End Validators10.

Example email_ok :
  Validators10.email_validation (lit "john.doe+x@mail.example.com")
  = [st_success (lit "✅ Valid email: john.doe+x@mail.example.com")].
Proof. vm_compute. reflexivity. Qed.

Example email_bad :
  Validators10.email_validation (lit "john@example.c")
  = [st_error (lit "❌ Invalid email format")].
Proof. vm_compute. reflexivity. Qed.

Example phone_ok :
  Validators10.phone_validation (λ _, false) is_ascii_digit
    (lit "+1 (234) 567-8901")
  = [st_success (lit "✅ Valid phone: +12345678901")].
Proof. vm_compute. reflexivity. Qed.
Section ReProperties.

Import Re.

Lemma lang_cat_inv (r1 r2 : re) (s : str) :
  lang (Cat r1 r2) s ↔ ∃ s1 s2, s = s1 ++ s2 ∧ lang r1 s1 ∧ lang r2 s2.
Proof.
  split.
  - inversion 1; subst. eauto.
  - intros (s1 & s2 & -> & H1 & H2). by constructor.
Qed.

Lemma lang_opt (r : re) (s : str) : lang (Opt r) s ↔ s = [] ∨ lang r s.
Proof.
  unfold Opt. split.
  - inversion 1 as [| | |? ? ? HL|? ? ? HR| |]; subst; [left|by right].
    by inversion HL.
  - intros [->|H]; [apply lang_alt_l; constructor|by apply lang_alt_r].
Qed.

Lemma lang_class_inv (p : char → bool) (s : str) :
  lang (Class p) s ↔ ∃ c, s = [c] ∧ p c = true.
Proof.
  split.
  - inversion 1; subst. eauto.
  - intros (c & -> & H). by constructor.
Qed.

Lemma lang_chr (c : char) (s : str) : lang (Chr c) s ↔ s = [c].
Proof.
  unfold Chr. rewrite lang_class_inv. split.
  - intros (x & -> & ->%bool_decide_eq_true). done.
  - intros ->. exists c. split; [done|]. by apply bool_decide_eq_true_2.
Qed.

Lemma lang_star_class (p : char → bool) (s : str) :
  lang (Star (Class p)) s ↔ Forall (λ c, p c = true) s.
Proof.
  split.
  - intros H. remember (Star (Class p)) as r eqn:E.
    induction H as [| | | | |r|r s1 s2 H1 _ _ IH2]; try discriminate E.
    + constructor.
    + injection E as ->. apply lang_class_inv in H1 as (c & -> & Hc).
      constructor; [done|]. by apply IH2.
  - induction 1 as [|c s Hc _ IH]; [constructor|].
    apply (lang_star_app _ [c] s); [by constructor|done].
Qed.

Lemma lang_times_class (n : nat) (p : char → bool) (s : str) :
  lang (Times n (Class p)) s ↔ length s = n ∧ Forall (λ c, p c = true) s.
Proof.
  revert s. induction n as [|n IH]; intros s; cbn [Times].
  - split.
    + inversion 1. by split.
    + intros [->%nil_length_inv _]. constructor.
  - rewrite lang_cat_inv. split.
    + intros (s1 & s2 & -> & (c & -> & Hc)%lang_class_inv & [Hl Hf]%IH).
      cbn [app length]. split; [by rewrite Hl|by constructor].
    + intros [Hl Hf]. destruct s as [|c s]; [done|].
      apply Forall_cons in Hf as [Hc Hf]. exists [c], s.
      split_and!; [done|by constructor|]. apply IH. cbn [length] in Hl.
      split; [lia|done].
Qed.

Lemma lang_upto_class (n : nat) (p : char → bool) (s : str) :
  lang (UpTo n (Class p)) s
  ↔ (length s ≤ n)%nat ∧ Forall (λ c, p c = true) s.
Proof.
  revert s. induction n as [|n IH]; intros s; cbn [UpTo].
  - split.
    + inversion 1. by split.
    + intros [Hl _]. destruct s; [constructor|cbn [length] in Hl; lia].
  - rewrite lang_opt, lang_cat_inv. split.
    + intros [->|(s1 & s2 & -> & (c & -> & Hc)%lang_class_inv & [Hl Hf]%IH)].
      * split; [cbn [length]; lia|constructor].
      * cbn [app length]. split; [lia|by constructor].
    + intros [Hl Hf]. destruct s as [|c s]; [by left|right].
      apply Forall_cons in Hf as [Hc Hf]. exists [c], s.
      split_and!; [done|by constructor|]. apply IH. cbn [length] in Hl.
      split; [lia|done].
Qed.

Lemma lang_plus_class (p : char → bool) (s : str) :
  lang (Plus (Class p)) s ↔ s ≠ [] ∧ Forall (λ c, p c = true) s.
Proof.
  unfold Plus. rewrite lang_cat_inv. split.
  - intros (s1 & s2 & -> & (c & -> & Hc)%lang_class_inv & Hf%lang_star_class).
    split; [done|by constructor].
  - intros [Hne Hf]. destruct s as [|c s]; [done|].
    apply Forall_cons in Hf as [Hc Hf]. exists [c], s.
    split_and!; [done|by constructor|by apply lang_star_class].
Qed.

Lemma lang_at_least_class (n : nat) (p : char → bool) (s : str) :
  lang (AtLeast n (Class p)) s
  ↔ (n ≤ length s)%nat ∧ Forall (λ c, p c = true) s.
Proof.
  unfold AtLeast. rewrite lang_cat_inv. split.
  - intros (s1 & s2 & -> & [Hl H1]%lang_times_class & H2%lang_star_class).
    rewrite length_app. split; [lia|by apply Forall_app].
  - intros [Hl Hf]. exists (take n s), (drop n s).
    rewrite take_drop. split; [done|]. split.
    + apply lang_times_class. split; [rewrite length_take; lia|].
      by apply Forall_take.
    + apply lang_star_class. by apply Forall_drop.
Qed.

Lemma lang_between_class (m n : nat) (p : char → bool) (s : str) :
  (m ≤ n)%nat →
  lang (Between m n (Class p)) s
  ↔ (m ≤ length s ≤ n)%nat ∧ Forall (λ c, p c = true) s.
Proof.
  intros Hmn. unfold Between. rewrite lang_cat_inv. split.
  - intros (s1 & s2 & -> & [Hl H1]%lang_times_class & [Hl2 H2]%lang_upto_class).
    rewrite length_app. split; [lia|by apply Forall_app].
  - intros [Hl Hf]. exists (take m s), (drop m s).
    rewrite take_drop. split; [done|]. split.
    + apply lang_times_class. split; [rewrite length_take; lia|].
      by apply Forall_take.
    + apply lang_upto_class. split; [rewrite length_drop; lia|].
      by apply Forall_drop.
Qed.

Lemma match_to_end_lang (r : re) (s : str) :
  match_to_end r s = true
  ↔ lang r s ∨ ∃ s' c, s = s' ++ [c] ∧ ord c = 10%N ∧ lang r s'.
Proof.
  unfold match_to_end. rewrite orb_true_iff, matches_lang.
  split; (intros [H|H]; [by left|right]).
  - destruct (reverse s) as [|c rest] eqn:E; [done|].
    apply andb_true_iff in H as [Hc%bool_decide_eq_true Hm%matches_lang].
    exists (reverse rest), c. split_and!; [|done..].
    apply (inj reverse). by rewrite reverse_app, reverse_involutive.
  - destruct H as (s' & c & -> & Hc & Hm).
    rewrite reverse_app, reverse_singleton. cbn [app].
    rewrite reverse_involutive.
    apply andb_true_iff. split; [by apply bool_decide_eq_true_2|].
    by apply matches_lang.
Qed.

End ReProperties.
Section ValidatorProperties.

Import Re Validators10.

(** The strings of the e-mail pattern. *)
Definition email_shape (local domain tld : str) : Prop :=
  local ≠ [] ∧ Forall (λ c, local_class c = true) local
  ∧ domain ≠ [] ∧ Forall (λ c, domain_class c = true) domain
  ∧ (2 ≤ length tld)%nat ∧ Forall (λ c, is_ascii_letter c = true) tld.

Lemma email_re_lang (s : str) :
  lang email_re s
  ↔ ∃ local domain tld,
      s = local ++ [chr 64] ++ domain ++ [chr 46] ++ tld
      ∧ email_shape local domain tld.
Proof.
  unfold email_re, email_shape. split.
  - intros (l & s1 & -> & [Hl1 Hl2]%lang_plus_class
            & (a & s2 & -> & ->%lang_chr
               & (d & s3 & -> & [Hd1 Hd2]%lang_plus_class
                  & (dot & t & -> & ->%lang_chr
                     & [Ht1 Ht2]%lang_at_least_class)%lang_cat_inv
                 )%lang_cat_inv)%lang_cat_inv)%lang_cat_inv.
    by exists l, d, t.
  - intros (l & d & t & -> & Hl1 & Hl2 & Hd1 & Hd2 & Ht1 & Ht2).
    apply lang_cat; [by apply lang_plus_class|].
    apply lang_cat; [by apply lang_chr|].
    apply lang_cat; [by apply lang_plus_class|].
    apply lang_cat; [by apply lang_chr|].
    by apply lang_at_least_class.
Qed.

Lemma ord_10 (c : char) : ord c = 10%N ↔ c = chr 10.
Proof.
  split.
  - intros H. apply ord_inj. rewrite H. symmetry. by apply ord_chr.
  - intros ->. by apply ord_chr.
Qed.

(** X25. The e-mail validator of tab 3 accepts exactly the addresses of the
    form local@domain.tld, where the local part is not empty and made of
    ASCII letters, ASCII digits and . _ % + -, the domain is not empty and
    made of ASCII letters, ASCII digits and . -, and the last part is two or
    more ASCII letters; one line feed may follow, because [$] also matches
    before a final line feed. *)
Theorem email_validation_accepts_shape (email_input : str) :
  email_validation email_input
  = [st_success (lit "✅ Valid email: " ++ email_input)]
  ↔ ∃ local domain tld nl,
      email_input = local ++ [chr 64] ++ domain ++ [chr 46] ++ tld ++ nl
      ∧ (nl = [] ∨ nl = [chr 10])
      ∧ email_shape local domain tld.
Proof.
  unfold email_validation.
  destruct (is_empty email_input) eqn:He.
  { split; [discriminate|]. apply is_empty_true in He as ->.
    intros (l & d & t & nl & E & _). by destruct l. }
  destruct (match_to_end email_re email_input) eqn:Hm; cbn [negb].
  - split; [intros _|done].
    apply match_to_end_lang in Hm
      as [(l & d & t & -> & Hs)%email_re_lang
         |(s' & c & -> & ->%ord_10 & (l & d & t & -> & Hs)%email_re_lang)].
    + exists l, d, t, []. rewrite app_nil_r. auto.
    + exists l, d, t, [chr 10]. rewrite <-!app_assoc. auto.
  - split; [discriminate|]. intros (l & d & t & nl & -> & Hnl & Hs).
    assert (match_to_end email_re
              (l ++ [chr 64] ++ d ++ [chr 46] ++ t ++ nl) = true) as Ht;
      [|congruence].
    apply match_to_end_lang. destruct Hnl as [->| ->].
    + left. apply email_re_lang. exists l, d, t. by rewrite app_nil_r.
    + right. exists (l ++ [chr 64] ++ d ++ [chr 46] ++ t), (chr 10).
      split_and!; [by rewrite <-!app_assoc|by apply ord_10|].
      apply email_re_lang. by exists l, d, t.
Qed.

(** X26. An address the e-mail validator accepts passes the weaker test of
    the registration form and of step 1 of the wizard, which only look for
    an "@"; the converse fails: step 1 accepts the address "@", which the
    validator rejects. *)
Theorem valid_email_passes_the_weaker_checks (email_input : str) :
  email_validation email_input
  = [st_success (lit "✅ Valid email: " ++ email_input)] →
  is_empty email_input = false
  ∧ contains_char (chr 64) email_input = true
  ∧ (∀ first_name last_name phone,
       first_name ≠ [] → last_name ≠ [] → phone ≠ [] →
       Wizard.step1_errors first_name email_input last_name phone = []
       ∧ Wizard.step1_errors first_name (lit "@") last_name phone = [])
  ∧ email_validation (lit "@") = [st_error (lit "❌ Invalid email format")].
Proof.
  intros H. unfold email_validation in H.
  destruct (is_empty email_input) eqn:He; [discriminate|].
  destruct (match_to_end email_re email_input) eqn:Hm; [|discriminate].
  assert (contains_char (chr 64) email_input = true) as Hat.
  { apply bool_decide_eq_true_2.
    apply match_to_end_lang in Hm
      as [(l & d & t & -> & Hs)%email_re_lang
         |(s' & c & -> & _ & (l & d & t & -> & Hs)%email_re_lang)];
      rewrite ?elem_of_app; [right; left|left; right; left];
      apply list_elem_of_here. }
  split_and!; [done|done| |by vm_compute].
  intros f l p Hf%is_empty_false Hl%is_empty_false Hp%is_empty_false.
  unfold Wizard.step1_errors, Wizard.add_error. cbv zeta.
  rewrite Hf, Hl, Hp, He, Hat.
  assert (is_empty (lit "@") = false) as -> by (by vm_compute).
  assert (contains_char (chr 64) (lit "@") = true) as -> by (by vm_compute).
  done.
Qed.

Section PhoneProperties.

Variable unicode_space : char → bool.
Variable unicode_decimal : char → bool.

Lemma phone_re_lang (s : str) :
  lang (phone_re unicode_decimal) s
  ↔ ∃ prefix digits,
      s = prefix ++ digits
      ∧ prefix ∈ [[]; [chr 43]; [chr 49]; [chr 43; chr 49]]
      ∧ (10 ≤ length digits ≤ 15)%nat
      ∧ Forall (λ c, unicode_decimal c = true) digits.
Proof.
  unfold phone_re. rewrite lang_cat_inv. split.
  - intros (s1 & s2 & -> & H1%lang_opt & (s3 & s4 & -> & H3%lang_opt
                                          & H4)%lang_cat_inv).
    apply lang_between_class in H4 as [Hl Hf]; [|lia].
    rewrite lang_chr in H1, H3. exists (s1 ++ s3), s4.
    split_and!; [by rewrite app_assoc| |lia|lia|done].
    destruct H1 as [->| ->], H3 as [->| ->]; cbn [app];
      repeat first [apply list_elem_of_here|apply list_elem_of_further].
  - intros (pre & ds & -> & Hpre & Hl & Hf).
    assert (∃ s1 s3, pre = s1 ++ s3 ∧ (s1 = [] ∨ s1 = [chr 43])
                     ∧ (s3 = [] ∨ s3 = [chr 49]))
      as (s1 & s3 & -> & H1 & H3).
    { repeat (apply elem_of_cons in Hpre as [->|Hpre]);
        [exists [], []|exists [chr 43], []|exists [], [chr 49]
        |exists [chr 43], [chr 49]|by inversion Hpre]; auto. }
    exists s1, (s3 ++ ds). rewrite app_assoc. split; [done|].
    split; [by apply lang_opt; rewrite lang_chr|].
    apply lang_cat; [by apply lang_opt; rewrite lang_chr|].
    apply lang_between_class; [lia|done].
Qed.

Lemma clean_no_line_feed (phone_input s' : str) (c : char) :
  clean unicode_space phone_input = s' ++ [c] → ord c ≠ 10%N.
Proof.
  intros E Hc.
  assert (c ∈ clean unicode_space phone_input) as Hin.
  { rewrite E. apply elem_of_app. right. apply list_elem_of_here. }
  apply list_elem_of_filter in Hin as [Hr _].
  unfold removed, is_space in Hr. rewrite Hc in Hr.
  by rewrite bool_decide_eq_true_2 in Hr
    by (do 2 apply list_elem_of_further; apply list_elem_of_here).
Qed.

(** X27. The phone validator of tab 3 first drops white space, "-", "(" and
    ")" from the input, and accepts exactly when what is left is 10 to 15
    decimal digits after an optional "+" and an optional "1"; the number it
    shows on success is the input without the dropped characters. *)
Theorem phone_validation_accepts_shape (phone_input : str) :
  phone_validation unicode_space unicode_decimal phone_input
  = [st_success (lit "✅ Valid phone: " ++ clean unicode_space phone_input)]
  ↔ ∃ prefix digits,
      clean unicode_space phone_input = prefix ++ digits
      ∧ prefix ∈ [[]; [chr 43]; [chr 49]; [chr 43; chr 49]]
      ∧ (10 ≤ length digits ≤ 15)%nat
      ∧ Forall (λ c, unicode_decimal c = true) digits.
Proof.
  rewrite <-phone_re_lang. unfold phone_validation.
  destruct (is_empty phone_input) eqn:He.
  { split; [discriminate|]. apply is_empty_true in He as ->.
    intros (pre & ds & E & _ & Hl & _)%phone_re_lang.
    symmetry in E. apply app_eq_nil in E as [_ ->]. cbn [length] in Hl. lia. }
  cbv zeta.
  destruct (match_to_end _ _) eqn:Hm.
  - split; [intros _|done].
    apply match_to_end_lang in Hm as [H|(s' & c & E & Hc & _)]; [done|].
    by apply clean_no_line_feed in E.
  - split; [discriminate|]. intros H.
    assert (match_to_end (phone_re unicode_decimal)
              (clean unicode_space phone_input) = true) as Ht; [|congruence].
    apply match_to_end_lang. by left.
Qed.

End PhoneProperties.

End ValidatorProperties.

Lemma valid_email_passes_the_weaker_checks_witness :
  is_empty (lit "ann@example.com") = false
  ∧ contains_char (chr 64) (lit "ann@example.com") = true
  ∧ (∀ first_name last_name phone,
       first_name ≠ [] → last_name ≠ [] → phone ≠ [] →
       Wizard.step1_errors first_name (lit "ann@example.com") last_name phone
       = []
       ∧ Wizard.step1_errors first_name (lit "@") last_name phone = [])
  ∧ Validators10.email_validation (lit "@")
    = [st_error (lit "❌ Invalid email format")].
Proof.
  apply (valid_email_passes_the_weaker_checks (lit "ann@example.com")).
  vm_compute. reflexivity.
Defined.
